(** * dirsum: a shallow embedding of the manifest tool

    The development follows [dirsum.go]: the helper packages the program
    calls ([strings], [path/filepath] with Unix separators, [crypto/md5],
    [sort], [unicode/utf8]), then the program's own types and functions in
    source order, then their properties.  The commands come twice: first
    from the header on and over the models of [strings.ToLower] and
    [sort.Sort] given here, then, in [generic], with the header and for
    whatever these two library functions compute.

    Go strings are byte sequences; they are modelled by [string], whose
    characters are the 256 byte values. *)

From Stdlib Require Import ZArith Ascii String List Permutation Sorted Lia Bool.
From stdpp Require Import gmap strings list fin_maps sorting.

Local Open Scope string_scope.
Local Open Scope list_scope.

(** Go's [error] values are carried as their message. *)
Definition error := string.

(** A Go result pair [(v, err)] with the convention that exactly one of the
    two is meaningful. *)
Inductive result (A : Type) : Type :=
| Ok (a : A)
| Err (e : error).
Arguments Ok {A} a.
Arguments Err {A} e.

Definition isOk {A} (r : result A) : bool :=
  match r with Ok _ => true | Err _ => false end.

(** ** Package [strings] *)

Module strings.

Definition LF : ascii := "010"%char.
Definition CR : ascii := "013"%char.

Fixpoint HasPrefix (s prefix : string) : bool :=
  match prefix with
  | EmptyString => true
  | String p prefix' =>
      match s with
      | EmptyString => false
      | String c s' => Ascii.eqb c p && HasPrefix s' prefix'
      end
  end.

Definition HasSuffix (s suffix : string) : bool :=
  (String.length suffix <=? String.length s)%nat
  && String.eqb
       (substring (String.length s - String.length suffix)
                  (String.length suffix) s)
       suffix.

(** Prepend a byte to the first element of a split under construction. *)
Definition consHead (c : ascii) (parts : list string) : list string :=
  match parts with
  | [] => [String c EmptyString]
  | e :: es => String c e :: es
  end.

(** [strings.Split(s, sep)] for a one-byte separator. *)
Fixpoint SplitByte (sep : ascii) (s : string) : list string :=
  match s with
  | EmptyString => [EmptyString]
  | String c s' =>
      if Ascii.eqb c sep then EmptyString :: SplitByte sep s'
      else consHead c (SplitByte sep s')
  end.

(** [strings.Split(s, sep)] for a two-byte separator [a b]: occurrences are
    found left to right and do not overlap. *)
Fixpoint SplitPair (a b : ascii) (s : string) : list string :=
  match s with
  | EmptyString => [EmptyString]
  | String c s' =>
      match s' with
      | EmptyString => [String c EmptyString]
      | String d s'' =>
          if Ascii.eqb c a && Ascii.eqb d b
          then EmptyString :: SplitPair a b s''
          else consHead c (SplitPair a b s')
      end
  end.

(** [strings.Replace(s, old, new, -1)] for a two-byte [old = a b]. *)
Fixpoint ReplacePair (a b : ascii) (new : string) (s : string) : string :=
  match s with
  | EmptyString => EmptyString
  | String c s' =>
      match s' with
      | EmptyString => String c EmptyString
      | String d s'' =>
          if Ascii.eqb c a && Ascii.eqb d b
          then new +:+ ReplacePair a b new s''
          else String c (ReplacePair a b new s')
      end
  end.

Fixpoint Join (elems : list string) (sep : string) : string :=
  match elems with
  | [] => EmptyString
  | e :: es =>
      match es with
      | [] => e
      | _ :: _ => e +:+ sep +:+ Join es sep
      end
  end.

(** [strings.ToLower] on a string of ASCII bytes: the letters [A]..[Z]
    are mapped to [a]..[z] and every other byte is left as it is.  On other
    strings Go also lower-cases the letters beyond ASCII and replaces
    invalid UTF-8; this function leaves every byte from 128 on as it is.
    Properties of the order that are to hold for paths of any kind are
    stated for an arbitrary lower-casing function, over [generic] below. *)
Definition lowerByte (c : ascii) : ascii :=
  let n := nat_of_ascii c in
  if (65 <=? n)%nat && (n <=? 90)%nat then ascii_of_nat (n + 32) else c.

Fixpoint ToLower (s : string) : string :=
  match s with
  | EmptyString => EmptyString
  | String c s' => String (lowerByte c) (ToLower s')
  end.

(** Go's [<] on strings is the byte-wise lexicographic order. *)
Definition Less (a b : string) : bool := String.ltb a b.

Fixpoint Contains1 (c : ascii) (s : string) : bool :=
  match s with
  | EmptyString => false
  | String d s' => Ascii.eqb d c || Contains1 c s'
  end.

Fixpoint Contains2 (a b : ascii) (s : string) : bool :=
  match s with
  | EmptyString => false
  | String c s' => HasPrefix s (String a (String b EmptyString)) || Contains2 a b s'
  end.

(** [strings.Repeat(s, count)]: it panics when [count] is negative, which is
    the result [None]. *)
Fixpoint repeatString (s : string) (n : nat) : string :=
  match n with
  | O => EmptyString
  | S n' => s +:+ repeatString s n'
  end.

Definition Repeat (s : string) (count : Z) : option string :=
  if (count <? 0)%Z then None else Some (repeatString s (Z.to_nat count)).

End strings.

(** ** Package [path/filepath], Unix flavour

    The separator is [/] and there are no volume names.  The functions are
    purely lexical and are modelled on the list of path elements. *)

Module filepath.

Definition Separator : ascii := "/"%char.

Definition IsAbs (path : string) : bool := strings.HasPrefix path "/".

(** One step of [Clean]'s scan.  [out] is the stack of elements written so
    far, most recent first.  Empty elements and [.] are dropped; [..]
    removes the previous element when there is one that is not itself a
    retained [..]; otherwise it is kept for a relative path and dropped
    under the root. *)
Definition cleanElem (rooted : bool) (out : list string) (e : string)
  : list string :=
  if String.eqb e "" || String.eqb e "." then out
  else if String.eqb e ".." then
    match out with
    | top :: rest =>
        if String.eqb top ".." then e :: out else rest
    | [] => if rooted then out else [e]
    end
  else e :: out.

Definition cleanElems (path : string) : list string :=
  rev (fold_left (cleanElem (IsAbs path)) (strings.SplitByte Separator path) []).

Definition Clean (path : string) : string :=
  if String.eqb path "" then "."
  else
    let out := cleanElems path in
    if IsAbs path then "/" +:+ strings.Join out "/"
    else match out with
         | [] => "."
         | _ :: _ => strings.Join out "/"
         end.

(** [Join(a, b)]: leading empty arguments are skipped, the rest is joined
    with the separator and cleaned. *)
Definition Join (a b : string) : string :=
  if String.eqb a "" then (if String.eqb b "" then "" else Clean b)
  else Clean (a +:+ "/" +:+ b).

(** The prefix of [s] up to and including its last separator. *)
Fixpoint uptoLastSep (s : string) : string :=
  match s with
  | EmptyString => EmptyString
  | String c s' =>
      let r := uptoLastSep s' in
      if Ascii.eqb c Separator || negb (String.eqb r "") then String c r
      else EmptyString
  end.

(** The suffix of [s] after its last separator. *)
Fixpoint afterLastSep (s : string) : string :=
  match s with
  | EmptyString => EmptyString
  | String c s' =>
      if strings.Contains1 Separator s then afterLastSep s' else s
  end.

Definition Dir (path : string) : string := Clean (uptoLastSep path).

Fixpoint trimTrailingSeps (s : string) : string :=
  match s with
  | EmptyString => EmptyString
  | String c s' =>
      let r := trimTrailingSeps s' in
      if Ascii.eqb c Separator && String.eqb r "" then EmptyString
      else String c r
  end.

Definition Base (path : string) : string :=
  if String.eqb path "" then "."
  else
    let p := afterLastSep (trimTrailingSeps path) in
    if String.eqb p "" then "/" else p.

(** The elements [Rel]'s scan sees in a cleaned path: the text between
    separators, where the root [/] contributes one empty element. *)
Definition relElems (s : string) : list string :=
  if String.eqb s "" then []
  else if String.eqb s "/" then [EmptyString]
  else strings.SplitByte Separator s.

(** Drop the longest common prefix of two element lists. *)
Fixpoint dropCommon (bs ts : list string) : list string * list string :=
  match bs, ts with
  | b :: bs', t :: ts' =>
      if String.eqb t b then dropCommon bs' ts' else (bs, ts)
  | _, _ => (bs, ts)
  end.

Definition relError (basepath targpath : string) : error :=
  "Rel: can't make " +:+ targpath +:+ " relative to " +:+ basepath.

Definition Rel (basepath targpath : string) : result string :=
  let base := Clean basepath in
  let targ := Clean targpath in
  if String.eqb targ base then Ok "."
  else
    let base := if String.eqb base "." then "" else base in
    let baseSlashed := strings.HasPrefix base "/" in
    let targSlashed := strings.HasPrefix targ "/" in
    if negb (Bool.eqb baseSlashed targSlashed) then
      Err (relError basepath targpath)
    else
      let '(bs, ts) := dropCommon (relElems base) (relElems targ) in
      match bs, ts with
      | b :: _, _ :: _ =>
          if String.eqb b ".." then Err (relError basepath targpath)
          else Ok (strings.Join (map (fun _ => "..") bs ++ ts) "/")
      | _ :: _, [] => Ok (strings.Join (map (fun _ => "..") bs) "/")
      | [], _ => Ok (strings.Join ts "/")
      end.

(** [Abs] needs the working directory, which the caller obtains from the
    operating system. *)
Definition Abs (getwd : result string) (path : string) : result string :=
  if IsAbs path then Ok (Clean path)
  else match getwd with
       | Err e => Err e
       | Ok wd => Ok (Join wd path)
       end.

End filepath.

(** ** Package [crypto/md5] and the [%x] verb of [fmt] *)

Module md5.

Local Open Scope Z_scope.

Definition Size : nat := 16.

Definition mask32 (x : Z) : Z := Z.land x 0xffffffff.
Definition add32 (x y : Z) : Z := mask32 (x + y).
Definition not32 (x : Z) : Z := Z.lxor (mask32 x) 0xffffffff.
Definition rotl32 (x n : Z) : Z :=
  mask32 (Z.lor (Z.shiftl x n) (Z.shiftr (mask32 x) (32 - n))).

Definition shifts : list Z :=
  [ 7; 12; 17; 22; 7; 12; 17; 22; 7; 12; 17; 22; 7; 12; 17; 22;
    5; 9; 14; 20; 5; 9; 14; 20; 5; 9; 14; 20; 5; 9; 14; 20;
    4; 11; 16; 23; 4; 11; 16; 23; 4; 11; 16; 23; 4; 11; 16; 23;
    6; 10; 15; 21; 6; 10; 15; 21; 6; 10; 15; 21; 6; 10; 15; 21 ].

Definition K : list Z :=
  [ 0xd76aa478; 0xe8c7b756; 0x242070db; 0xc1bdceee;
    0xf57c0faf; 0x4787c62a; 0xa8304613; 0xfd469501;
    0x698098d8; 0x8b44f7af; 0xffff5bb1; 0x895cd7be;
    0x6b901122; 0xfd987193; 0xa679438e; 0x49b40821;
    0xf61e2562; 0xc040b340; 0x265e5a51; 0xe9b6c7aa;
    0xd62f105d; 0x02441453; 0xd8a1e681; 0xe7d3fbc8;
    0x21e1cde6; 0xc33707d6; 0xf4d50d87; 0x455a14ed;
    0xa9e3e905; 0xfcefa3f8; 0x676f02d9; 0x8d2a4c8a;
    0xfffa3942; 0x8771f681; 0x6d9d6122; 0xfde5380c;
    0xa4beea44; 0x4bdecfa9; 0xf6bb4b60; 0xbebfbc70;
    0x289b7ec6; 0xeaa127fa; 0xd4ef3085; 0x04881d05;
    0xd9d4d039; 0xe6db99e5; 0x1fa27cf8; 0xc4ac5665;
    0xf4292244; 0x432aff97; 0xab9423a7; 0xfc93a039;
    0x655b59c3; 0x8f0ccc92; 0xffeff47d; 0x85845dd1;
    0x6fa87e4f; 0xfe2ce6e0; 0xa3014314; 0x4e0811a1;
    0xf7537e82; 0xbd3af235; 0x2ad7d2bb; 0xeb86d391 ].

Definition digest : Type := Z * Z * Z * Z.

Definition init : digest := (0x67452301, 0xefcdab89, 0x98badcfe, 0x10325476).

(** Round [i] of the compression function on the sixteen words [M]. *)
Definition round (M : list Z) (st : digest) (i : nat) : digest :=
  let '(a, b, c, d) := st in
  let iz := Z.of_nat i in
  let '(f, g) :=
    if iz <? 16 then (Z.lor (Z.land b c) (Z.land (not32 b) d), iz)
    else if iz <? 32 then
      (Z.lor (Z.land d b) (Z.land (not32 d) c), (5 * iz + 1) mod 16)
    else if iz <? 48 then (Z.lxor b (Z.lxor c d), (3 * iz + 5) mod 16)
    else (Z.lxor c (Z.lor b (not32 d)), (7 * iz) mod 16) in
  let f' := add32 (add32 (add32 f a) (nth i K 0)) (nth (Z.to_nat g) M 0) in
  (d, add32 b (rotl32 f' (nth i shifts 0)), b, c).

Definition le32 (x : Z) : list Z :=
  [ x mod 256; (x / 256) mod 256; (x / 65536) mod 256; (x / 16777216) mod 256 ].

Definition le64 (x : Z) : list Z := le32 (x mod 4294967296) ++ le32 (x / 4294967296).

Fixpoint chunks (fuel n : nat) (l : list Z) : list (list Z) :=
  match fuel with
  | O => []
  | S fuel' =>
      match l with
      | [] => []
      | _ :: _ => firstn n l :: chunks fuel' n (skipn n l)
      end
  end.

Definition word (bs : list Z) : Z :=
  nth 0 bs 0 + 256 * nth 1 bs 0 + 65536 * nth 2 bs 0 + 16777216 * nth 3 bs 0.

Definition block (st : digest) (bytes : list Z) : digest :=
  let M := map word (chunks 16 4 bytes) in
  let '(a0, b0, c0, d0) := st in
  let '(a, b, c, d) := fold_left (round M) (seq 0 64) st in
  (add32 a0 a, add32 b0 b, add32 c0 c, add32 d0 d).

(** The message followed by [0x80], zero bytes up to 56 modulo 64, and the
    bit length on eight bytes. *)
Definition pad (msg : list Z) : list Z :=
  let n := Z.of_nat (length msg) in
  let zeros := Z.to_nat ((55 - n) mod 64) in
  msg ++ [128] ++ repeat 0 zeros ++ le64 (8 * n).

Definition bytesOf (s : string) : list Z :=
  map (fun c => Z.of_nat (nat_of_ascii c)) (list_ascii_of_string s).

(** [h := md5.New(); io.Copy(h, r); h.Sum(nil)] for a reader that yields
    [data]: the sixteen digest bytes. *)
Definition Sum (data : string) : list Z :=
  let padded := pad (bytesOf data) in
  let '(a, b, c, d) :=
    fold_left block (chunks (length padded) 64 padded) init in
  le32 a ++ le32 b ++ le32 c ++ le32 d.

End md5.

Module fmt.

Local Open Scope Z_scope.

Definition hexDigit (n : Z) : ascii :=
  nth (Z.to_nat (n mod 16)) (list_ascii_of_string "0123456789abcdef") "0"%char.

(** [fmt.Sprintf("%x", bytes)]: two lower-case hexadecimal digits per
    byte. *)
Fixpoint hex (bytes : list Z) : string :=
  match bytes with
  | [] => EmptyString
  | b :: bs => String (hexDigit (b / 16)) (String (hexDigit b) (hex bs))
  end.

End fmt.

(** ** Package [sort]

    [sort.Sort] is not stable and calls only [Less] and [Swap].  On short
    slices (up to six elements in every release of the package, up to
    twelve in the later ones) it is the insertion sort below: element [i]
    moves left while it is [Less] than its left neighbour.  Longer inputs
    go through a shell-sort pass or a quicksort first; the result is again
    a permutation in which no element is [Less] than an earlier one, and
    the properties proved about sorted output use only that. *)

Module sort.

Section Insertion.
Context {A : Type} (less : A -> A -> bool).

(** Move [x] left through the prefix sorted so far, held most recent
    first. *)
Fixpoint bubble (x : A) (prefix : list A) : list A :=
  match prefix with
  | [] => [x]
  | y :: prefix' =>
      if less x y then y :: bubble x prefix' else x :: prefix
  end.

Definition insertionSort (data : list A) : list A :=
  rev (fold_left (fun prefix x => bubble x prefix) data []).

Definition Sort (data : list A) : list A := insertionSort data.
End Insertion.

End sort.

(** ** Package [unicode/utf8]

    A string is decoded from the left.  A well-formed sequence of two to
    four bytes is one rune; any other byte is a rune of width one (the
    replacement character).  [range] over a string and [RuneCountInString]
    both advance this way. *)

Module utf8.

Definition inRange (lo hi : nat) (c : ascii) : bool :=
  let n := nat_of_ascii c in
  ((lo <=? n) && (n <=? hi))%nat.

(** A continuation byte, [0x80] to [0xBF]. *)
Definition isCont (c : ascii) : bool := inRange 128 191 c.

(** For a byte that leads a sequence of several bytes: the length of the
    sequence and the range its second byte must lie in.  [None] for an
    ASCII byte and for a byte that cannot lead. *)
Definition first (c : ascii) : option (nat * nat * nat) :=
  let n := nat_of_ascii c in
  (if n <? 194 then None
   else if n <=? 223 then Some (2, 128, 191)
   else if n =? 224 then Some (3, 160, 191)
   else if n <=? 236 then Some (3, 128, 191)
   else if n =? 237 then Some (3, 128, 159)
   else if n <=? 239 then Some (3, 128, 191)
   else if n =? 240 then Some (4, 144, 191)
   else if n <=? 243 then Some (4, 128, 191)
   else if n =? 244 then Some (4, 128, 143)
   else None)%nat.

(** The number of bytes of the rune at the head of a string. *)
Definition width (s : string) : nat :=
  match s with
  | EmptyString => 0
  | String c0 rest =>
      match first c0 with
      | None => 1
      | Some (size, lo, hi) =>
          if (String.length s <? size)%nat then 1
          else
            match rest with
            | String c1 rest1 =>
                if negb (inRange lo hi c1) then 1
                else if (size =? 2)%nat then 2
                else
                  match rest1 with
                  | String c2 rest2 =>
                      if negb (isCont c2) then 1
                      else if (size =? 3)%nat then 3
                      else
                        match rest2 with
                        | String c3 _ => if negb (isCont c3) then 1 else 4
                        | EmptyString => 1
                        end
                  | EmptyString => 1
                  end
            | EmptyString => 1
            end
      end
  end.

(** The byte offsets at which the runes of a string start.  [i] is the
    offset of the head of [s] and [skip] the number of bytes of the current
    rune still to pass. *)
Fixpoint starts (skip i : nat) (s : string) : list nat :=
  match s with
  | EmptyString => []
  | String _ rest =>
      match skip with
      | S k => starts k (S i) rest
      | O => i :: starts (width s - 1) (S i) rest
      end
  end.

(** The values of [i] in [for i := range s]. *)
Definition runeStarts (s : string) : list nat := starts 0 0 s.

Definition RuneCountInString (s : string) : nat := length (runeStarts s).

End utf8.

(** ** The operating system, as the program sees it *)

(** An opened file: [Stat] on the handle may fail, and reading it to the end
    yields its content or an error. *)
Record File := {
  statErr : option error;
  contents : result string
}.

(** One call [filepath.Walk] makes of the function it is given: the path,
    whether it is a directory, and the error met on the way to it. *)
Record WalkItem := {
  wPath : string;
  wIsDir : bool;
  wErr : option error
}.

Record World := {
  IsTerminal : bool;
  Getwd : result string;
  Open : string -> result File;
  (** the error [ioutil.WriteFile] returns for a path, if any *)
  WriteErr : string -> option error;
  (** the calls [filepath.Walk] makes for a root when no call stops it *)
  Walk : string -> list WalkItem;
  (** [os.Stat]: whether the path is a directory *)
  Stat : string -> result bool;
  (** the order in which the [n]-th [range] loop over a map yields the
      keys; Go leaves it unspecified *)
  rangeOrder : nat -> list string -> list string
}.

Definition ReadFile (w : World) (path : string) : result string :=
  match Open w path with
  | Err e => Err e
  | Ok f => contents f
  end.

(** [ioutil.WriteFile]: afterwards the path, as it was given, opens to a
    file with the data.  What another name of the same file shows, and
    what a later walk of its directory lists, is not described here: a
    property about a later state of the file system takes that state as
    given. *)
Definition WriteFile (w : World) (path data : string) : result World :=
  match WriteErr w path with
  | Some e => Err e
  | None =>
      Ok {| IsTerminal := IsTerminal w;
            Getwd := Getwd w;
            Open := fun p =>
              if String.eqb p path
              then Ok {| statErr := None; contents := Ok data |}
              else Open w p;
            WriteErr := WriteErr w;
            Walk := Walk w;
            Stat := fun p => if String.eqb p path then Ok false else Stat w p;
            rangeOrder := rangeOrder w |}
  end.

(** What the program prints.  [Colored] is a call of [printColored],
    [Header] a [fmt.Print(sprintfHeader(...))] with the formatted title;
    what reaches the terminal of them is described by [printColored] and
    [sprintfHeader] under Printing.  The progress display [generateMd5]
    draws on a terminal is not part of this record; it is described by
    [ProgressReader_Read]. *)
Inductive Color := FgRed | FgGreen.

Inductive Output :=
| Print (s : string)
| Colored (s : string) (clr : Color)
| Header (title : string)
| SubcommandHelp.

Definition nl : string := String strings.LF EmptyString.

(** ** Types *)

(** [int64] arithmetic wraps. *)
Definition wrap64 (z : Z) : Z :=
  ((z + 9223372036854775808) mod 18446744073709551616 - 9223372036854775808)%Z.

(** What a reader's [Read] returns besides the byte count: [nil], [io.EOF]
    or another error. *)
Inductive ReadErr :=
| EOF
| Failed (err : error).

(** The [ProgressReader] without its [Reader], whose results are handed to
    the model of [Read].  Times are nanoseconds; [lastDraw] is [None] while
    it is the zero time. *)
Record ProgressReader := {
  TotalBytes : Z;
  readBytes : Z;
  lastDraw : option Z
}.

(** What [Read] prints: the percentage, formatted from the two counts, or
    the blanks that clear it. *)
Inductive Drawn :=
| Percent (readBytes TotalBytes : Z)
| Clear.

Definition Millisecond : Z := 1000000.

(** [Read], given the result [(n, err)] of the underlying [Read], which it
    returns as it is: the new state and what is printed.  The clock is the
    sequence [now] of the readings [time.Now] returns, of which [tick] have
    been taken. *)
Definition ProgressReader_Read (now : nat -> Z) (st : ProgressReader * nat)
  (res : Z * option ReadErr) : ProgressReader * nat * option Drawn :=
  let '(r, tick) := st in
  let '(n, err) := res in
  let count := wrap64 (readBytes r + n) in
  let '(last, tick) :=
    match lastDraw r with
    | None => ((now tick + Millisecond * 250)%Z, S tick)
    | Some t => (t, tick)
    end in
  match err with
  | None =>
      if (last + Millisecond * 150 <? now tick)%Z then
        ({| TotalBytes := TotalBytes r; readBytes := count;
            lastDraw := Some (now (S tick)) |},
         S (S tick), Some (Percent count (TotalBytes r)))
      else
        ({| TotalBytes := TotalBytes r; readBytes := count;
            lastDraw := Some last |},
         S tick, None)
  | Some EOF =>
      ({| TotalBytes := TotalBytes r; readBytes := count;
          lastDraw := Some last |},
       tick, Some Clear)
  | Some (Failed _) =>
      ({| TotalBytes := TotalBytes r; readBytes := count;
          lastDraw := Some last |},
       tick, None)
  end.

(** The reads [io.Copy] makes, one per result of the underlying reader:
    the final state and, per read, what was printed and the time then
    recorded in [lastDraw]. *)
Fixpoint reads (now : nat -> Z) (st : ProgressReader * nat)
  (results : list (Z * option ReadErr))
  : ProgressReader * nat * list (option Drawn * option Z) :=
  match results with
  | [] => (st, [])
  | res :: rest =>
      let '(r, tick, drawn) := ProgressReader_Read now st res in
      let '(st', trace) := reads now (r, tick) rest in
      (st', (drawn, lastDraw r) :: trace)
  end.

Record Checksum := {
  Hash : string;
  Path : string
}.

Definition Checksums := list Checksum.

(** ** Functions *)

Definition generateMd5 (w : World) (path : string) : result string :=
  match Open w path with
  | Err err => Err err
  | Ok file =>
      if IsTerminal w then
        match statErr file with
        | Some err => Err err
        | None =>
            match contents file with
            | Err err => Err err
            | Ok data => Ok (fmt.hex (md5.Sum data))
            end
        end
      else
        match contents file with
        | Err err => Err err
        | Ok data => Ok (fmt.hex (md5.Sum data))
        end
  end.

Definition Checksum_Verify (w : World) (c : Checksum) : bool * option error :=
  match generateMd5 w (Path c) with
  | Err err => (false, Some err)
  | Ok newHash =>
      if String.eqb (Hash c) newHash then (true, None) else (false, None)
  end.

Definition Checksum_String (c : Checksum) : string :=
  Hash c +:+ " *" +:+ Path c.

(** The comparison [Checksums.Less] makes between two elements. *)
Definition lessEntry (x y : Checksum) : bool :=
  let aDir := strings.ToLower (filepath.Dir (Path x)) in
  let bDir := strings.ToLower (filepath.Dir (Path y)) in
  if String.eqb aDir bDir
  then strings.Less (strings.ToLower (Path x)) (strings.ToLower (Path y))
  else strings.Less aDir bDir.

Definition Checksums_Less (slice : Checksums) (a b : nat) : bool :=
  match slice !! a, slice !! b with
  | Some x, Some y => lessEntry x y
  | _, _ => false
  end.

Definition Checksums_Len (slice : Checksums) : nat := length slice.

(** [slice[a], slice[b] = slice[b], slice[a]]; an index out of range
    panics, which is the result [None]. *)
Definition Checksums_Swap (slice : Checksums) (a b : nat) : option Checksums :=
  match slice !! a, slice !! b with
  | Some x, Some y => Some (<[b := x]> (<[a := y]> slice))
  | _, _ => None
  end.

(** The pattern [^[0-9a-fA-F]{32} \*.*$]. *)
Definition isHex (c : ascii) : bool :=
  let n := nat_of_ascii c in
  (((48 <=? n) && (n <=? 57)) || ((97 <=? n) && (n <=? 102))
   || ((65 <=? n) && (n <=? 70)))%nat.

Definition isLowerHex (c : ascii) : bool :=
  let n := nat_of_ascii c in
  (((48 <=? n) && (n <=? 57)) || ((97 <=? n) && (n <=? 102)))%nat.

Fixpoint hexRun (n : nat) (s : string) : option string :=
  match n with
  | O => Some s
  | S n' =>
      match s with
      | EmptyString => None
      | String c s' => if isHex c then hexRun n' s' else None
      end
  end.

Definition MatchString (line : string) : bool :=
  match hexRun 32 line with
  | Some (String c1 (String c2 rest)) =>
      Ascii.eqb c1 " " && Ascii.eqb c2 "*"
      && negb (strings.Contains1 strings.LF rest)
  | _ => false
  end.

(** The lines of a manifest: CRLF is replaced by LF, then the text is split
    at every LF. *)
Definition manifestLines (data : string) : list string :=
  strings.SplitByte strings.LF
    (strings.ReplacePair strings.CR strings.LF nl data).

(** The body of the loop over the lines, which [readFile] and
    [readFileToMap] share word for word: the entry a line yields, if any. *)
Definition entryOfLine (dir line : string) : option Checksum :=
  if (String.length line <=? 0)%nat then None
  else if MatchString line then
    let split := strings.SplitPair " " "*" line in
    let p := nth 1 split EmptyString in
    let p := if negb (filepath.IsAbs p) then filepath.Join dir p else p in
    Some {| Hash := nth 0 split EmptyString; Path := p |}
  else None.

Definition readFile (w : World) (path : string) : result Checksums :=
  match ReadFile w path with
  | Err err => Err err
  | Ok data =>
      let dir := filepath.Dir path in
      Ok (fold_left
            (fun sums line =>
               match entryOfLine dir line with
               | Some c => sums ++ [c]
               | None => sums
               end)
            (manifestLines data) [])
  end.

Definition readFileToMap (w : World) (path : string)
  : result (gmap string Checksum) :=
  match ReadFile w path with
  | Err err => Err err
  | Ok data =>
      let dir := filepath.Dir path in
      Ok (fold_left
            (fun checksumMap line =>
               match entryOfLine dir line with
               | Some c => <[Path c := c]> checksumMap
               | None => checksumMap
               end)
            (manifestLines data) ∅)
  end.

(** The path written for an entry: relative to the manifest's directory,
    or absolute when [Rel] fails. *)
Definition relPathOf (w : World) (dir path : string) : result string :=
  match filepath.Rel dir path with
  | Ok relPath => Ok relPath
  | Err _ => filepath.Abs (Getwd w) path
  end.

Fixpoint writeEntries (w : World) (dir : string) (sums : Checksums)
  (output : string) : result string :=
  match sums with
  | [] => Ok output
  | sum :: rest =>
      match relPathOf w dir (Path sum) with
      | Err err => Err err
      | Ok relPath =>
          writeEntries w dir rest
            (output +:+ Hash sum +:+ " *" +:+ relPath +:+ nl)
      end
  end.

(** The bytes [writeFile] hands to [ioutil.WriteFile]. *)
Definition serialize (w : World) (sums : Checksums) (path : string)
  : result string :=
  writeEntries w (filepath.Dir path) (sort.Sort lessEntry sums) EmptyString.

Definition writeFile (w : World) (sums : Checksums) (path : string)
  : result World :=
  match serialize w sums path with
  | Err err => Err err
  | Ok output => WriteFile w path output
  end.

(** *** Calls of [generateMd5] made by a command

    A command may stop at the first failing call.  The computations below
    thread the log of the paths handed to [generateMd5], so that what a
    command digests can be stated; the log is kept on failure too. *)

Definition Hashing (A : Type) : Type := list string -> result A * list string.

Definition ret {A} (a : A) : Hashing A := fun log => (Ok a, log).

Definition lift {A} (r : result A) : Hashing A := fun log => (r, log).

Definition bind {A B} (m : Hashing A) (k : A -> Hashing B) : Hashing B :=
  fun log =>
    match m log with
    | (Ok a, log') => k a log'
    | (Err e, log') => (Err e, log')
    end.

Notation "x <- m ;; k" := (bind m (fun x => k))
  (at level 100, m at next level, right associativity).

Definition hashing (w : World) (path : string) : Hashing string :=
  fun log => (generateMd5 w path, log ++ [path]).

(** A loop that returns from the enclosing function on the first error. *)
Fixpoint forEach {A S} (body : S -> A -> Hashing S) (items : list A) (s : S)
  : Hashing S :=
  match items with
  | [] => ret s
  | x :: rest => s' <- body s x ;; forEach body rest s'
  end.

(** The keys and the values a [range] loop over a map yields. *)
Definition rangeKeys {V} (w : World) (loop : nat) (m : gmap string V)
  : list string :=
  rangeOrder w loop (map fst (map_to_list m)).

Definition rangeValues {V} (w : World) (loop : nat) (m : gmap string V)
  : list V :=
  omap (fun key => m !! key) (rangeKeys w loop m).

Definition verifyEntry (w : World) (path : string)
  (st : list Output * bool) (c : Checksum) : list Output * bool :=
  let '(out, hasErrors) := st in
  let '(isValid, err) := Checksum_Verify w c in
  if negb isValid then
    let out :=
      if negb hasErrors
      then out ++ [Colored (" ER: " +:+ path +:+ nl) FgRed]
      else out in
    let out :=
      match err with
      | Some _ => out ++ [Colored ("   Error: " +:+ Path c +:+ nl) FgRed]
      | None => out ++ [Colored ("   Invalid: " +:+ Path c +:+ nl) FgRed]
      end in
    (out, true)
  else (out, hasErrors).

(** [verifyFile] prints its report; every entry of the manifest is handed
    to [Verify], hence to [generateMd5]. *)
Definition verifyFile (w : World) (path : string) : list Output * list string :=
  match readFile w path with
  | Err err => ([Colored (" Error: " +:+ err +:+ nl) FgRed], [])
  | Ok sums =>
      let '(out, hasErrors) := fold_left (verifyEntry w path) sums ([], false) in
      (if negb hasErrors
       then out ++ [Colored (" OK: " +:+ path +:+ nl) FgGreen]
       else out,
       map Path sums)
  end.

(** ** Printing

    The two globals [IsTerminal] and [TermWidth] are set once, before a
    command runs; [TermWidth] is passed along below.  Lengths are Go's
    [int], here integers without bound: [maxLength - 1] is Go's as long as
    [maxLength] is above the least [int], which depends on the platform
    and is at most [-2^31]. *)

(** The three bytes of the horizontal ellipsis, U+2026. *)
Definition ellipsis : string :=
  String "226"%char (String "128"%char (String "166"%char EmptyString)).

(** The loop of [ellipsize] over the rune offsets still to visit. *)
Fixpoint ellipsizeLoop (s : string) (maxLength index : Z) (offsets : list nat)
  : string :=
  match offsets with
  | [] => s
  | runeIndex :: rest =>
      let index := (index + 1)%Z in
      if (index >? maxLength - 1)%Z then substring 0 runeIndex s +:+ ellipsis
      else ellipsizeLoop s maxLength index rest
  end.

Definition ellipsize (s : string) (maxLength : Z) : string :=
  if (Z.of_nat (utf8.RuneCountInString s) >? maxLength)%Z
  then ellipsizeLoop s maxLength 0 (utf8.runeStarts s)
  else s.

(** What [printColored] hands to the output stream: the text as it is, or
    a text wrapped by the colour library. *)
Inductive Printed :=
| Plain (s : string)
| InColor (clr : Color) (s : string).

Definition printColored (w : World) (TermWidth : Z) (s : string) (clr : Color)
  : Printed :=
  if negb (IsTerminal w) then Plain s
  else
    let lines := strings.SplitByte strings.LF s in
    let lines := map (fun line => ellipsize line (TermWidth - 1)) lines in
    InColor clr (strings.Join lines nl).

(** [sprintfHeader] applied to the formatted title; [None] when
    [strings.Repeat] panics. *)
Definition sprintfHeader (TermWidth : Z) (formatted : string) : option string :=
  let title := ellipsize formatted (TermWidth - 2) in
  match strings.Repeat "-" (TermWidth - 2) with
  | None => None
  | Some rule => Some (nl +:+ " " +:+ title +:+ nl +:+ " " +:+ rule +:+ nl)
  end.

(** ** Commands

    The commands from the point where the header has been printed; that
    the header itself can panic is part of [generic] below. *)

(** The part of [cli.Context] the commands read: the positional arguments
    and the boolean flags given on the command line. *)
Record Context := {
  Args : list string;
  Flags : list string
}.

Definition Context_Bool (ctx : Context) (name : string) : bool :=
  existsb (String.eqb name) (Flags ctx).

(** How a command ends: what it printed, what it digested, the status the
    process exits with ([os.Exit(1)], or 0 after the action returns [nil])
    and the file system it leaves. *)
Record Outcome := {
  stdout : list Output;
  hashed : list string;
  exitCode : nat;
  world : World
}.

Definition incorrectUsage (w : World) : Outcome :=
  {| stdout := [Print ("Incorrect Usage." +:+ nl +:+ nl); SubcommandHelp];
     hashed := []; exitCode := 0; world := w |}.

Definition fatal (w : World) (out : list Output) (log : list string)
  (err : error) : Outcome :=
  {| stdout := out ++ [Colored (" Error: " +:+ err +:+ nl +:+ nl) FgRed];
     hashed := log; exitCode := 1; world := w |}.

(** The test that keeps the manifest itself out of the scan: [Ok true] when
    the walked path is the manifest. *)
Definition isManifest (w : World) (path manifest : string) : result bool :=
  if strings.HasSuffix path (filepath.Base manifest) then
    match filepath.Abs (Getwd w) path with
    | Err err => Err err
    | Ok pathAbs =>
        match filepath.Abs (Getwd w) manifest with
        | Err err => Err err
        | Ok manifestAbs => Ok (String.eqb pathAbs manifestAbs)
        end
    end
  else Ok false.

Definition newVisit (w : World) (output : string) (sums : Checksums)
  (it : WalkItem) : Hashing Checksums :=
  match wErr it with
  | Some err => lift (Err err)
  | None =>
      if wIsDir it then ret sums
      else
        skip <- lift (isManifest w (wPath it) output) ;;
        if skip : bool then ret sums
        else
          hash <- hashing w (wPath it) ;;
          ret (sums ++ [{| Hash := hash; Path := wPath it |}])
  end.

(** The walk of [newCommand] over the source directory. *)
Definition scanAndHash (w : World) (source output : string)
  : result Checksums * list string :=
  forEach (newVisit w output) (Walk w source) [] [].

Definition newCommand (w : World) (ctx : Context) : Outcome :=
  match Args ctx with
  | source :: output :: _ =>
      let out := [Header ("Hashing: " +:+ source)] in
      match scanAndHash w source output with
      | (Err err, log) => fatal w out log err
      | (Ok sums, log) =>
          match writeFile w sums output with
          | Err err => fatal w out log err
          | Ok w' =>
              {| stdout := out ++ [Colored (" Wrote: " +:+ output +:+ nl +:+ nl) FgGreen];
                 hashed := log; exitCode := 0; world := w' |}
          end
      end
  | _ => incorrectUsage w
  end.

Definition updateVisit (w : World) (target : string)
  (sourceMap : gmap string bool) (it : WalkItem)
  : Hashing (gmap string bool) :=
  match wErr it with
  | Some err => lift (Err err)
  | None =>
      if wIsDir it then ret sourceMap
      else
        skip <- lift (isManifest w (wPath it) target) ;;
        if skip : bool then ret sourceMap
        else ret (<[wPath it := true]> sourceMap)
  end.

(** The walk of [updateCommand] over the source directory; it digests
    nothing. *)
Definition scanSource (w : World) (source target : string)
  : result (gmap string bool) * list string :=
  forEach (updateVisit w target) (Walk w source) ∅ [].

(** Remove old checksums from the target map. *)
Definition deleteMissing (w : World) (sourceMap : gmap string bool)
  (targetMap : gmap string Checksum) : gmap string Checksum :=
  fold_left
    (fun targetMap key =>
       match sourceMap !! key with
       | Some _ => targetMap
       | None => delete key targetMap
       end)
    (rangeKeys w 0 targetMap) targetMap.

(** Insert new checksums in the target map: the body of the loop, then the
    loop over the scanned paths. *)
Definition insertBody (w : World) (targetMap : gmap string Checksum)
  (key : string) : Hashing (gmap string Checksum) :=
  match targetMap !! key with
  | Some _ => ret targetMap
  | None =>
      hash <- hashing w key ;;
      ret (<[key := {| Hash := hash; Path := key |}]> targetMap)
  end.

Definition insertNew (w : World) (sourceMap : gmap string bool)
  (targetMap : gmap string Checksum) : Hashing (gmap string Checksum) :=
  forEach (insertBody w) (rangeKeys w 1 sourceMap) targetMap.

(** The reconciliation of [updateCommand]: from the scanned paths and the
    loaded manifest to the map that is written. *)
Definition reconcile (w : World) (deleteFlag : bool)
  (sourceMap : gmap string bool) (targetMap : gmap string Checksum)
  : Hashing (gmap string Checksum) :=
  insertNew w sourceMap
    (if deleteFlag then deleteMissing w sourceMap targetMap else targetMap).

Definition updateCommand (w : World) (ctx : Context) : Outcome :=
  match Args ctx with
  | source :: target :: _ =>
      let out := [Header ("Updating: " +:+ target)] in
      match scanSource w source target with
      | (Err err, log) => fatal w out log err
      | (Ok sourceMap, log) =>
          match readFileToMap w target with
          | Err err => fatal w out log err
          | Ok targetMap =>
              match reconcile w (Context_Bool ctx "delete") sourceMap targetMap log with
              | (Err err, log) => fatal w out log err
              | (Ok targetMap, log) =>
                  let targetSlice := rangeValues w 2 targetMap in
                  match writeFile w targetSlice target with
                  | Err err => fatal w out log err
                  | Ok w' =>
                      {| stdout := out ++ [Colored (" Updated: " +:+ target +:+ nl +:+ nl) FgGreen];
                         hashed := log; exitCode := 0; world := w' |}
                  end
              end
          end
      end
  | _ => incorrectUsage w
  end.

(** The function [verifyCommand] hands to [filepath.Walk]; it never stops
    the walk. *)
Definition verifyVisit (w : World) (it : WalkItem)
  : list Output * list string :=
  match wErr it with
  | Some err => ([Colored (" Error: " +:+ err +:+ nl) FgRed], [])
  | None =>
      if strings.HasSuffix (wPath it) ".md5" && negb (wIsDir it)
      then verifyFile w (wPath it)
      else ([], [])
  end.

(** [verifyCommand] reads no flag: [ctx.Bool] is not called. *)
Definition verifyCommand (w : World) (ctx : Context) : Outcome :=
  match Args ctx with
  | [] => incorrectUsage w
  | path :: _ =>
      let out := [Header ("Veryfing: " +:+ path)] in
      match Stat w path with
      | Err err => fatal w out [] err
      | Ok isDir =>
          let reports :=
            if isDir : bool then map (verifyVisit w) (Walk w path)
            else [verifyFile w path] in
          {| stdout := out ++ concat (map fst reports) ++ [Print nl];
             hashed := concat (map snd reports);
             exitCode := 0; world := w |}
      end
  end.

(** ** Entry point *)

(** [app.Before]: the values of [IsTerminal] and [TermWidth] when a command
    starts, from whether standard output is a terminal and what
    [terminal.GetSize] returns for it. *)
Definition Before (isTerminal : bool) (getSize : result (Z * Z)) : bool * Z :=
  if isTerminal then
    match getSize with
    | Ok (width, _) => (true, width)
    | Err _ => (false, 80%Z)
    end
  else (false, 80%Z).

(** ** The commands as they run

    A command prints its header before anything else, and [sprintfHeader]
    panics when [TermWidth] is below 2: the process then ends with status
    2 and nothing of the command has happened.  The definitions under
    Commands describe a command from the header on.  They are also
    written over this file's models of two library functions:
    [strings.ToLower], modelled for ASCII strings, and [sort.Sort],
    modelled by the insertion sort.

    The definitions below make neither restriction.  [TermWidth] is the
    global the header reads; [ToLower] stands for [strings.ToLower] and
    [Sort] for [sort.Sort] on a slice with the given [Less], and the
    definitions assume nothing of either. *)

(** How a run of a command ends: by a panic, or in an outcome. *)
Inductive Run :=
| Panics
| Ends (o : Outcome).

(** The status the process exits with; a panic that nothing recovers ends
    it with status 2. *)
Definition exitStatus (r : Run) : nat :=
  match r with
  | Panics => 2
  | Ends o => exitCode o
  end.

Module generic.

Section Libraries.
Variable ToLower : string -> string.
Variable Sort : (Checksum -> Checksum -> bool) -> Checksums -> Checksums.
Variable TermWidth : Z.

(** The comparison [Checksums.Less] makes between two elements. *)
Definition lessEntry (x y : Checksum) : bool :=
  let aDir := ToLower (filepath.Dir (Path x)) in
  let bDir := ToLower (filepath.Dir (Path y)) in
  if String.eqb aDir bDir
  then strings.Less (ToLower (Path x)) (ToLower (Path y))
  else strings.Less aDir bDir.

(** The bytes [writeFile] hands to [ioutil.WriteFile]. *)
Definition serialize (w : World) (sums : Checksums) (path : string)
  : result string :=
  writeEntries w (filepath.Dir path) (Sort lessEntry sums) EmptyString.

Definition writeFile (w : World) (sums : Checksums) (path : string)
  : result World :=
  match serialize w sums path with
  | Err err => Err err
  | Ok output => WriteFile w path output
  end.

Definition newCommand (w : World) (ctx : Context) : Run :=
  match Args ctx with
  | source :: output :: _ =>
      match sprintfHeader TermWidth ("Hashing: " +:+ source) with
      | None => Panics
      | Some _ =>
          let out := [Header ("Hashing: " +:+ source)] in
          match scanAndHash w source output with
          | (Err err, log) => Ends (fatal w out log err)
          | (Ok sums, log) =>
              match writeFile w sums output with
              | Err err => Ends (fatal w out log err)
              | Ok w' =>
                  Ends {| stdout := out ++ [Colored (" Wrote: " +:+ output +:+ nl +:+ nl) FgGreen];
                          hashed := log; exitCode := 0; world := w' |}
              end
          end
      end
  | _ => Ends (incorrectUsage w)
  end.

Definition updateCommand (w : World) (ctx : Context) : Run :=
  match Args ctx with
  | source :: target :: _ =>
      match sprintfHeader TermWidth ("Updating: " +:+ target) with
      | None => Panics
      | Some _ =>
          let out := [Header ("Updating: " +:+ target)] in
          match scanSource w source target with
          | (Err err, log) => Ends (fatal w out log err)
          | (Ok sourceMap, log) =>
              match readFileToMap w target with
              | Err err => Ends (fatal w out log err)
              | Ok targetMap =>
                  match reconcile w (Context_Bool ctx "delete") sourceMap targetMap log with
                  | (Err err, log) => Ends (fatal w out log err)
                  | (Ok targetMap, log) =>
                      let targetSlice := rangeValues w 2 targetMap in
                      match writeFile w targetSlice target with
                      | Err err => Ends (fatal w out log err)
                      | Ok w' =>
                          Ends {| stdout := out ++ [Colored (" Updated: " +:+ target +:+ nl +:+ nl) FgGreen];
                                  hashed := log; exitCode := 0; world := w' |}
                      end
                  end
              end
          end
      end
  | _ => Ends (incorrectUsage w)
  end.

Definition verifyCommand (w : World) (ctx : Context) : Run :=
  match Args ctx with
  | [] => Ends (incorrectUsage w)
  | path :: _ =>
      match sprintfHeader TermWidth ("Veryfing: " +:+ path) with
      | None => Panics
      | Some _ =>
          let out := [Header ("Veryfing: " +:+ path)] in
          match Stat w path with
          | Err err => Ends (fatal w out [] err)
          | Ok isDir =>
              let reports :=
                if isDir : bool then map (verifyVisit w) (Walk w path)
                else [verifyFile w path] in
              Ends {| stdout := out ++ concat (map fst reports) ++ [Print nl];
                      hashed := concat (map snd reports);
                      exitCode := 0; world := w |}
          end
      end
  end.

End Libraries.

End generic.

(** ** Vocabulary of the specification *)

(** The input of the digest: what opening the file, asking its size when
    the progress display is on, and reading it to the end produce. *)
Definition readAttempt (w : World) (path : string) : result string :=
  match Open w path with
  | Err err => Err err
  | Ok file =>
      match (if IsTerminal w then statErr file else None) with
      | Some err => Err err
      | None => contents file
      end
  end.

(** The three outcomes of verifying an entry, read off the pair [Verify]
    returns the way [verifyFile] does. *)
Inductive Class :=
| ClassOK
| Mismatched
| Unreadable (err : error).

Definition classify (w : World) (c : Checksum) : Class :=
  match Checksum_Verify w c with
  | (true, _) => ClassOK
  | (false, Some err) => Unreadable err
  | (false, None) => Mismatched
  end.

Definition isClassOK (cl : Class) : bool :=
  match cl with ClassOK => true | _ => false end.

(** The line of the report for an entry. *)
Definition reportLine (c : Checksum) (cl : Class) : list Output :=
  match cl with
  | ClassOK => []
  | Unreadable _ => [Colored ("   Error: " +:+ Path c +:+ nl) FgRed]
  | Mismatched => [Colored ("   Invalid: " +:+ Path c +:+ nl) FgRed]
  end.

(** The manifests [verify path] is to check: the file itself, or the
    [.md5] files of the walk. *)
Definition manifestsOf (w : World) (path : string) : list string :=
  match Stat w path with
  | Err _ => []
  | Ok false => [path]
  | Ok true =>
      map wPath
        (List.filter
           (fun it => bool_decide (wErr it = None)
                      && strings.HasSuffix (wPath it) ".md5"
                      && negb (wIsDir it))
           (Walk w path))
  end.

(** The entry [update] creates for a scanned path. *)
Definition freshEntry (w : World) (key : string) : option Checksum :=
  match generateMd5 w key with
  | Ok hash => Some {| Hash := hash; Path := key |}
  | Err _ => None
  end.

(** A scanned path that is not a key of the target map. *)
Definition isNew (targetMap : gmap string Checksum) (key : string) : bool :=
  bool_decide (targetMap !! key = None).

(** The text of a manifest with the given hashes and written paths. *)
Definition entryLine (hash relPath : string) : string :=
  hash +:+ " *" +:+ relPath +:+ nl.

Fixpoint manifestText (entries : list (string * string)) : string :=
  match entries with
  | [] => EmptyString
  | (hash, relPath) :: rest => entryLine hash relPath +:+ manifestText rest
  end.

(** A path element that names a file or directory: not empty, not [.],
    not [..], without separator. *)
Definition isName (e : string) : bool :=
  negb (String.eqb e "") && negb (String.eqb e ".")
  && negb (String.eqb e "..")
  && negb (strings.Contains1 filepath.Separator e).

(** The text of a cleaned path with the given elements. *)
Definition render (rooted : bool) (elems : list string) : string :=
  if rooted then "/" +:+ strings.Join elems "/"
  else match elems with
       | [] => "."
       | _ :: _ => strings.Join elems "/"
       end.

(** The elements of a cleaned path: names, after a run of [..] when the
    path is relative. *)
Definition cleanForm (rooted : bool) (elems : list string) : Prop :=
  exists k names,
    elems = repeat ".." k ++ names
    /\ Forall (fun e => isName e = true) names
    /\ (rooted = true -> k = 0).

(** The stack of [Clean]'s scan, most recent element first. *)
Definition cleanStack (rooted : bool) (out : list string) : Prop :=
  exists k names,
    out = names ++ repeat ".." k
    /\ Forall (fun e => isName e = true) names
    /\ (rooted = true -> k = 0).

(** An element of a cleaned path is not empty, is not [.] and holds no
    separator. *)
Definition isElem (e : string) : Prop :=
  e <> "" /\ e <> "." /\ strings.Contains1 filepath.Separator e = false.

(** The elements [Rel] walks in a cleaned target, where [.] is an
    element. *)
Definition targElems (rooted : bool) (elems : list string) : list string :=
  if rooted then elems
  else match elems with [] => ["."] | _ :: _ => elems end.

(** The number of [..] elements a path starts with. *)
Fixpoint leadingDots (elems : list string) : nat :=
  match elems with
  | e :: rest => if String.eqb e ".." then S (leadingDots rest) else 0
  | [] => 0
  end.

Definition climbs (path : string) : nat :=
  leadingDots (strings.SplitByte filepath.Separator path).

(** The shape of what [Rel] returns for a cleaned target with the given
    elements: [.], or some [..] followed by a suffix of the target's
    elements. *)
Definition relShape (rooted : bool) (ts : list string) (rel : string) : Prop :=
  rel = "."
  \/ exists n cs ts',
       targElems rooted ts = cs ++ ts'
       /\ repeat ".." n ++ ts' <> []
       /\ rel = strings.Join (repeat ".." n ++ ts') "/".

(** [x] is not after [y] in the order [sort.Sort] is given. *)
Definition notAfter {A : Type} (less : A -> A -> bool) (x y : A) : Prop :=
  less y x = false.

(** A hash as the manifest format has it: 32 hexadecimal characters. *)
Fixpoint allBytes (f : ascii -> bool) (s : string) : bool :=
  match s with
  | EmptyString => true
  | String c s' => f c && allBytes f s'
  end.

Definition isHash (s : string) : bool :=
  (String.length s =? 32)%nat && allBytes isHex s.

Definition isLowerHash (s : string) : bool :=
  (String.length s =? 32)%nat && allBytes isLowerHex s.

(** The two fields the parser takes from a valid line, and the resolution
    of the path field against the manifest's directory. *)
Definition recordedHash (line : string) : string :=
  nth 0 (strings.SplitPair " " "*" line) EmptyString.

Definition recordedPath (line : string) : string :=
  nth 1 (strings.SplitPair " " "*" line) EmptyString.

Definition resolve (dir p : string) : string :=
  if filepath.IsAbs p then p else filepath.Join dir p.

(** A line as the parser sees it: the carriage return before the line feed
    is gone. *)
Fixpoint chompCR (s : string) : string :=
  match s with
  | EmptyString => EmptyString
  | String c s' =>
      if Ascii.eqb c strings.CR && String.eqb s' "" then EmptyString
      else String c (chompCR s')
  end.

(** [writeFile] succeeds and leaves the world [w']. *)
Definition writes (w w' : World) (sums : Checksums) (path : string) : Prop :=
  writeFile w sums path = Ok w'.

(** An entry and the path written for it, when the line written for them
    parses back to the entry. *)
Definition writtenBack (dir : string) (c : Checksum) (rel : string) : Prop :=
  isHash (Hash c) = true
  /\ strings.Contains1 strings.LF rel = false
  /\ strings.Contains2 " " "*" rel = false
  /\ chompCR rel = rel
  /\ resolve dir rel = Path c.

(** The entries of a manifest text, in line order. *)
Definition entriesOf (dir data : string) : Checksums :=
  omap (entryOfLine dir) (manifestLines data).

(** The map [updateCommand] writes, entry by entry. *)
Definition reconciled (w : World) (deleteFlag : bool)
  (sourceMap : gmap string bool) (targetMap : gmap string Checksum)
  (k : string) : option Checksum :=
  match targetMap !! k with
  | Some c =>
      if deleteFlag && bool_decide (sourceMap !! k = None) then None
      else Some c
  | None =>
      match sourceMap !! k with
      | Some _ => freshEntry w k
      | None => None
      end
  end.

(** The map iteration orders are orders of the keys. *)
Definition rangeOrderOK (w : World) : Prop :=
  forall loop keys, rangeOrder w loop keys ≡ₚ keys.

(** A string that does not start with a continuation byte. *)
Definition leads (t : string) : Prop :=
  match t with
  | EmptyString => True
  | String c _ => utf8.isCont c = false
  end.

(** The lower-cased directory of an entry, the first key of the order. *)
Definition lowerDir (ToLower : string -> string) (c : Checksum) : string :=
  ToLower (filepath.Dir (Path c)).

(** A walked item a scan keeps: it carries no error, is no directory and
    is not the manifest. *)
Definition kept (w : World) (manifest : string) (it : WalkItem) : bool :=
  match wErr it, wIsDir it, isManifest w (wPath it) manifest with
  | None, false, Ok false => true
  | _, _, _ => false
  end.

(** The error a scan stops with at an item, if any; [digest] tells whether
    the scan digests the files it keeps. *)
Definition visitError (w : World) (manifest : string) (digest : bool)
  (it : WalkItem) : option error :=
  match wErr it with
  | Some err => Some err
  | None =>
      if wIsDir it then None
      else
        match isManifest w (wPath it) manifest with
        | Err err => Some err
        | Ok true => None
        | Ok false =>
            if digest then
              match generateMd5 w (wPath it) with
              | Err err => Some err
              | Ok _ => None
              end
            else None
        end
  end.

(** The paths a scan keeps. *)
Definition keptPaths (w : World) (manifest : string) (items : list WalkItem)
  : list string :=
  map wPath (List.filter (kept w manifest) items).

(** A path the manifest format carries unchanged from [dir]. *)
Definition portable (dir p : string) : Prop :=
  filepath.Clean p = p
  /\ strings.Contains1 strings.LF p = false
  /\ strings.Contains2 " " "*" p = false
  /\ chompCR p = p
  /\ (filepath.IsAbs p = true
      \/ (filepath.IsAbs dir = false /\ climbs dir <= climbs p)).

(** The times recorded when a percentage was drawn. *)
Definition drawTimes (trace : list (option Drawn * option Z)) : list Z :=
  omap (fun e => match e with
                 | (Some (Percent _ _), Some t) => Some t
                 | _ => None
                 end) trace.

(** What the program relies on when it calls [sort.Sort] on a slice whose
    [Less] is [less]: the slice then holds the same elements, and none of
    them is [Less] than an earlier one. *)
Definition sorts (less : Checksum -> Checksum -> bool)
  (Sort : (Checksum -> Checksum -> bool) -> Checksums -> Checksums) : Prop :=
  forall data,
    Sort less data ≡ₚ data /\ Sorted (notAfter less) (Sort less data).

(** A walk made again once the manifest may have come to exist: the calls
    are those made [before], with at most one more, for a file whose path
    has the absolute form of the manifest's. *)
Definition walkedAgain (w : World) (manifest : string)
  (before after : list WalkItem) : Prop :=
  after = before
  \/ exists pre post p A,
       before = pre ++ post
       /\ after = pre ++ {| wPath := p; wIsDir := false; wErr := None |} :: post
       /\ isName (filepath.afterLastSep p) = true
       /\ isName (filepath.afterLastSep manifest) = true
       /\ filepath.Abs (Getwd w) p = Ok A
       /\ filepath.Abs (Getwd w) manifest = Ok A.

(** ** Worlds for the examples *)

Definition plainFile (data : string) : File :=
  {| statErr := None; contents := Ok data |}.

(** A disk holding the given files, walked as listed, with working
    directory [/home/u] and maps ranged in key order. *)
Definition disk (files : list (string * string)) (dirs : list string)
  (walk : string -> list WalkItem) : World :=
  {| IsTerminal := false;
     Getwd := Ok "/home/u";
     Open := fun p =>
       match find (fun kv => String.eqb (fst kv) p) files with
       | Some kv => Ok (plainFile (snd kv))
       | None => Err ("open " +:+ p +:+ ": no such file or directory")
       end;
     WriteErr := fun _ => None;
     Walk := walk;
     Stat := fun p =>
       if existsb (String.eqb p) dirs then Ok true
       else if existsb (fun kv => String.eqb (fst kv) p) files then Ok false
       else Err ("stat " +:+ p +:+ ": no such file or directory");
     rangeOrder := fun _ keys => keys |}.

Definition fileItem (p : string) : WalkItem :=
  {| wPath := p; wIsDir := false; wErr := None |}.

Definition dirItem (p : string) : WalkItem :=
  {| wPath := p; wIsDir := true; wErr := None |}.

(** The world after the file at [path] is deleted. *)
Definition remove (w : World) (path : string) : World :=
  {| IsTerminal := IsTerminal w;
     Getwd := Getwd w;
     Open := fun p =>
       if String.eqb p path
       then Err ("open " +:+ p +:+ ": no such file or directory")
       else Open w p;
     WriteErr := WriteErr w;
     Walk := Walk w;
     Stat := fun p =>
       if String.eqb p path
       then Err ("stat " +:+ p +:+ ": no such file or directory")
       else Stat w p;
     rangeOrder := rangeOrder w |}.

(** A directory [src] holding [a.txt] with content [x] and [b.txt] with
    content [y]. *)
Definition twoFiles : World :=
  disk [ ("src/a.txt", "x"); ("src/b.txt", "y") ] ["src"]
    (fun root =>
       if String.eqb root "src"
       then [dirItem "src"; fileItem "src/a.txt"; fileItem "src/b.txt"]
       else []).

(** The directory [src] of [twoFiles] once it also holds the manifest
    [sums.md5] with the given content. *)
Definition twoFilesAndManifest (data : string) : World :=
  disk [ ("src/a.txt", "x"); ("src/b.txt", "y"); ("src/sums.md5", data) ] ["src"]
    (fun root =>
       if String.eqb root "src"
       then [dirItem "src"; fileItem "src/a.txt"; fileItem "src/b.txt";
             fileItem "src/sums.md5"]
       else []).

(** A directory [src] with a file and a subdirectory that cannot be read:
    the walk reports the error at the subdirectory. *)
Definition unreadableDirectory : World :=
  disk [ ("src/a.txt", "x") ] ["src"; "src/sub"]
    (fun root =>
       if String.eqb root "src"
       then [dirItem "src"; fileItem "src/a.txt";
             {| wPath := "src/sub"; wIsDir := true;
                wErr := Some "open src/sub: permission denied" |}]
       else []).

(** A manifest in [/d] naming [a.txt] (content [x], as recorded), [b.txt]
    (recorded with content [y], now altered) and [c.txt] (deleted). *)
Definition driftedDisk : World :=
  disk
    [ ("/d/sums.md5",
       "9dd4e461268c8034f5c8564e155c67a6 *a.txt" +:+ nl
       +:+ "415290769594460e2e485922904f345d *b.txt" +:+ nl
       +:+ "900150983cd24fb0d6963f7d28e17f72 *c.txt" +:+ nl);
      ("/d/a.txt", "x");
      ("/d/b.txt", "altered") ]
    ["/d"]
    (fun root =>
       if String.eqb root "/d"
       then [dirItem "/d"; fileItem "/d/a.txt"; fileItem "/d/b.txt";
             fileItem "/d/sums.md5"]
       else []).

(** A source directory [src] with [a.txt], [c.txt] and [d.txt], and its
    manifest recording [a.txt] (since altered), [b.txt] (since deleted) and
    [c.txt]. *)
Definition updateDisk : World :=
  disk
    [ ("src/sums.md5",
       "9dd4e461268c8034f5c8564e155c67a6 *a.txt" +:+ nl
       +:+ "415290769594460e2e485922904f345d *b.txt" +:+ nl
       +:+ "900150983cd24fb0d6963f7d28e17f72 *c.txt" +:+ nl);
      ("src/a.txt", "altered");
      ("src/c.txt", "abc");
      ("src/d.txt", "a") ]
    ["src"]
    (fun root =>
       if String.eqb root "src"
       then [dirItem "src"; fileItem "src/a.txt"; fileItem "src/c.txt";
             fileItem "src/d.txt"; fileItem "src/sums.md5"]
       else []).

(** A source directory whose only file has a name in two lines, the second
    of them shaped like a manifest entry. *)
Definition twoLineName : string :=
  "src/a" +:+ nl +:+ "00000000000000000000000000000000 *b".

Definition lineFeedDisk : World :=
  disk [ (twoLineName, "x") ] ["src"]
    (fun root =>
       if String.eqb root "src" then [dirItem "src"; fileItem twoLineName]
       else []).

(** * Properties *)

(** ** The helper packages on examples *)

Example Clean_examples :
  Forall (fun io => filepath.Clean io.1 = io.2)
    [ ("abc", "abc"); ("abc/def", "abc/def"); (".", "."); ("..", "..");
      ("../..", "../.."); ("../../abc", "../../abc"); ("/abc", "/abc");
      ("/", "/"); ("", "."); ("abc/", "abc"); ("abc/def/", "abc/def");
      ("./", "."); ("../", ".."); ("../../", "../.."); ("/abc/", "/abc");
      ("abc//def//ghi", "abc/def/ghi"); ("//abc", "/abc"); ("///abc", "/abc");
      ("//abc//", "/abc"); ("abc//", "abc"); ("abc/./def", "abc/def");
      ("/./abc/def", "/abc/def"); ("abc/.", "abc");
      ("abc/def/ghi/../jkl", "abc/def/jkl"); ("abc/def/../ghi/../jkl", "abc/jkl");
      ("abc/def/..", "abc"); ("abc/def/../..", "."); ("/abc/def/../..", "/");
      ("abc/def/../../..", ".."); ("/abc/def/../../..", "/");
      ("abc/def/../../../ghi/jkl/../../../mno", "../../mno");
      ("/../abc", "/abc"); ("abc/./../def", "def"); ("abc//./../def", "def");
      ("abc/../../././../def", "../../def") ].
Proof. repeat constructor. Qed.
Example Dir_ex1 : filepath.Dir "/foo/bar/baz.js" = "/foo/bar". Proof. reflexivity. Qed.
Example Dir_ex2 : filepath.Dir "sums.md5" = ".". Proof. reflexivity. Qed.
Example Dir_ex3 : filepath.Dir "/sums.md5" = "/". Proof. reflexivity. Qed.
Example Dir_ex4 : filepath.Dir "a/b/" = "a/b". Proof. reflexivity. Qed.
Example Base_ex1 : filepath.Base "/foo/bar/baz.js" = "baz.js". Proof. reflexivity. Qed.
Example Base_ex2 : filepath.Base "/foo/bar/" = "bar". Proof. reflexivity. Qed.
Example Base_ex3 : filepath.Base "///" = "/". Proof. reflexivity. Qed.
Example Base_ex4 : filepath.Base "dev.txt" = "dev.txt". Proof. reflexivity. Qed.
Example Rel_examples :
  Forall (fun bto => filepath.Rel bto.1.1 bto.1.2 = Ok bto.2)
    [ ("a/b", "a/b", "."); ("a/b/.", "a/b", "."); ("a/b", "a/b/.", ".");
      ("./a/b", "a/b", "."); ("a/b", "./a/b", "."); ("ab/cd", "ab/cde", "../cde");
      ("ab/cd", "ab/c", "../c"); ("a/b", "a/b/c/d", "c/d");
      ("a/b", "a/b/../c", "../c"); ("a/b/../c", "a/b", "../b");
      ("a/b/c", "a/c/d", "../../c/d"); ("a/b", "c/d", "../../c/d");
      ("a/b/c/d", "a/b", "../.."); ("a/b/c/d", "a/b/", "../..");
      ("a/b/c/d/", "a/b", "../.."); ("../../a/b", "../../a/b/c/d", "c/d");
      ("/a/b", "/a/b", "."); ("/ab/cd", "/ab/cde", "../cde");
      ("/a/b/c", "/a/c/d", "../../c/d"); ("/a/b", "/c/d", "../../c/d");
      ("/../../a/b", "/../../a/b/c/d", "c/d"); (".", "a/b", "a/b");
      (".", "..", ".."); ("/", "/a", "a"); ("/a", "/", "..") ].
Proof. repeat constructor. Qed.

Example Rel_errors :
  Forall (fun bt => isOk (filepath.Rel bt.1 bt.2) = false)
    [ ("..", "."); ("..", "a"); ("a", "/a"); ("/a", "a") ].
Proof. repeat constructor. Qed.
Example Split_ex1 : strings.SplitPair " " "*" "h *a *b" = ["h"; "a"; "b"]. Proof. reflexivity. Qed.
Example Split_ex2 : strings.SplitByte "/" "/a//b" = [""; "a"; ""; "b"]. Proof. reflexivity. Qed.
Example md5_empty : fmt.hex (md5.Sum "") = "d41d8cd98f00b204e9800998ecf8427e".
Proof. vm_compute. reflexivity. Qed.
Example md5_a : fmt.hex (md5.Sum "a") = "0cc175b9c0f1b6a831c399e269772661".
Proof. vm_compute. reflexivity. Qed.
Example md5_abc : fmt.hex (md5.Sum "abc") = "900150983cd24fb0d6963f7d28e17f72".
Proof. vm_compute. reflexivity. Qed.
Example md5_x : fmt.hex (md5.Sum "x") = "9dd4e461268c8034f5c8564e155c67a6".
Proof. vm_compute. reflexivity. Qed.
Example md5_two_blocks :
  fmt.hex (md5.Sum "aaaaaaaaaaaaaaaaaaaaaaaaaaaaaaaaaaaaaaaaaaaaaaaaaaaaaaaaaaaaaaaa")
  = "014842d480b571495a4a0363793f7367".
Proof. vm_compute. reflexivity. Qed.
Example md5_56 :
  fmt.hex (md5.Sum "aaaaaaaaaaaaaaaaaaaaaaaaaaaaaaaaaaaaaaaaaaaaaaaaaaaaaaaa")
  = "3b0c8ac703f828b04c6c197006d17218".
Proof. vm_compute. reflexivity. Qed.

(** ** The commands as they run *)

(** The functions over the models of the libraries are instances of the
    generic ones. *)
Lemma lessEntry_instance x y :
  lessEntry x y = generic.lessEntry strings.ToLower x y.
Proof. reflexivity. Qed.

Lemma serialize_instance w sums path :
  serialize w sums path
  = generic.serialize strings.ToLower (@sort.Sort Checksum) w sums path.
Proof. reflexivity. Qed.

Lemma writeFile_instance w sums path :
  writeFile w sums path
  = generic.writeFile strings.ToLower (@sort.Sort Checksum) w sums path.
Proof. reflexivity. Qed.

(** The header panics exactly below two columns. *)
Lemma sprintfHeader_panics TermWidth formatted :
  (TermWidth < 2)%Z -> sprintfHeader TermWidth formatted = None.
Proof.
  intros H. unfold sprintfHeader, strings.Repeat.
  destruct (Z.ltb_spec (TermWidth - 2) 0); [reflexivity|lia].
Qed.

Lemma sprintfHeader_prints TermWidth formatted :
  (2 <= TermWidth)%Z ->
  exists text, sprintfHeader TermWidth formatted = Some text.
Proof.
  intros H. unfold sprintfHeader, strings.Repeat.
  destruct (Z.ltb_spec (TermWidth - 2) 0); [lia|]. eexists. reflexivity.
Qed.

Lemma sprintfHeader_printed TermWidth formatted text :
  sprintfHeader TermWidth formatted = Some text -> (2 <= TermWidth)%Z.
Proof.
  intros H. destruct (Z.lt_ge_cases TermWidth 2) as [Hlt|Hge]; [|exact Hge].
  rewrite (sprintfHeader_panics _ formatted Hlt) in H. discriminate.
Qed.

(** Once the header is out, the runs over the models of the libraries are
    the commands as defined under Commands. *)
Lemma newCommand_instance TermWidth w ctx :
  (2 <= TermWidth)%Z ->
  generic.newCommand strings.ToLower (@sort.Sort Checksum) TermWidth w ctx
  = Ends (newCommand w ctx).
Proof.
  intros H. unfold generic.newCommand, newCommand.
  destruct (Args ctx) as [|source [|output rest]]; try reflexivity.
  destruct (sprintfHeader_prints TermWidth ("Hashing: " +:+ source) H) as [t ->].
  destruct (scanAndHash w source output) as [[sums|err] log]; [|reflexivity].
  rewrite <- writeFile_instance.
  destruct (writeFile w sums output); reflexivity.
Qed.

Lemma updateCommand_instance TermWidth w ctx :
  (2 <= TermWidth)%Z ->
  generic.updateCommand strings.ToLower (@sort.Sort Checksum) TermWidth w ctx
  = Ends (updateCommand w ctx).
Proof.
  intros H. unfold generic.updateCommand, updateCommand.
  destruct (Args ctx) as [|source [|target rest]]; try reflexivity.
  destruct (sprintfHeader_prints TermWidth ("Updating: " +:+ target) H) as [t ->].
  destruct (scanSource w source target) as [[sourceMap|err] log]; [|reflexivity].
  destruct (readFileToMap w target) as [targetMap|err]; [|reflexivity].
  destruct (reconcile w _ sourceMap targetMap log) as [[finalMap|err] log'];
    [|reflexivity].
  rewrite <- writeFile_instance.
  destruct (writeFile w _ target); reflexivity.
Qed.

Lemma verifyCommand_instance TermWidth w ctx :
  (2 <= TermWidth)%Z ->
  generic.verifyCommand TermWidth w ctx = Ends (verifyCommand w ctx).
Proof.
  intros H. unfold generic.verifyCommand, verifyCommand.
  destruct (Args ctx) as [|path rest]; [reflexivity|].
  destruct (sprintfHeader_prints TermWidth ("Veryfing: " +:+ path) H) as [t ->].
  destruct (Stat w path); reflexivity.
Qed.

(** On a terminal narrower than two columns a command with its arguments
    panics at the header. *)
Lemma verifyCommand_narrow TermWidth w ctx path rest :
  Args ctx = path :: rest -> (TermWidth < 2)%Z ->
  generic.verifyCommand TermWidth w ctx = Panics.
Proof.
  intros Hargs H. unfold generic.verifyCommand.
  rewrite Hargs, (sprintfHeader_panics _ _ H). reflexivity.
Qed.

(** ** Verification *)

Lemma generateMd5_readAttempt w path :
  generateMd5 w path =
  match readAttempt w path with
  | Err err => Err err
  | Ok data => Ok (fmt.hex (md5.Sum data))
  end.
Proof.
  unfold generateMd5, readAttempt.
  destruct (Open w path) as [file|err]; [|reflexivity].
  destruct (IsTerminal w); [destruct (statErr file)|]; reflexivity.
Qed.

Lemma classify_readAttempt w c :
  classify w c =
  match readAttempt w (Path c) with
  | Err err => Unreadable err
  | Ok data =>
      if String.eqb (Hash c) (fmt.hex (md5.Sum data)) then ClassOK
      else Mismatched
  end.
Proof.
  unfold classify, Checksum_Verify. rewrite generateMd5_readAttempt.
  destruct (readAttempt w (Path c)) as [data|err]; [|reflexivity].
  destruct (String.eqb _ _); reflexivity.
Qed.

Lemma verifyEntry_classify w path out hasErrors c :
  verifyEntry w path (out, hasErrors) c =
  (out
     ++ (if isClassOK (classify w c) || hasErrors then []
         else [Colored (" ER: " +:+ path +:+ nl) FgRed])
     ++ reportLine c (classify w c),
   hasErrors || negb (isClassOK (classify w c))).
Proof.
  unfold verifyEntry, classify.
  destruct (Checksum_Verify w c) as [[|] [err|]]; simpl;
    destruct hasErrors; simpl; rewrite <- ?app_assoc, ?app_nil_r; reflexivity.
Qed.

Lemma verifyEntries_report w path sums : forall out hasErrors,
  fold_left (verifyEntry w path) sums (out, hasErrors) =
  (out
     ++ (if forallb (fun c => isClassOK (classify w c)) sums || hasErrors
         then []
         else [Colored (" ER: " +:+ path +:+ nl) FgRed])
     ++ flat_map (fun c => reportLine c (classify w c)) sums,
   hasErrors || negb (forallb (fun c => isClassOK (classify w c)) sums)).
Proof.
  induction sums as [|c sums IH]; intros out hasErrors.
  - simpl. rewrite app_nil_r, orb_false_r. reflexivity.
  - cbn [fold_left]. rewrite verifyEntry_classify, IH. cbn [forallb flat_map].
    destruct (classify w c); cbn [isClassOK reportLine]; destruct hasErrors;
      destruct (forallb _ sums); simpl; rewrite <- ?app_assoc; simpl;
      rewrite ?app_nil_r; reflexivity.
Qed.

Lemma reportLines_all_ok w sums :
  forallb (fun c => isClassOK (classify w c)) sums = true ->
  flat_map (fun c => reportLine c (classify w c)) sums = [].
Proof.
  induction sums as [|c sums IH]; [reflexivity|].
  simpl. intros [Hc Hs]%andb_true_iff.
  destruct (classify w c); try discriminate. simpl. auto.
Qed.

Lemma verifyFile_report w path sums :
  readFile w path = Ok sums ->
  verifyFile w path =
  (if forallb (fun c => isClassOK (classify w c)) sums
   then [Colored (" OK: " +:+ path +:+ nl) FgGreen]
   else Colored (" ER: " +:+ path +:+ nl) FgRed
        :: flat_map (fun c => reportLine c (classify w c)) sums,
   map Path sums).
Proof.
  intros Hread. unfold verifyFile. rewrite Hread, verifyEntries_report.
  simpl. rewrite orb_false_r.
  destruct (forallb _ sums) eqn:Hall; simpl; [|reflexivity].
  rewrite (reportLines_all_ok _ _ Hall). reflexivity.
Qed.

Lemma reportLine_in w c :
  classify w c <> ClassOK ->
  exists line, reportLine c (classify w c) = [line].
Proof. destruct (classify w c); [congruence|eexists; reflexivity..]. Qed.

Lemma verifyFile_covers w path sums c :
  readFile w path = Ok sums -> In c sums ->
  In (Path c) (snd (verifyFile w path))
  /\ (classify w c <> ClassOK ->
      forall line, reportLine c (classify w c) = [line] ->
      In line (fst (verifyFile w path))).
Proof.
  intros Hread Hc. rewrite (verifyFile_report _ _ _ Hread). simpl. split.
  - apply in_map. exact Hc.
  - intros Hno line Hline.
    destruct (forallb _ sums) eqn:Hall.
    + rewrite forallb_forall in Hall. specialize (Hall c Hc).
      destruct (classify w c); [congruence|discriminate..].
    + right. apply in_flat_map. exists c. split; [exact Hc|].
      rewrite Hline. left. reflexivity.
Qed.

Lemma manifestsOf_dir w path manifest :
  Stat w path = Ok true -> In manifest (manifestsOf w path) ->
  exists it, In it (Walk w path)
             /\ verifyVisit w it = verifyFile w manifest.
Proof.
  unfold manifestsOf. intros ->. rewrite in_map_iff.
  intros (it & <- & Hit). apply filter_In in Hit as [Hin Hcond].
  apply andb_true_iff in Hcond as [Hcond Hdir].
  apply andb_true_iff in Hcond as [Herr Hsuf].
  apply bool_decide_eq_true in Herr.
  exists it. split; [exact Hin|].
  unfold verifyVisit. rewrite Herr, Hsuf, Hdir. reflexivity.
Qed.

(** C5. Verifying one manifest: an entry is Unreadable exactly when opening
    or reading its file fails, and then carries that error; Mismatched
    exactly when the file is read and its fresh digest differs from the
    recorded hash; OK exactly when the file is read and the digest is the
    recorded one.  The manifest is reported OK exactly when every entry is
    OK; otherwise the report is the [ER] header followed by one line per
    non-OK entry, in manifest order, each naming the entry's path. *)
Theorem verifyFile_classifies w path sums :
  readFile w path = Ok sums ->
  (forall c err,
      classify w c = Unreadable err <-> readAttempt w (Path c) = Err err)
  /\ (forall c,
         classify w c = Mismatched <->
         exists data, readAttempt w (Path c) = Ok data
                      /\ fmt.hex (md5.Sum data) <> Hash c)
  /\ (forall c,
         classify w c = ClassOK <->
         exists data, readAttempt w (Path c) = Ok data
                      /\ fmt.hex (md5.Sum data) = Hash c)
  /\ (In (Colored (" OK: " +:+ path +:+ nl) FgGreen) (fst (verifyFile w path))
      <-> Forall (fun c => classify w c = ClassOK) sums)
  /\ fst (verifyFile w path) =
     (if forallb (fun c => isClassOK (classify w c)) sums
      then [Colored (" OK: " +:+ path +:+ nl) FgGreen]
      else Colored (" ER: " +:+ path +:+ nl) FgRed
           :: flat_map (fun c => reportLine c (classify w c)) sums).
Proof.
  intros Hread. repeat split.
  - rewrite classify_readAttempt.
    destruct (readAttempt w (Path c)) as [data|e];
      [destruct (String.eqb _ _); discriminate|congruence].
  - rewrite classify_readAttempt. intros ->. reflexivity.
  - rewrite classify_readAttempt.
    destruct (readAttempt w (Path c)) as [data|e]; [|discriminate].
    destruct (String.eqb_spec (Hash c) (fmt.hex (md5.Sum data)));
      [discriminate|]. intros _. exists data. split; congruence.
  - rewrite classify_readAttempt. intros (data & -> & Hne).
    destruct (String.eqb_spec (Hash c) (fmt.hex (md5.Sum data)));
      congruence.
  - rewrite classify_readAttempt.
    destruct (readAttempt w (Path c)) as [data|e]; [|discriminate].
    destruct (String.eqb_spec (Hash c) (fmt.hex (md5.Sum data)));
      [|discriminate]. intros _. exists data. split; congruence.
  - rewrite classify_readAttempt. intros (data & -> & Heq).
    destruct (String.eqb_spec (Hash c) (fmt.hex (md5.Sum data)));
      congruence.
  - rewrite (verifyFile_report _ _ _ Hread). simpl.
    destruct (forallb _ sums) eqn:Hall.
    + intros _. rewrite forallb_forall in Hall. apply List.Forall_forall.
      intros c Hc. specialize (Hall c Hc).
      destruct (classify w c); [reflexivity|discriminate..].
    + intros [Hhd|Hin]; [discriminate|].
      apply in_flat_map in Hin as (c & _ & Hin).
      destruct (classify w c); simpl in Hin;
        [contradiction|destruct Hin as [Hin|[]]; discriminate..].
  - rewrite (verifyFile_report _ _ _ Hread). simpl.
    intros Hall. destruct (forallb _ sums) eqn:Hb; [left; reflexivity|].
    exfalso. apply not_true_iff_false in Hb. apply Hb.
    apply forallb_forall. intros c Hc.
    rewrite List.Forall_forall in Hall. rewrite (Hall c Hc). reflexivity.
  - rewrite (verifyFile_report _ _ _ Hread). reflexivity.
Qed.

Lemma verifyFile_classifies_witness :
  readFile driftedDisk "/d/sums.md5"
  = Ok [ {| Hash := "9dd4e461268c8034f5c8564e155c67a6"; Path := "/d/a.txt" |};
         {| Hash := "415290769594460e2e485922904f345d"; Path := "/d/b.txt" |};
         {| Hash := "900150983cd24fb0d6963f7d28e17f72"; Path := "/d/c.txt" |} ]
  /\ fst (verifyFile driftedDisk "/d/sums.md5")
     = [ Colored (" ER: /d/sums.md5" +:+ nl) FgRed;
         Colored ("   Invalid: /d/b.txt" +:+ nl) FgRed;
         Colored ("   Error: /d/c.txt" +:+ nl) FgRed ].
Proof.
  split; [reflexivity|].
  rewrite (proj2 (proj2 (proj2 (proj2
    (verifyFile_classifies driftedDisk "/d/sums.md5" _ eq_refl))))).
  vm_compute. reflexivity.
Defined.

(** C1, as the code has it.  [verify --basic] on a manifest whose file
    [b.txt] exists and opens: every entry is still digested and [b.txt],
    whose content changed, is reported as failing. *)
Example verify_basic_still_hashes :
  let ctx := {| Args := ["/d/sums.md5"]; Flags := ["basic"] |} in
  Context_Bool ctx "basic" = true
  /\ isOk (Open driftedDisk "/d/b.txt") = true
  /\ hashed (verifyCommand driftedDisk ctx) = ["/d/a.txt"; "/d/b.txt"; "/d/c.txt"]
  /\ In (Colored ("   Invalid: /d/b.txt" +:+ nl) FgRed)
        (stdout (verifyCommand driftedDisk ctx)).
Proof. vm_compute. intuition. Qed.

(** The flags never reach [verifyCommand]'s result. *)
Lemma verifyCommand_ignores_flags w args flags flags' :
  verifyCommand w {| Args := args; Flags := flags |}
  = verifyCommand w {| Args := args; Flags := flags' |}.
Proof. reflexivity. Qed.

(** C2, as stated, fails: an entry classifies Mismatched and the command
    still exits with status 0. *)
Lemma verify_exit_zero_despite_mismatch :
  exists sums c,
    readFile driftedDisk "/d/sums.md5" = Ok sums
    /\ In c sums
    /\ classify driftedDisk c = Mismatched
    /\ exitCode (verifyCommand driftedDisk
                   {| Args := ["/d/sums.md5"]; Flags := [] |}) = 0.
Proof.
  eexists. exists {| Hash := "415290769594460e2e485922904f345d"; Path := "/d/b.txt" |}.
  split; [reflexivity|]. split; [right; left; reflexivity|].
  split; vm_compute; reflexivity.
Qed.

(** What [verify] covers once the header is out. *)
Lemma verifyCommand_covers w ctx path rest :
  Args ctx = path :: rest ->
  exitCode (verifyCommand w ctx) = (if isOk (Stat w path) then 0 else 1)
  /\ forall manifest sums c,
       In manifest (manifestsOf w path) ->
       readFile w manifest = Ok sums ->
       In c sums ->
       In (Path c) (hashed (verifyCommand w ctx))
       /\ (classify w c <> ClassOK ->
           exists line, reportLine c (classify w c) = [line]
                        /\ In line (stdout (verifyCommand w ctx))).
Proof.
  intros Hargs. unfold verifyCommand. rewrite Hargs.
  destruct (Stat w path) as [isDir|err] eqn:Hstat; simpl.
  2:{ split; [reflexivity|]. unfold manifestsOf. rewrite Hstat.
      intros ? ? ? []. }
  split; [reflexivity|].
  intros manifest sums c Hman Hread Hc.
  destruct (verifyFile_covers _ _ _ _ Hread Hc) as [Hlog Hline].
  assert (Hrep : In (verifyFile w manifest)
                    (if isDir then map (verifyVisit w) (Walk w path)
                     else [verifyFile w path])).
  { destruct isDir.
    - destruct (manifestsOf_dir _ _ _ Hstat Hman) as (it & Hit & Heq).
      rewrite <- Heq. apply in_map. exact Hit.
    - unfold manifestsOf in Hman. rewrite Hstat in Hman.
      destruct Hman as [->|[]]. left. reflexivity. }
  split.
  - apply in_concat. exists (snd (verifyFile w manifest)).
    split; [|exact Hlog]. apply in_map. exact Hrep.
  - intros Hno. destruct (reportLine_in _ _ Hno) as [line Hl].
    exists line. split; [exact Hl|].
    right. apply in_or_app. left.
    apply in_concat. exists (fst (verifyFile w manifest)).
    split; [apply in_map; exact Hrep|]. apply Hline; assumption.
Qed.

(** C2, amended.  The exit status does not depend on the classifications:
    it is 2 when [TermWidth] is below 2, where [verify] panics at the
    header before it has looked at the path, and otherwise 0 when
    [os.Stat] on the path succeeds and 1 when it fails.  When the header
    is printed, a non-OK entry aborts nothing: every entry of every
    manifest to verify is digested and every non-OK entry gets its report
    line. *)
Theorem verifyCommand_exit_status TermWidth w ctx path rest :
  Args ctx = path :: rest ->
  exitStatus (generic.verifyCommand TermWidth w ctx)
  = (if (TermWidth <? 2)%Z then 2 else if isOk (Stat w path) then 0 else 1)
  /\ ((TermWidth < 2)%Z -> generic.verifyCommand TermWidth w ctx = Panics)
  /\ ((2 <= TermWidth)%Z ->
      exists o,
        generic.verifyCommand TermWidth w ctx = Ends o
        /\ exitCode o = (if isOk (Stat w path) then 0 else 1)
        /\ forall manifest sums c,
             In manifest (manifestsOf w path) ->
             readFile w manifest = Ok sums ->
             In c sums ->
             In (Path c) (hashed o)
             /\ (classify w c <> ClassOK ->
                 exists line, reportLine c (classify w c) = [line]
                              /\ In line (stdout o))).
Proof.
  intros Hargs. split; [|split].
  - destruct (Z.ltb_spec TermWidth 2) as [Hnarrow|Hwide].
    + rewrite (verifyCommand_narrow _ _ _ _ _ Hargs Hnarrow). reflexivity.
    + rewrite (verifyCommand_instance _ _ _ Hwide).
      apply verifyCommand_covers with (1 := Hargs).
  - apply verifyCommand_narrow with (1 := Hargs).
  - intros Hwide. exists (verifyCommand w ctx).
    split; [apply verifyCommand_instance, Hwide|].
    apply verifyCommand_covers with (1 := Hargs).
Qed.

Lemma verifyCommand_exit_status_witness :
  exists o,
    generic.verifyCommand 80 driftedDisk {| Args := ["/d"]; Flags := [] |} = Ends o
    /\ exitCode o = 0
    /\ In "/d/c.txt" (hashed o).
Proof.
  destruct (proj2 (proj2 (verifyCommand_exit_status 80 driftedDisk
                            {| Args := ["/d"]; Flags := [] |} "/d" [] eq_refl)))
    as (o & Hrun & He & Hm); [lia|].
  exists o. split; [exact Hrun|]. split; [exact He|].
  refine (proj1 (Hm "/d/sums.md5" _
     {| Hash := "900150983cd24fb0d6963f7d28e17f72"; Path := "/d/c.txt" |}
     _ eq_refl _)).
  - vm_compute. left. reflexivity.
  - right. right. left. reflexivity.
Defined.

(** The scenario of the specification: [new] writes a manifest with two
    sorted entries; after [a.txt] is deleted, [verify] reports it as
    unreadable and does not report the manifest as OK. *)
Example new_then_verify :
  let created := newCommand twoFiles {| Args := ["src"; "sums.md5"]; Flags := [] |} in
  let later := remove (world created) "src/a.txt" in
  ReadFile (world created) "sums.md5"
  = Ok ("9dd4e461268c8034f5c8564e155c67a6 *src/a.txt" +:+ nl
        +:+ "415290769594460e2e485922904f345d *src/b.txt" +:+ nl)
  /\ stdout (verifyCommand later {| Args := ["sums.md5"]; Flags := [] |})
     = [ Header "Veryfing: sums.md5";
         Colored (" ER: sums.md5" +:+ nl) FgRed;
         Colored ("   Error: src/a.txt" +:+ nl) FgRed;
         Print nl ].
Proof. vm_compute. auto. Qed.

(** [Less] on a slice compares the two elements at the given indices. *)
Lemma Checksums_Less_entries slice a b x y :
  slice !! a = Some x -> slice !! b = Some y ->
  Checksums_Less slice a b = lessEntry x y.
Proof. intros Ha Hb. unfold Checksums_Less. rewrite Ha, Hb. reflexivity. Qed.

(** ** Reconciliation *)

Lemma rangeKeys_elem {V} w loop (m : gmap string V) k :
  rangeOrderOK w -> k ∈ rangeKeys w loop m <-> is_Some (m !! k).
Proof.
  intros Hw. unfold rangeKeys. rewrite (Hw loop _).
  rewrite list_elem_of_fmap. split.
  - intros ([k' v] & -> & Hin). apply elem_of_map_to_list in Hin. eauto.
  - intros [v Hv]. exists (k, v). split; [reflexivity|].
    apply elem_of_map_to_list. exact Hv.
Qed.

Lemma rangeKeys_NoDup {V} w loop (m : gmap string V) :
  rangeOrderOK w -> NoDup (rangeKeys w loop m).
Proof.
  intros Hw. unfold rangeKeys. rewrite (Hw loop _).
  apply NoDup_fst_map_to_list.
Qed.

Lemma deleteLoop_lookup (sourceMap : gmap string bool) (keys : list string) :
  forall (targetMap : gmap string Checksum) (k : string),
    fold_left
      (fun targetMap key =>
         match sourceMap !! key with
         | Some _ => targetMap
         | None => delete key targetMap
         end) keys targetMap !! k
    = if bool_decide (k ∈ keys /\ sourceMap !! k = None) then None
      else targetMap !! k.
Proof.
  induction keys as [|key keys IH]; intros targetMap k; cbn [fold_left].
  - rewrite bool_decide_eq_false_2; [reflexivity|].
    intros [H _]. inversion H.
  - rewrite IH. destruct (decide (k = key)) as [->|Hne].
    + destruct (sourceMap !! key) eqn:Hs.
      * rewrite !bool_decide_eq_false_2 by (intros [_ ?]; discriminate).
        reflexivity.
      * rewrite lookup_delete_eq.
        rewrite (bool_decide_eq_true_2 (key ∈ key :: keys /\ _))
          by (split; [left|reflexivity]).
        destruct (bool_decide _); reflexivity.
    + assert (Hl : (match sourceMap !! key with
                    | Some _ => targetMap
                    | None => delete key targetMap
                    end) !! k = targetMap !! k).
      { destruct (sourceMap !! key); [reflexivity|].
        apply lookup_delete_ne. congruence. }
      rewrite Hl.
      rewrite (bool_decide_ext (k ∈ keys /\ sourceMap !! k = None)
                 (k ∈ key :: keys /\ sourceMap !! k = None));
        [reflexivity|].
      rewrite elem_of_cons. tauto.
Qed.

Lemma deleteMissing_lookup w (sourceMap : gmap string bool)
  (targetMap : gmap string Checksum) (k : string) :
  rangeOrderOK w ->
  deleteMissing w sourceMap targetMap !! k
  = match sourceMap !! k with
    | Some _ => targetMap !! k
    | None => None
    end.
Proof.
  intros Hw. unfold deleteMissing. rewrite deleteLoop_lookup.
  case_bool_decide as H.
  - destruct H as [_ ->]. reflexivity.
  - destruct (sourceMap !! k) eqn:Hs; [reflexivity|].
    destruct (targetMap !! k) eqn:Ht; [|reflexivity].
    exfalso. apply H. split; [|reflexivity].
    apply rangeKeys_elem; eauto.
Qed.

Lemma filter_isNew_insert (targetMap : gmap string Checksum) key c keys :
  key ∉ keys ->
  List.filter (isNew (<[key := c]> targetMap)) keys
  = List.filter (isNew targetMap) keys.
Proof.
  intros Hnot. apply filter_ext_in_iff. intros k Hk.
  unfold isNew. rewrite lookup_insert_ne; [reflexivity|].
  intros ->. apply Hnot. apply list_elem_of_In. exact Hk.
Qed.

Lemma forEach_cons {A S} (body : S -> A -> Hashing S) x rest s log :
  forEach body (x :: rest) s log
  = match body s x log with
    | (Ok s', log') => forEach body rest s' log'
    | (Err e, log') => (Err e, log')
    end.
Proof. reflexivity. Qed.

Lemma insertBody_old w (targetMap : gmap string Checksum) key c log :
  targetMap !! key = Some c ->
  insertBody w targetMap key log = (Ok targetMap, log).
Proof. intros H. unfold insertBody. rewrite H. reflexivity. Qed.

Lemma insertBody_new w (targetMap : gmap string Checksum) key log :
  targetMap !! key = None ->
  insertBody w targetMap key log
  = match generateMd5 w key with
    | Ok hash =>
        (Ok (<[key := {| Hash := hash; Path := key |}]> targetMap),
         log ++ [key])
    | Err e => (Err e, log ++ [key])
    end.
Proof.
  intros H. unfold insertBody. rewrite H. unfold bind, hashing, ret.
  destruct (generateMd5 w key); reflexivity.
Qed.

Lemma insertLoop_spec w keys :
  NoDup keys ->
  forall (targetMap : gmap string Checksum) log,
    exists hs,
      snd (forEach (insertBody w) keys targetMap log) = log ++ hs
      /\ hs `prefix_of` List.filter (isNew targetMap) keys
      /\ forall targetMap',
           fst (forEach (insertBody w) keys targetMap log) = Ok targetMap' ->
           hs = List.filter (isNew targetMap) keys
           /\ (forall k, k ∈ keys -> targetMap !! k = None ->
                         isOk (generateMd5 w k) = true)
           /\ forall k,
                targetMap' !! k
                = match targetMap !! k with
                  | Some c => Some c
                  | None => if bool_decide (k ∈ keys) then freshEntry w k
                            else None
                  end.
Proof.
  intros Hnd. induction Hnd as [|key keys Hnot Hnd IH]; intros targetMap log.
  - exists []. simpl. rewrite app_nil_r. split; [reflexivity|].
    split; [reflexivity|]. intros tm' [= <-]. split; [reflexivity|].
    split; [intros k Hk; inversion Hk|].
    intros k. destruct (targetMap !! k); reflexivity.
  - rewrite forEach_cons.
    destruct (targetMap !! key) as [c|] eqn:Hkey.
    + rewrite (insertBody_old _ _ _ _ _ Hkey).
      destruct (IH targetMap log) as (hs & Hlog & Hpre & Hok).
      exists hs. split; [exact Hlog|].
      assert (Hf : List.filter (isNew targetMap) (key :: keys)
                   = List.filter (isNew targetMap) keys).
      { cbn [List.filter]. unfold isNew at 1. rewrite Hkey.
        rewrite bool_decide_eq_false_2; [reflexivity|discriminate]. }
      rewrite Hf. split; [exact Hpre|].
      intros tm' Htm'. destruct (Hok tm' Htm') as (Hhs & Hall & Hlook).
      split; [exact Hhs|]. split.
      * intros k Hk Hnone. apply elem_of_cons in Hk as [->|Hk];
          [congruence|auto].
      * intros k. rewrite Hlook. destruct (targetMap !! k) eqn:Hk;
          [reflexivity|].
        assert (k <> key) by congruence.
        rewrite (bool_decide_ext (k ∈ keys) (k ∈ key :: keys));
          [reflexivity|].
        rewrite elem_of_cons. tauto.
    + assert (Hf : List.filter (isNew targetMap) (key :: keys)
                   = key :: List.filter (isNew targetMap) keys).
      { cbn [List.filter]. unfold isNew at 1. rewrite Hkey.
        rewrite bool_decide_eq_true_2; reflexivity. }
      rewrite Hf, (insertBody_new _ _ _ _ Hkey).
      destruct (generateMd5 w key) as [hash|err] eqn:Hgen.
      * set (tm1 := <[key := {| Hash := hash; Path := key |}]> targetMap).
        destruct (IH tm1 (log ++ [key])) as (hs & Hlog & Hpre & Hok).
        exists (key :: hs). split.
        { rewrite Hlog, <- app_assoc. reflexivity. }
        unfold tm1 in Hpre, Hok.
        rewrite filter_isNew_insert in Hpre, Hok by exact Hnot.
        split; [apply prefix_cons; exact Hpre|].
        intros tm' Htm'. destruct (Hok tm' Htm') as (Hhs & Hall & Hlook).
        split; [congruence|]. split.
        { intros k Hk Hnone. apply elem_of_cons in Hk as [->|Hk].
          - rewrite Hgen. reflexivity.
          - apply Hall; [exact Hk|]. rewrite lookup_insert_ne; [exact Hnone|].
            intros ->. contradiction. }
        intros k. rewrite Hlook. destruct (decide (k = key)) as [->|Hne].
        { rewrite lookup_insert_eq, Hkey.
          rewrite bool_decide_eq_true_2 by left.
          unfold freshEntry. rewrite Hgen. reflexivity. }
        rewrite lookup_insert_ne by congruence.
        destruct (targetMap !! k); [reflexivity|].
        rewrite (bool_decide_ext (k ∈ keys) (k ∈ key :: keys));
          [reflexivity|].
        rewrite elem_of_cons. tauto.
      * exists [key]. simpl. split; [reflexivity|].
        split; [apply prefix_cons, prefix_nil|]. intros tm' [=].
Qed.

(** ** Strings *)

Lemma append_cons (x : ascii) (a b : string) :
  String x a +:+ b = String x (a +:+ b).
Proof. reflexivity. Qed.

Lemma append_nil_l (a : string) : "" +:+ a = a.
Proof. reflexivity. Qed.

Lemma append_assoc (a b c : string) : (a +:+ b) +:+ c = a +:+ (b +:+ c).
Proof.
  induction a as [|x a IH]; [reflexivity|].
  rewrite !append_cons, IH. reflexivity.
Qed.

Lemma append_nil_r (a : string) : a +:+ "" = a.
Proof.
  induction a as [|x a IH]; [reflexivity|].
  rewrite append_cons, IH. reflexivity.
Qed.

(** ** Sorting *)

Section SortFacts.
Context {A : Type} (less : A -> A -> bool).

Lemma bubble_perm x prefix : sort.bubble less x prefix ≡ₚ x :: prefix.
Proof.
  induction prefix as [|y prefix IH]; simpl; [reflexivity|].
  destruct (less x y); [|reflexivity].
  rewrite IH. apply Permutation_swap.
Qed.

Lemma Sort_perm data : sort.Sort less data ≡ₚ data.
Proof.
  unfold sort.Sort, sort.insertionSort.
  assert (H : forall prefix,
             fold_left (fun prefix x => sort.bubble less x prefix) data prefix
             ≡ₚ data ++ prefix).
  { induction data as [|x data IH]; intros prefix; simpl; [reflexivity|].
    rewrite IH, bubble_perm. symmetry. apply Permutation_middle. }
  rewrite <- Permutation_rev, H, app_nil_r. reflexivity.
Qed.

End SortFacts.

(** ** Writing a manifest *)

Lemma writeEntries_text w dir sums : forall output data,
  writeEntries w dir sums output = Ok data ->
  exists rels,
    Forall2 (fun c rel => relPathOf w dir (Path c) = Ok rel) sums rels
    /\ data = output +:+ manifestText (zip (map Hash sums) rels).
Proof.
  induction sums as [|c sums IH]; intros output data; simpl.
  - intros [= <-]. exists []. split; [constructor|].
    simpl. rewrite append_nil_r. reflexivity.
  - destruct (relPathOf w dir (Path c)) as [rel|err] eqn:Hrel; [|discriminate].
    intros H. destruct (IH _ _ H) as (rels & Hall & ->).
    exists (rel :: rels). split; [constructor; assumption|].
    simpl. unfold entryLine. rewrite !append_assoc. reflexivity.
Qed.




Lemma WriteFile_read w path data w' :
  WriteFile w path data = Ok w' -> ReadFile w' path = Ok data.
Proof.
  unfold WriteFile. destruct (WriteErr w path); [discriminate|].
  intros [= <-]. unfold ReadFile. simpl. rewrite String.eqb_refl. reflexivity.
Qed.

Lemma writeFile_read w sums path w' :
  writeFile w sums path = Ok w' ->
  exists data, serialize w sums path = Ok data /\ ReadFile w' path = Ok data.
Proof.
  unfold writeFile. destruct (serialize w sums path) as [data|]; [|discriminate].
  intros H. exists data. split; [reflexivity|]. eapply WriteFile_read, H.
Qed.

(** ** Reading a manifest *)

Lemma seqLoop_entries dir lines : forall acc : Checksums,
  fold_left
    (fun sums line =>
       match entryOfLine dir line with
       | Some c => sums ++ [c]
       | None => sums
       end) lines acc
  = acc ++ omap (entryOfLine dir) lines.
Proof.
  induction lines as [|line lines IH]; intros acc; simpl.
  - rewrite app_nil_r. reflexivity.
  - rewrite IH. destruct (entryOfLine dir line); [|reflexivity].
    rewrite <- app_assoc. reflexivity.
Qed.

Lemma readFile_entries w path data :
  ReadFile w path = Ok data ->
  readFile w path = Ok (entriesOf (filepath.Dir path) data).
Proof.
  intros H. unfold readFile, entriesOf. rewrite H, seqLoop_entries.
  reflexivity.
Qed.

Lemma last_cons_filter {A} (f : A -> bool) x l :
  last (List.filter f (x :: l))
  = match last (List.filter f l) with
    | Some y => Some y
    | None => if f x then Some x else None
    end.
Proof.
  simpl. destruct (f x); [|destruct (last _); reflexivity].
  destruct (List.filter f l) as [|y l'] eqn:Hl; [reflexivity|].
  rewrite last_cons. destruct (last (y :: l')) eqn:Hlast; [reflexivity|].
  apply last_None in Hlast. discriminate.
Qed.

Lemma mapLoop_lookup dir lines : forall (acc : gmap string Checksum) k,
  fold_left
    (fun checksumMap line =>
       match entryOfLine dir line with
       | Some c => <[Path c := c]> checksumMap
       | None => checksumMap
       end) lines acc !! k
  = match last (List.filter (fun c => String.eqb (Path c) k)
                            (omap (entryOfLine dir) lines)) with
    | Some c => Some c
    | None => acc !! k
    end.
Proof.
  induction lines as [|line lines IH]; intros acc k; [reflexivity|].
  simpl. rewrite IH.
  destruct (entryOfLine dir line) as [c|]; [|reflexivity].
  rewrite last_cons_filter.
  change (list_omap string Checksum (entryOfLine dir) lines)
    with (omap (entryOfLine dir) lines).
  destruct (last (List.filter _ (omap (entryOfLine dir) lines)));
    [reflexivity|].
  destruct (String.eqb_spec (Path c) k) as [->|Hne].
  - apply lookup_insert_eq.
  - apply lookup_insert_ne. exact Hne.
Qed.

Lemma readFileToMap_lookup w path data :
  ReadFile w path = Ok data ->
  exists m, readFileToMap w path = Ok m
            /\ forall k,
                 m !! k = last (List.filter (fun c => String.eqb (Path c) k)
                                  (entriesOf (filepath.Dir path) data)).
Proof.
  intros H. unfold readFileToMap. rewrite H. eexists. split; [reflexivity|].
  intros k. rewrite mapLoop_lookup. unfold entriesOf.
  destruct (last _); [reflexivity|apply lookup_empty].
Qed.

Lemma last_filter_true {A} (f : A -> bool) l x :
  last (List.filter f l) = Some x -> f x = true /\ In x l.
Proof.
  intros H. apply last_Some_elem_of, list_elem_of_In, filter_In in H.
  tauto.
Qed.

Lemma readFileToMap_key w path (m : gmap string Checksum) k c :
  readFileToMap w path = Ok m -> m !! k = Some c -> Path c = k.
Proof.
  unfold readFileToMap.
  destruct (ReadFile w path) as [data|] eqn:Hr; [|discriminate].
  destruct (readFileToMap_lookup _ _ _ Hr) as (m' & Hm' & Hl).
  unfold readFileToMap in Hm'. rewrite Hr in Hm'. rewrite Hm'.
  intros [= <-]. rewrite Hl. intros Hlast.
  apply last_filter_true in Hlast as [Hk _].
  apply String.eqb_eq. exact Hk.
Qed.

(** ** The update command *)

Lemma updateVisit_log w target it sourceMap log :
  snd (updateVisit w target sourceMap it log) = log.
Proof.
  unfold updateVisit. destruct (wErr it); [reflexivity|].
  destruct (wIsDir it); [reflexivity|].
  unfold bind, lift. destruct (isManifest w (wPath it) target) as [[|]|];
    reflexivity.
Qed.

Lemma scanSource_log w source target : snd (scanSource w source target) = [].
Proof.
  unfold scanSource. generalize (@nil string) as log.
  generalize (∅ : gmap string bool) as sourceMap.
  induction (Walk w source) as [|it items IH]; intros sourceMap log;
    [reflexivity|].
  rewrite forEach_cons.
  pose proof (updateVisit_log w target it sourceMap log) as Hlog.
  destruct (updateVisit w target sourceMap it log) as [[sm'|err] log'];
    simpl in Hlog; subst log'; [apply IH|reflexivity].
Qed.

Lemma reconcile_spec w deleteFlag (sourceMap : gmap string bool)
  (targetMap : gmap string Checksum) log :
  rangeOrderOK w ->
  exists hs,
    snd (reconcile w deleteFlag sourceMap targetMap log) = log ++ hs
    /\ (forall k, In k hs -> is_Some (sourceMap !! k) /\ targetMap !! k = None)
    /\ forall finalMap,
         fst (reconcile w deleteFlag sourceMap targetMap log) = Ok finalMap ->
         hs = List.filter (isNew targetMap) (rangeKeys w 1 sourceMap)
         /\ (forall k, is_Some (sourceMap !! k) -> targetMap !! k = None ->
                       isOk (generateMd5 w k) = true)
         /\ forall k,
              finalMap !! k = reconciled w deleteFlag sourceMap targetMap k.
Proof.
  intros Hw. unfold reconcile, insertNew.
  set (tm0 := if deleteFlag then deleteMissing w sourceMap targetMap
              else targetMap).
  assert (Htm0 : forall k, is_Some (sourceMap !! k) -> tm0 !! k = targetMap !! k).
  { intros k [b Hb]. unfold tm0. destruct deleteFlag; [|reflexivity].
    rewrite deleteMissing_lookup by exact Hw. rewrite Hb. reflexivity. }
  assert (Hf : List.filter (isNew tm0) (rangeKeys w 1 sourceMap)
               = List.filter (isNew targetMap) (rangeKeys w 1 sourceMap)).
  { apply filter_ext_in_iff. intros k Hk. unfold isNew.
    rewrite Htm0; [reflexivity|].
    apply (rangeKeys_elem w 1); [exact Hw|]. apply list_elem_of_In. exact Hk. }
  destruct (insertLoop_spec w _ (rangeKeys_NoDup w 1 sourceMap Hw) tm0 log)
    as (hs & Hlog & Hpre & Hok).
  exists hs. split; [exact Hlog|]. split.
  - intros k Hk. rewrite Hf in Hpre.
    assert (Hin : In k (List.filter (isNew targetMap) (rangeKeys w 1 sourceMap))).
    { apply list_elem_of_In. destruct Hpre as [rest ->].
      apply elem_of_app. left. apply list_elem_of_In. exact Hk. }
    apply filter_In in Hin as [Hin Hnew]. split.
    + apply (rangeKeys_elem w 1); [exact Hw|]. apply list_elem_of_In. exact Hin.
    + unfold isNew in Hnew. apply bool_decide_eq_true in Hnew. exact Hnew.
  - intros finalMap Hfin. destruct (Hok finalMap Hfin) as (Hhs & Hall & Hlook).
    split; [congruence|]. split.
    + intros k Hk Hnone. apply Hall.
      * apply (rangeKeys_elem w 1); assumption.
      * rewrite Htm0; assumption.
    + intros k. rewrite Hlook. unfold reconciled.
      destruct (sourceMap !! k) as [b|] eqn:Hs.
      * rewrite Htm0 by eauto. rewrite andb_comm. simpl.
        destruct (targetMap !! k); [reflexivity|].
        rewrite bool_decide_eq_true_2; [reflexivity|].
        apply (rangeKeys_elem w 1); eauto.
      * assert (Hno : k ∉ rangeKeys w 1 sourceMap).
        { intros Hin. apply (rangeKeys_elem w 1) in Hin; [|exact Hw].
          rewrite Hs in Hin. destruct Hin; discriminate. }
        rewrite (bool_decide_eq_false_2 _ Hno).
        unfold tm0. destruct deleteFlag; simpl.
        -- rewrite deleteMissing_lookup by exact Hw. rewrite Hs.
           destruct (targetMap !! k); reflexivity.
        -- destruct (targetMap !! k); reflexivity.
Qed.

Lemma rangeValues_elem {V} w loop (m : gmap string V) k v :
  rangeOrderOK w -> m !! k = Some v -> In v (rangeValues w loop m).
Proof.
  intros Hw Hk. apply list_elem_of_In. unfold rangeValues.
  apply list_elem_of_omap. exists k. split; [|exact Hk].
  apply rangeKeys_elem; eauto.
Qed.

Lemma rangeValues_perm {V} w loop (m : gmap string V) :
  rangeOrderOK w -> rangeValues w loop m ≡ₚ map snd (map_to_list m).
Proof.
  intros Hw. unfold rangeValues, rangeKeys. rewrite (Hw loop _).
  assert (H : forall l : list (string * V),
             (forall kv, kv ∈ l -> m !! kv.1 = Some kv.2) ->
             omap (fun key => m !! key) (map fst l) = map snd l).
  { induction l as [|kv l IH]; intros Hl; [reflexivity|]. simpl.
    rewrite (Hl kv) by left. f_equal. apply IH. intros kv' Hkv'.
    apply Hl. right. exact Hkv'. }
  rewrite H; [reflexivity|].
  intros [k v] Hkv. apply elem_of_map_to_list. exact Hkv.
Qed.



(** C4. What a successful [update] computes: the scan and the loaded
    manifest determine the map written entry by entry.  An entry of the
    manifest is dropped only under the delete flag and only when its path
    was not scanned; a scanned path that is not a key of the manifest is
    digested and gets a new entry; nothing else is digested; and the text
    written is the serialization of that map's entries. *)
Theorem update_computes w ctx source target rest :
  rangeOrderOK w ->
  Args ctx = source :: target :: rest ->
  exitCode (updateCommand w ctx) = 0 ->
  exists (sourceMap : gmap string bool) (targetMap finalMap : gmap string Checksum)
         sums data,
    fst (scanSource w source target) = Ok sourceMap
    /\ readFileToMap w target = Ok targetMap
    /\ (forall k,
           finalMap !! k =
           match targetMap !! k with
           | Some c =>
               if Context_Bool ctx "delete" && bool_decide (sourceMap !! k = None)
               then None else Some c
           | None =>
               match sourceMap !! k with
               | Some _ => freshEntry w k
               | None => None
               end
           end)
    /\ (forall k, is_Some (sourceMap !! k) -> targetMap !! k = None ->
                  exists hash, generateMd5 w k = Ok hash
                               /\ finalMap !! k = Some {| Hash := hash; Path := k |})
    /\ hashed (updateCommand w ctx)
       = List.filter (isNew targetMap) (rangeKeys w 1 sourceMap)
    /\ sums ≡ₚ map snd (map_to_list finalMap)
    /\ serialize w sums target = Ok data
    /\ ReadFile (world (updateCommand w ctx)) target = Ok data.
Proof.
  intros Hw Hargs.
  pose proof (scanSource_log w source target) as Hlog0.
  unfold updateCommand. rewrite Hargs.
  destruct (scanSource w source target) as [[sourceMap|err] log0];
    [|discriminate].
  simpl in Hlog0. subst log0.
  destruct (readFileToMap w target) as [targetMap|err]; [|discriminate].
  destruct (reconcile_spec w (Context_Bool ctx "delete") sourceMap targetMap []
              Hw) as (hs & Hlog & Hhs & Hfin).
  destruct (reconcile w _ sourceMap targetMap []) as [[finalMap|err] log];
    [|discriminate].
  simpl in Hlog. subst log.
  destruct (Hfin finalMap eq_refl) as (Hhs' & Hall & Hlook).
  destruct (writeFile w (rangeValues w 2 finalMap) target) as [w'|err] eqn:Hwrite;
    [|discriminate].
  intros _. simpl.
  destruct (writeFile_read _ _ _ _ Hwrite) as (data & Hser & Hrd).
  exists sourceMap, targetMap, finalMap, (rangeValues w 2 finalMap), data.
  split; [reflexivity|]. split; [reflexivity|].
  split; [exact Hlook|]. split.
  { intros k Hsrc Hnone. specialize (Hall k Hsrc Hnone).
    destruct (generateMd5 w k) as [hash|] eqn:Hgen; [|discriminate].
    exists hash. split; [reflexivity|].
    rewrite Hlook. unfold reconciled. rewrite Hnone.
    destruct Hsrc as [b ->]. unfold freshEntry. rewrite Hgen. reflexivity. }
  split; [exact Hhs'|].
  split; [apply rangeValues_perm; exact Hw|].
  split; [exact Hser|exact Hrd].
Qed.

Lemma update_computes_witness :
  ReadFile (world (updateCommand updateDisk
                     {| Args := ["src"; "src/sums.md5"]; Flags := ["delete"] |}))
    "src/sums.md5"
  = Ok ("9dd4e461268c8034f5c8564e155c67a6 *a.txt" +:+ nl
        +:+ "900150983cd24fb0d6963f7d28e17f72 *c.txt" +:+ nl
        +:+ "0cc175b9c0f1b6a831c399e269772661 *d.txt" +:+ nl)
  /\ hashed (updateCommand updateDisk
               {| Args := ["src"; "src/sums.md5"]; Flags := ["delete"] |})
     = ["src/d.txt"].
Proof.
  assert (Hw : rangeOrderOK updateDisk) by (intros loop keys; reflexivity).
  destruct (update_computes updateDisk
              {| Args := ["src"; "src/sums.md5"]; Flags := ["delete"] |}
              "src" "src/sums.md5" [] Hw eq_refl)
    as (sm & tm & fm & sums & data & _).
  - vm_compute. reflexivity.
  - split; vm_compute; reflexivity.
Defined.

(** The delete flag on the specification's example: entries [a], [b], [c]
    and scanned files [a], [c], [d]. *)
Example update_without_delete :
  ReadFile (world (updateCommand updateDisk
                     {| Args := ["src"; "src/sums.md5"]; Flags := [] |}))
    "src/sums.md5"
  = Ok ("9dd4e461268c8034f5c8564e155c67a6 *a.txt" +:+ nl
        +:+ "415290769594460e2e485922904f345d *b.txt" +:+ nl
        +:+ "900150983cd24fb0d6963f7d28e17f72 *c.txt" +:+ nl
        +:+ "0cc175b9c0f1b6a831c399e269772661 *d.txt" +:+ nl).
Proof. vm_compute. reflexivity. Qed.

(** ** The entry pattern *)

Lemma hexRun_app h rest :
  allBytes isHex h = true -> hexRun (String.length h) (h +:+ rest) = Some rest.
Proof.
  induction h as [|c h IH]; [reflexivity|].
  simpl. intros [Hc Hh]%andb_true_iff. rewrite Hc. auto.
Qed.

Lemma hexRun_inv n : forall s rest,
  hexRun n s = Some rest ->
  exists h, s = h +:+ rest /\ String.length h = n /\ allBytes isHex h = true.
Proof.
  induction n as [|n IH]; intros s rest; simpl.
  - intros [= ->]. exists "". auto.
  - destruct s as [|c s]; [discriminate|].
    destruct (isHex c) eqn:Hc; [|discriminate].
    intros H. destruct (IH _ _ H) as (h & -> & Hlen & Hall).
    exists (String c h). simpl. rewrite Hc, Hlen. auto.
Qed.

(** A line matches the pattern exactly when it is 32 hexadecimal
    characters, a space, a star and a remainder without line feed. *)
Lemma MatchString_spec line :
  MatchString line = true <->
  exists h rest,
    line = h +:+ " *" +:+ rest
    /\ isHash h = true
    /\ strings.Contains1 strings.LF rest = false.
Proof.
  unfold MatchString, isHash. split.
  - destruct (hexRun 32 line) as [[|c1 [|c2 rest]]|] eqn:Hrun; try discriminate.
    intros [[H1 H2]%andb_true_iff Hlf%negb_true_iff]%andb_true_iff.
    apply Ascii.eqb_eq in H1, H2. subst c1 c2.
    destruct (hexRun_inv _ _ _ Hrun) as (h & -> & Hlen & Hall).
    exists h, rest. rewrite Hlen, Hall. auto.
  - intros (h & rest & -> & [Hlen%Nat.eqb_eq Hall]%andb_true_iff & Hlf).
    rewrite <- Hlen, (hexRun_app _ _ Hall).
    change (" *" +:+ rest) with (String " " (String "*" rest)).
    cbv iota. rewrite Hlf. reflexivity.
Qed.

Lemma isHex_not_space c : isHex c = true -> Ascii.eqb c " " = false.
Proof.
  destruct (Ascii.eqb_spec c " ") as [->|]; [|reflexivity].
  vm_compute. discriminate.
Qed.

Lemma consHead_nonempty c parts : strings.consHead c parts <> [].
Proof. destruct parts; discriminate. Qed.

Lemma SplitPair_nonempty a b s : strings.SplitPair a b s <> [].
Proof.
  destruct s as [|c [|d s]]; [discriminate..|].
  cbn [strings.SplitPair].
  destruct (Ascii.eqb c a && Ascii.eqb d b);
    [discriminate|apply consHead_nonempty].
Qed.

Lemma SplitPair_cons a b c s :
  strings.SplitPair a b (String c s)
  = match s with
    | EmptyString => [String c EmptyString]
    | String d s'' =>
        if Ascii.eqb c a && Ascii.eqb d b
        then EmptyString :: strings.SplitPair a b s''
        else strings.consHead c (strings.SplitPair a b s)
    end.
Proof. destruct s; reflexivity. Qed.

(** Splitting a line at the separator: the first field is the hash. *)
Lemma SplitPair_hash h rest :
  allBytes isHex h = true ->
  strings.SplitPair " " "*" (h +:+ " *" +:+ rest)
  = h :: strings.SplitPair " " "*" rest.
Proof.
  induction h as [|c h IH]; intros Hall; [reflexivity|].
  cbn [allBytes] in Hall. apply andb_true_iff in Hall as [Hc Hh].
  rewrite append_cons, SplitPair_cons.
  remember (h +:+ " *" +:+ rest) as t eqn:Ht.
  destruct t as [|d t]; [destruct h; discriminate|].
  rewrite (isHex_not_space _ Hc). cbn [andb]. rewrite (IH Hh).
  reflexivity.
Qed.

Lemma entryOfLine_spec dir line c :
  entryOfLine dir line = Some c <->
  MatchString line = true
  /\ c = {| Hash := recordedHash line;
            Path := resolve dir (recordedPath line) |}.
Proof.
  unfold entryOfLine, recordedHash, recordedPath, resolve.
  destruct line as [|x line]; [simpl; split; [discriminate|intros [[=] _]]|].
  cbn [String.length Nat.leb].
  destruct (MatchString (String x line)); [|split; [discriminate|intros [[=] _]]].
  destruct (filepath.IsAbs _); simpl; split; intros H;
    try (injection H as <-; auto); destruct H as [_ ->]; reflexivity.
Qed.

Lemma entryOfLine_hash dir h rest :
  isHash h = true ->
  strings.Contains1 strings.LF rest = false ->
  exists c, entryOfLine dir (h +:+ " *" +:+ rest) = Some c /\ Hash c = h.
Proof.
  intros Hh Hlf. eexists. split.
  - apply entryOfLine_spec. split; [|reflexivity].
    apply MatchString_spec. eauto.
  - simpl. unfold recordedHash.
    apply andb_true_iff in Hh as [_ Hall].
    rewrite (SplitPair_hash _ _ Hall). reflexivity.
Qed.

(** Parsing never fails on the content of the file. *)
Lemma readFile_total w path data :
  ReadFile w path = Ok data ->
  isOk (readFile w path) = true /\ isOk (readFileToMap w path) = true.
Proof.
  intros H. unfold readFile, readFileToMap. rewrite H. auto.
Qed.

(** C6, as the code has it.  A line that matches the pattern and whose path
    holds the two bytes [ *]: the entry's path stops before them instead of
    being the whole remainder [notes *final.txt]. *)
Example parse_truncates_path :
  let line := "0123456789abcdef0123456789ABCDEF *notes *final.txt" in
  MatchString line = true
  /\ entryOfLine "/d" line
     = Some {| Hash := "0123456789abcdef0123456789ABCDEF"; Path := "/d/notes" |}
  /\ resolve "/d" "notes *final.txt" = "/d/notes *final.txt".
Proof. vm_compute. auto. Qed.

(** ** Resolution of recorded paths *)

Lemma entriesOf_lines dir data c :
  In c (entriesOf dir data) ->
  exists line, In line (manifestLines data)
               /\ entryOfLine dir line = Some c.
Proof.
  unfold entriesOf. intros H. apply list_elem_of_In, list_elem_of_omap in H.
  destruct H as (line & Hin & Hc). exists line.
  split; [apply list_elem_of_In; exact Hin|exact Hc].
Qed.

Lemma ReadFile_ext w w' path :
  (forall p, Open w' p = Open w p) -> ReadFile w' path = ReadFile w path.
Proof. intros H. unfold ReadFile. rewrite H. reflexivity. Qed.

(** C9. Every entry parsed from a manifest has as path the recorded path
    itself when that is absolute and otherwise the recorded path joined to
    the directory of the manifest's own path; the working directory plays
    no part, the result being the same in every world with the same files.
    The map form is keyed by these paths, and among the entries with the
    same path the last one in the file is the one kept. *)
Theorem readFileToMap_resolves w path data :
  ReadFile w path = Ok data ->
  exists m,
    readFileToMap w path = Ok m
    /\ readFile w path = Ok (entriesOf (filepath.Dir path) data)
    /\ (forall c, In c (entriesOf (filepath.Dir path) data) ->
          exists line,
            In line (manifestLines data)
            /\ entryOfLine (filepath.Dir path) line = Some c
            /\ Path c = if filepath.IsAbs (recordedPath line)
                        then recordedPath line
                        else filepath.Join (filepath.Dir path) (recordedPath line))
    /\ (forall k,
          m !! k = last (List.filter (fun c => String.eqb (Path c) k)
                           (entriesOf (filepath.Dir path) data)))
    /\ (forall k c, m !! k = Some c -> Path c = k)
    /\ (forall w', (forall p, Open w' p = Open w p) ->
                   readFileToMap w' path = Ok m).
Proof.
  intros Hread.
  destruct (readFileToMap_lookup _ _ _ Hread) as (m & Hm & Hlook).
  exists m. split; [exact Hm|].
  split; [apply readFile_entries; exact Hread|]. split.
  { intros c Hc. destruct (entriesOf_lines _ _ _ Hc) as (line & Hin & Hline).
    exists line. split; [exact Hin|]. split; [exact Hline|].
    apply entryOfLine_spec in Hline as [_ ->]. reflexivity. }
  split; [exact Hlook|]. split.
  { intros k c. apply (readFileToMap_key _ _ _ _ _ Hm). }
  intros w' Hopen. rewrite <- Hm. unfold readFileToMap.
  rewrite (ReadFile_ext _ _ _ Hopen). reflexivity.
Qed.

Lemma readFileToMap_resolves_witness :
  exists m,
    readFileToMap driftedDisk "/d/sums.md5" = Ok m
    /\ m !! "/d/b.txt"
       = Some {| Hash := "415290769594460e2e485922904f345d"; Path := "/d/b.txt" |}.
Proof.
  destruct (readFileToMap_resolves driftedDisk "/d/sums.md5" _ eq_refl)
    as (m & Hm & _ & _ & Hlook & _).
  exists m. split; [exact Hm|]. rewrite Hlook. vm_compute. reflexivity.
Defined.

(** The last occurrence wins, and a relative manifest path gives paths
    relative to the same place. *)
Example readFileToMap_last_wins :
  let w := disk [ ("out/sums.md5",
                   "00000000000000000000000000000000 *a.txt" +:+ nl
                   +:+ "# a comment" +:+ nl +:+ nl
                   +:+ "11111111111111111111111111111111 *./a.txt" +:+ nl) ]
             [] (fun _ => []) in
  exists m, readFileToMap w "out/sums.md5" = Ok m
            /\ map_to_list m
               = [("out/a.txt",
                   {| Hash := "11111111111111111111111111111111";
                      Path := "out/a.txt" |})].
Proof. eexists. split; [reflexivity|]. vm_compute. reflexivity. Qed.

(** ** The order of the entries in a manifest *)

Section InsertionSorted.
Context {A : Type} (less : A -> A -> bool).

Hypothesis less_asym : forall x y, less x y = true -> less y x = false.

Lemma bubble_head x prefix :
  HdRel (flip (notAfter less)) x prefix ->
  forall y, less x y = false ->
  HdRel (flip (notAfter less)) x (sort.bubble less y prefix).
Proof.
  intros Hhd y Hy. destruct prefix as [|z prefix]; simpl.
  - constructor. exact Hy.
  - destruct (less y z); constructor; [|exact Hy].
    inversion Hhd; assumption.
Qed.

Lemma bubble_sorted x prefix :
  Sorted (flip (notAfter less)) prefix ->
  Sorted (flip (notAfter less)) (sort.bubble less x prefix).
Proof.
  induction 1 as [|y prefix Hs IH Hhd]; simpl.
  - repeat constructor.
  - destruct (less x y) eqn:Hxy.
    + constructor; [exact IH|].
      apply bubble_head; [exact Hhd|]. apply less_asym. exact Hxy.
    + constructor; [constructor; assumption|]. constructor. exact Hxy.
Qed.

Lemma Sort_sorted data : Sorted (notAfter less) (sort.Sort less data).
Proof.
  unfold sort.Sort, sort.insertionSort. rewrite rev_alt.
  apply (Sorted_reverse (flip (notAfter less))).
  assert (H : forall prefix,
             Sorted (flip (notAfter less)) prefix ->
             Sorted (flip (notAfter less))
               (fold_left (fun prefix x => sort.bubble less x prefix) data prefix)).
  { induction data as [|x data IH]; intros prefix Hp; simpl; [exact Hp|].
    apply IH, bubble_sorted, Hp. }
  apply H. constructor.
Qed.

End InsertionSorted.

Lemma ltb_leb a b : String.ltb a b = negb (String.leb b a).
Proof.
  unfold String.ltb, String.leb. rewrite (String.compare_antisym b a).
  destruct (String.compare a b); reflexivity.
Qed.

Lemma leb_trans a b c :
  String.leb a b = true -> String.leb b c = true -> String.leb a c = true.
Proof.
  intros H1 H2. apply Is_true_true.
  apply (@transitivity _ String.le _ a b c); apply Is_true_true; assumption.
Qed.

Lemma leb_refl a : String.leb a a = true.
Proof. destruct (String.leb_total a a); assumption. Qed.

(** The sort keys of an entry: lower-cased directory, then lower-cased
    path. *)
Lemma notAfter_lessEntry x y :
  notAfter lessEntry x y <->
  (if String.eqb (strings.ToLower (filepath.Dir (Path y)))
                 (strings.ToLower (filepath.Dir (Path x)))
   then String.leb (strings.ToLower (Path x)) (strings.ToLower (Path y)) = true
   else String.leb (strings.ToLower (filepath.Dir (Path x)))
                   (strings.ToLower (filepath.Dir (Path y))) = true).
Proof.
  unfold notAfter, lessEntry, strings.Less.
  destruct (String.eqb _ _); rewrite ltb_leb, negb_false_iff; reflexivity.
Qed.

Lemma lessEntry_asym x y : lessEntry x y = true -> lessEntry y x = false.
Proof.
  intros H. apply notAfter_lessEntry.
  unfold lessEntry, strings.Less in H. rewrite String.eqb_sym.
  destruct (String.eqb _ _); rewrite ltb_leb, negb_true_iff in H.
  - destruct (String.leb_total (strings.ToLower (Path x))
                               (strings.ToLower (Path y))); congruence.
  - destruct (String.leb_total (strings.ToLower (filepath.Dir (Path x)))
                               (strings.ToLower (filepath.Dir (Path y))));
      congruence.
Qed.

Global Instance notAfter_lessEntry_trans : Transitive (notAfter lessEntry).
Proof.
  intros x y z. rewrite !notAfter_lessEntry.
  set (dx := strings.ToLower (filepath.Dir (Path x))).
  set (dy := strings.ToLower (filepath.Dir (Path y))).
  set (dz := strings.ToLower (filepath.Dir (Path z))).
  destruct (String.eqb_spec dy dx) as [Hyx|Hyx];
    destruct (String.eqb_spec dz dy) as [Hzy|Hzy];
    destruct (String.eqb_spec dz dx) as [Hzx|Hzx];
    intros H1 H2; try congruence; eauto using leb_trans.
  exfalso. apply Hyx. rewrite Hzx in H2.
  apply String.leb_antisym; assumption.
Qed.

Lemma notAfter_lessEntry_tie x y :
  notAfter lessEntry x y -> notAfter lessEntry y x ->
  strings.ToLower (Path x) = strings.ToLower (Path y).
Proof.
  rewrite !notAfter_lessEntry. rewrite (String.eqb_sym (strings.ToLower (filepath.Dir (Path x)))).
  destruct (String.eqb_spec (strings.ToLower (filepath.Dir (Path y)))
                            (strings.ToLower (filepath.Dir (Path x))))
    as [Hd|Hd]; intros H1 H2.
  - apply String.leb_antisym; assumption.
  - exfalso. apply Hd. apply String.leb_antisym; assumption.
Qed.

Lemma NoDup_map_inj {A B} (f : A -> B) l x y :
  NoDup (map f l) -> In x l -> In y l -> f x = f y -> x = y.
Proof.
  induction l as [|a l IH]; simpl; [contradiction|].
  intros Hnd. apply NoDup_cons in Hnd as [Hnot Hnd].
  intros [->|Hx] [->|Hy] Hf; auto.
  - exfalso. apply Hnot. rewrite Hf. apply list_elem_of_In, in_map. exact Hy.
  - exfalso. apply Hnot. rewrite <- Hf. apply list_elem_of_In, in_map. exact Hx.
Qed.

(** Whatever algorithm sorts them: two lists without descents that hold the
    same entries are equal when no two entries tie. *)
Lemma sorted_entries_unique sums1 sums2 :
  Sorted (notAfter lessEntry) sums1 ->
  Sorted (notAfter lessEntry) sums2 ->
  sums1 ≡ₚ sums2 ->
  NoDup (map (fun c => strings.ToLower (Path c)) sums1) ->
  sums1 = sums2.
Proof.
  intros H1 H2 Hperm Hnd.
  apply (Sorted_unique_strong (notAfter lessEntry)); try assumption.
  intros x y Hx Hy Hxy Hyx.
  apply (NoDup_map_inj _ _ _ _ Hnd).
  - apply list_elem_of_In. exact Hx.
  - apply list_elem_of_In. rewrite Hperm. exact Hy.
  - apply notAfter_lessEntry_tie; assumption.
Qed.

(** C8, as stated, fails: two entries whose paths differ only in case tie
    under [Less], and [sort.Sort] leaves them in the order it found them. *)
Lemma serialize_depends_on_order :
  let upper := {| Hash := "9dd4e461268c8034f5c8564e155c67a6"; Path := "/d/A.txt" |} in
  let lower := {| Hash := "415290769594460e2e485922904f345d"; Path := "/d/a.txt" |} in
  [upper; lower] ≡ₚ [lower; upper]
  /\ serialize driftedDisk [upper; lower] "/d/sums.md5"
     = Ok ("9dd4e461268c8034f5c8564e155c67a6 *A.txt" +:+ nl
           +:+ "415290769594460e2e485922904f345d *a.txt" +:+ nl)
  /\ serialize driftedDisk [lower; upper] "/d/sums.md5"
     = Ok ("415290769594460e2e485922904f345d *a.txt" +:+ nl
           +:+ "9dd4e461268c8034f5c8564e155c67a6 *A.txt" +:+ nl)
  /\ serialize driftedDisk [upper; lower] "/d/sums.md5"
     <> serialize driftedDisk [lower; upper] "/d/sums.md5".
Proof.
  split; [apply Permutation_swap|].
  split; [reflexivity|]. split; [reflexivity|].
  vm_compute. discriminate.
Qed.

(** ** The order, whatever [strings.ToLower] computes *)

Section AnyLower.
Context (ToLower : string -> string).

(** The sort keys of an entry: lower-cased directory, then lower-cased
    path. *)
Lemma notAfter_keys x y :
  notAfter (generic.lessEntry ToLower) x y <->
  (if String.eqb (ToLower (filepath.Dir (Path y)))
                 (ToLower (filepath.Dir (Path x)))
   then String.leb (ToLower (Path x)) (ToLower (Path y)) = true
   else String.leb (ToLower (filepath.Dir (Path x)))
                   (ToLower (filepath.Dir (Path y))) = true).
Proof.
  unfold notAfter, generic.lessEntry, strings.Less.
  destruct (String.eqb _ _); rewrite ltb_leb, negb_false_iff; reflexivity.
Qed.

Lemma Less_asym x y :
  generic.lessEntry ToLower x y = true -> generic.lessEntry ToLower y x = false.
Proof.
  intros H. apply notAfter_keys.
  unfold generic.lessEntry, strings.Less in H. rewrite String.eqb_sym.
  destruct (String.eqb _ _); rewrite ltb_leb, negb_true_iff in H.
  - destruct (String.leb_total (ToLower (Path x)) (ToLower (Path y)));
      congruence.
  - destruct (String.leb_total (ToLower (filepath.Dir (Path x)))
                               (ToLower (filepath.Dir (Path y))));
      congruence.
Qed.

Lemma notAfter_keys_trans : Transitive (notAfter (generic.lessEntry ToLower)).
Proof.
  intros x y z. rewrite !notAfter_keys.
  set (dx := ToLower (filepath.Dir (Path x))).
  set (dy := ToLower (filepath.Dir (Path y))).
  set (dz := ToLower (filepath.Dir (Path z))).
  destruct (String.eqb_spec dy dx) as [Hyx|Hyx];
    destruct (String.eqb_spec dz dy) as [Hzy|Hzy];
    destruct (String.eqb_spec dz dx) as [Hzx|Hzx];
    intros H1 H2; try congruence; eauto using leb_trans.
  exfalso. apply Hyx. rewrite Hzx in H2.
  apply String.leb_antisym; assumption.
Qed.

(** Two entries tie only when their lower-cased paths are equal. *)
Lemma notAfter_keys_tie x y :
  notAfter (generic.lessEntry ToLower) x y ->
  notAfter (generic.lessEntry ToLower) y x ->
  ToLower (Path x) = ToLower (Path y).
Proof.
  rewrite !notAfter_keys.
  rewrite (String.eqb_sym (ToLower (filepath.Dir (Path x)))).
  destruct (String.eqb_spec (ToLower (filepath.Dir (Path y)))
                            (ToLower (filepath.Dir (Path x))))
    as [Hd|Hd]; intros H1 H2.
  - apply String.leb_antisym; assumption.
  - exfalso. apply Hd. apply String.leb_antisym; assumption.
Qed.

Section AnySort.
Context (Sort : (Checksum -> Checksum -> bool) -> Checksums -> Checksums).
Hypothesis Sort_sorts : sorts (generic.lessEntry ToLower) Sort.

Lemma sorted_In c data :
  In c (Sort (generic.lessEntry ToLower) data) <-> In c data.
Proof.
  rewrite <- !list_elem_of_In, (proj1 (Sort_sorts data)). reflexivity.
Qed.

(** Two orderings of the same entries are sorted to the same slice when no
    two of the entries tie. *)
Lemma sorted_same data1 data2 :
  data1 ≡ₚ data2 ->
  NoDup (map (fun c => ToLower (Path c)) data1) ->
  Sort (generic.lessEntry ToLower) data1 = Sort (generic.lessEntry ToLower) data2.
Proof.
  intros Hperm Hnd.
  pose proof notAfter_keys_trans as Htrans.
  apply (Sorted_unique_strong (notAfter (generic.lessEntry ToLower)));
    try apply Sort_sorts.
  - intros x y Hx Hy Hxy Hyx.
    apply (NoDup_map_inj _ _ _ _ Hnd).
    + apply sorted_In, list_elem_of_In. exact Hx.
    + apply list_elem_of_In. rewrite Hperm. apply list_elem_of_In.
      apply sorted_In, list_elem_of_In. exact Hy.
    + apply notAfter_keys_tie; assumption.
  - rewrite (proj1 (Sort_sorts data1)), (proj1 (Sort_sorts data2)).
    exact Hperm.
Qed.

End AnySort.
End AnyLower.

(** The insertion sort does what is asked of [sort.Sort]. *)
Lemma insertion_sorts (less : Checksum -> Checksum -> bool) :
  (forall x y, less x y = true -> less y x = false) ->
  sorts less (@sort.Sort Checksum).
Proof.
  intros Hasym data. split; [apply Sort_perm|apply Sort_sorted, Hasym].
Qed.

(** C8, amended.  Serializing the same entries from any two input orders
    gives the same bytes, and the same file, provided no two entries have
    paths that are equal once lower-cased.  This holds whatever
    [strings.ToLower] makes of a path and however [sort.Sort] orders
    entries that tie. *)
Theorem serialize_order_independent ToLower Sort w sums1 sums2 path :
  sorts (generic.lessEntry ToLower) Sort ->
  sums1 ≡ₚ sums2 ->
  NoDup (map (fun c => ToLower (Path c)) sums1) ->
  generic.serialize ToLower Sort w sums1 path
  = generic.serialize ToLower Sort w sums2 path
  /\ generic.writeFile ToLower Sort w sums1 path
     = generic.writeFile ToLower Sort w sums2 path.
Proof.
  intros Hsorts Hperm Hnd.
  assert (Hser : generic.serialize ToLower Sort w sums1 path
                 = generic.serialize ToLower Sort w sums2 path).
  { unfold generic.serialize.
    rewrite (sorted_same ToLower Sort Hsorts _ _ Hperm Hnd). reflexivity. }
  split; [exact Hser|]. unfold generic.writeFile. rewrite Hser. reflexivity.
Qed.

Lemma serialize_order_independent_witness :
  let x := {| Hash := "9dd4e461268c8034f5c8564e155c67a6"; Path := "/d/sub/x.txt" |} in
  let y := {| Hash := "415290769594460e2e485922904f345d"; Path := "/d/B.txt" |} in
  let z := {| Hash := "900150983cd24fb0d6963f7d28e17f72"; Path := "/d/a.txt" |} in
  generic.serialize strings.ToLower (@sort.Sort Checksum) driftedDisk
    [x; y; z] "/d/sums.md5"
  = generic.serialize strings.ToLower (@sort.Sort Checksum) driftedDisk
      [z; x; y] "/d/sums.md5"
  /\ generic.serialize strings.ToLower (@sort.Sort Checksum) driftedDisk
       [z; x; y] "/d/sums.md5"
     = Ok ("900150983cd24fb0d6963f7d28e17f72 *a.txt" +:+ nl
           +:+ "415290769594460e2e485922904f345d *B.txt" +:+ nl
           +:+ "9dd4e461268c8034f5c8564e155c67a6 *sub/x.txt" +:+ nl).
Proof.
  intros x y z. split; [|reflexivity].
  refine (proj1 (serialize_order_independent strings.ToLower (@sort.Sort Checksum)
                   driftedDisk [x; y; z] [z; x; y] "/d/sums.md5" _ _ _)).
  - apply insertion_sorts, Less_asym.
  - change [z; x; y] with ([z] ++ [x; y]).
    change [x; y; z] with ([x; y] ++ [z]). apply Permutation_app_comm.
  - compute_done.
Defined.

(** ** The digest as text *)

Lemma hexDigit_lower n : isLowerHex (fmt.hexDigit n) = true.
Proof.
  unfold fmt.hexDigit.
  pose proof (Z.mod_pos_bound n 16 eq_refl) as Hb.
  assert (Hm : (Z.to_nat (n mod 16) < 16)%nat) by lia.
  revert Hm. generalize (Z.to_nat (n mod 16)). intros m Hm.
  do 16 (destruct m as [|m]; [reflexivity|]). lia.
Qed.

Lemma hex_lower bytes : allBytes isLowerHex (fmt.hex bytes) = true.
Proof.
  induction bytes as [|b bytes IH]; [reflexivity|].
  simpl. rewrite !hexDigit_lower, IH. reflexivity.
Qed.

Lemma hex_length bytes : String.length (fmt.hex bytes) = 2 * length bytes.
Proof.
  induction bytes as [|b bytes IH]; [reflexivity|].
  simpl. rewrite IH. lia.
Qed.

Lemma Sum_length data : length (md5.Sum data) = md5.Size.
Proof.
  unfold md5.Sum. destruct (fold_left _ _ _) as [[[a b] c] d]. reflexivity.
Qed.

Lemma generateMd5_lower w path hash :
  generateMd5 w path = Ok hash -> isLowerHash hash = true.
Proof.
  rewrite generateMd5_readAttempt.
  destruct (readAttempt w path) as [data|]; [|discriminate].
  intros [= <-]. unfold isLowerHash.
  rewrite hex_length, Sum_length, hex_lower. reflexivity.
Qed.

Lemma isLowerHex_isHex c : isLowerHex c = true -> isHex c = true.
Proof. unfold isLowerHex, isHex. intros ->. reflexivity. Qed.

Lemma allBytes_impl (f g : ascii -> bool) s :
  (forall c, f c = true -> g c = true) ->
  allBytes f s = true -> allBytes g s = true.
Proof.
  intros Hfg. induction s as [|c s IH]; [reflexivity|].
  simpl. intros [Hc Hs]%andb_true_iff. rewrite (Hfg _ Hc), (IH Hs). reflexivity.
Qed.

Lemma isLowerHash_isHash h : isLowerHash h = true -> isHash h = true.
Proof.
  unfold isLowerHash, isHash. intros [-> Hall]%andb_true_iff.
  rewrite (allBytes_impl _ _ _ isLowerHex_isHex Hall). reflexivity.
Qed.

(** ** The lines of a written manifest *)

Lemma Contains1_app c a b :
  strings.Contains1 c (a +:+ b)
  = strings.Contains1 c a || strings.Contains1 c b.
Proof.
  induction a as [|x a IH]; [reflexivity|].
  rewrite append_cons. cbn [strings.Contains1]. rewrite IH, orb_assoc.
  reflexivity.
Qed.

Lemma ReplacePair_cons a b new c s :
  strings.ReplacePair a b new (String c s)
  = match s with
    | EmptyString => String c EmptyString
    | String d s'' =>
        if Ascii.eqb c a && Ascii.eqb d b
        then new +:+ strings.ReplacePair a b new s''
        else String c (strings.ReplacePair a b new s)
    end.
Proof. destruct s; reflexivity. Qed.

Lemma ReplaceCRLF_line line rest :
  strings.Contains1 strings.LF line = false ->
  strings.ReplacePair strings.CR strings.LF nl (line +:+ nl +:+ rest)
  = chompCR line +:+ nl
    +:+ strings.ReplacePair strings.CR strings.LF nl rest.
Proof.
  induction line as [|x line IH]; intros Hlf.
  - rewrite !append_nil_l. unfold nl. rewrite !append_cons, !append_nil_l.
    rewrite ReplacePair_cons. destruct rest; reflexivity.
  - cbn [strings.Contains1] in Hlf. apply orb_false_iff in Hlf as [Hx Hline].
    rewrite append_cons, ReplacePair_cons.
    remember (line +:+ nl +:+ rest) as t eqn:Ht.
    destruct t as [|d t]; [destruct line; discriminate|].
    cbn [chompCR].
    destruct line as [|y line].
    + rewrite append_nil_l in Ht. unfold nl in Ht.
      rewrite append_cons, append_nil_l in Ht. injection Ht as -> ->.
      rewrite Ascii.eqb_refl. cbn [String.eqb]. rewrite !andb_true_r.
      destruct (Ascii.eqb x strings.CR); [reflexivity|].
      rewrite (IH Hline). reflexivity.
    + rewrite append_cons in Ht. injection Ht as -> ->.
      cbn [strings.Contains1] in Hline.
      apply orb_false_iff in Hline as [Hy Hline'].
      rewrite Hy, andb_false_r. cbn [String.eqb]. rewrite andb_false_r.
      rewrite append_cons. f_equal.
      rewrite <- append_cons. apply IH.
      cbn [strings.Contains1]. rewrite Hy, Hline'. reflexivity.
Qed.

Lemma chompCR_noLF line :
  strings.Contains1 strings.LF line = false ->
  strings.Contains1 strings.LF (chompCR line) = false.
Proof.
  induction line as [|c line IH]; [reflexivity|].
  cbn [strings.Contains1 chompCR]. intros [Hc Hl]%orb_false_iff.
  destruct (Ascii.eqb c strings.CR && String.eqb line ""); [reflexivity|].
  cbn [strings.Contains1]. rewrite Hc, (IH Hl). reflexivity.
Qed.

Lemma chompCR_app a b : b <> "" -> chompCR (a +:+ b) = a +:+ chompCR b.
Proof.
  intros Hb. induction a as [|c a IH]; [reflexivity|].
  rewrite !append_cons. cbn [chompCR]. rewrite IH.
  destruct (String.eqb_spec (a +:+ b) "") as [He|_].
  - destruct a; [rewrite append_nil_l in He; contradiction|discriminate].
  - rewrite andb_false_r. reflexivity.
Qed.

Lemma SplitByte_line sep line rest :
  strings.Contains1 sep line = false ->
  strings.SplitByte sep (line +:+ String sep rest)
  = line :: strings.SplitByte sep rest.
Proof.
  induction line as [|c line IH]; intros Hl.
  - rewrite append_nil_l. cbn [strings.SplitByte].
    rewrite Ascii.eqb_refl. reflexivity.
  - cbn [strings.Contains1] in Hl. apply orb_false_iff in Hl as [Hc Hl].
    rewrite append_cons. cbn [strings.SplitByte]. rewrite Hc, (IH Hl).
    reflexivity.
Qed.

Lemma allHex_noLF h :
  allBytes isHex h = true -> strings.Contains1 strings.LF h = false.
Proof.
  induction h as [|c h IH]; [reflexivity|].
  cbn [allBytes strings.Contains1]. intros [Hc Hh]%andb_true_iff.
  rewrite (IH Hh), orb_false_r.
  destruct (Ascii.eqb_spec c strings.LF) as [->|]; [discriminate|reflexivity].
Qed.

Lemma nl_append s : nl +:+ s = String strings.LF s.
Proof. reflexivity. Qed.

(** The lines the parser sees in a text that [writeFile] produced from
    hashes and paths without line feed. *)
Lemma manifestLines_text entries :
  Forall (fun e => allBytes isHex e.1 = true
                   /\ strings.Contains1 strings.LF e.2 = false) entries ->
  manifestLines (manifestText entries)
  = map (fun e => e.1 +:+ " *" +:+ chompCR e.2) entries ++ [EmptyString].
Proof.
  unfold manifestLines. induction 1 as [|[h r] entries [Hh Hr] _ IH];
    [reflexivity|].
  cbn [manifestText map fst snd app] in *. unfold entryLine.
  assert (Hline : strings.Contains1 strings.LF (h +:+ " *" +:+ r) = false).
  { rewrite !Contains1_app, (allHex_noLF _ Hh), Hr. reflexivity. }
  replace ((h +:+ " *" +:+ r +:+ nl) +:+ manifestText entries)
    with ((h +:+ " *" +:+ r) +:+ nl +:+ manifestText entries)
    by (rewrite !append_assoc; reflexivity).
  rewrite (ReplaceCRLF_line _ _ Hline), nl_append.
  rewrite SplitByte_line by (apply chompCR_noLF; exact Hline).
  rewrite IH. f_equal.
  rewrite chompCR_app by discriminate. reflexivity.
Qed.

Lemma entries_of_lines dir entries :
  Forall (fun e => isHash e.1 = true
                   /\ strings.Contains1 strings.LF e.2 = false) entries ->
  Forall (fun e => MatchString (e.1 +:+ " *" +:+ e.2) = true) entries
  /\ map Hash (entriesOf dir (manifestText entries)) = map fst entries.
Proof.
  intros Hall. split.
  { eapply Forall_impl; [exact Hall|]. intros [h r] [Hh Hr].
    apply MatchString_spec. exists h, r. auto. }
  unfold entriesOf. rewrite manifestLines_text.
  2:{ eapply Forall_impl; [exact Hall|]. intros [h r] [Hh Hr]. split; [|exact Hr].
      apply andb_true_iff in Hh. tauto. }
  rewrite omap_app. simpl (omap _ [""]). rewrite app_nil_r.
  induction Hall as [|[h r] entries [Hh Hr] _ IH]; [reflexivity|].
  cbn [map fst snd].
  destruct (entryOfLine_hash dir h (chompCR r) Hh (chompCR_noLF _ Hr))
    as (c & Hc & Hhash).
  simpl. rewrite Hc. simpl. rewrite Hhash. f_equal. exact IH.
Qed.

(** ** Hashes written by [new] and [update] *)

Lemma forEach_inv {A S} (P : S -> Prop) (body : S -> A -> Hashing S) items :
  (forall s x log s' log',
      P s -> body s x log = (Ok s', log') -> P s') ->
  forall s log s' log',
    P s -> forEach body items s log = (Ok s', log') -> P s'.
Proof.
  intros Hbody. induction items as [|x items IH]; intros s log s' log' Hs.
  - intros [= <- _]. exact Hs.
  - rewrite forEach_cons.
    destruct (body s x log) as [[s1|err] log1] eqn:Hb; [|discriminate].
    apply IH. eapply Hbody; eassumption.
Qed.

Lemma newVisit_hashes w output sums it log sums' log' :
  Forall (fun c => isLowerHash (Hash c) = true) sums ->
  newVisit w output sums it log = (Ok sums', log') ->
  Forall (fun c => isLowerHash (Hash c) = true) sums'.
Proof.
  intros Hs. unfold newVisit.
  destruct (wErr it); [discriminate|].
  destruct (wIsDir it); [intros [= <- _]; exact Hs|].
  unfold bind, lift, ret, hashing.
  destruct (isManifest w (wPath it) output) as [[|]|];
    [intros [= <- _]; exact Hs| |discriminate].
  destruct (generateMd5 w (wPath it)) as [hash|] eqn:Hgen; [|discriminate].
  intros [= <- _]. apply Forall_app. split; [exact Hs|].
  constructor; [|constructor]. simpl. eapply generateMd5_lower, Hgen.
Qed.

Lemma scanAndHash_hashes w source output sums :
  fst (scanAndHash w source output) = Ok sums ->
  Forall (fun c => isLowerHash (Hash c) = true) sums.
Proof.
  unfold scanAndHash.
  destruct (forEach _ _ _ _) as [r log] eqn:Hf. simpl. intros ->.
  eapply (forEach_inv (Forall (fun c => isLowerHash (Hash c) = true)));
    [|constructor|exact Hf].
  intros s x l s' l' Hs Hb. eapply newVisit_hashes; eassumption.
Qed.

Lemma recordedHash_isHash line :
  MatchString line = true -> isHash (recordedHash line) = true.
Proof.
  intros (h & rest & -> & Hh & _)%MatchString_spec.
  unfold recordedHash. pose proof Hh as [_ Hall]%andb_true_iff.
  rewrite (SplitPair_hash _ _ Hall). exact Hh.
Qed.

Lemma readFileToMap_hashes w path (m : gmap string Checksum) :
  readFileToMap w path = Ok m ->
  map_Forall (fun _ c => isHash (Hash c) = true) m.
Proof.
  intros Hm k c Hk. unfold readFileToMap in Hm.
  destruct (ReadFile w path) as [data|] eqn:Hr; [|discriminate].
  destruct (readFileToMap_lookup _ _ _ Hr) as (m' & Hm' & Hl).
  unfold readFileToMap in Hm'. rewrite Hr in Hm'.
  assert (m' = m) as -> by congruence.
  rewrite Hl in Hk. apply last_filter_true in Hk as [_ Hin].
  destruct (entriesOf_lines _ _ _ Hin) as (line & _ & Hline).
  apply entryOfLine_spec in Hline as [Hmatch ->]. simpl.
  apply recordedHash_isHash, Hmatch.
Qed.

Lemma deleteMissing_hashes w (sourceMap : gmap string bool)
  (targetMap : gmap string Checksum) :
  map_Forall (fun _ c => isHash (Hash c) = true) targetMap ->
  map_Forall (fun _ c => isHash (Hash c) = true)
             (deleteMissing w sourceMap targetMap).
Proof.
  unfold deleteMissing. generalize (rangeKeys w 0 targetMap). intros keys.
  revert targetMap. induction keys as [|key keys IH]; intros targetMap Ht;
    [exact Ht|].
  cbn [fold_left]. apply IH.
  destruct (sourceMap !! key); [exact Ht|]. apply map_Forall_delete, Ht.
Qed.

Lemma reconcile_hashes w deleteFlag (sourceMap : gmap string bool)
  (targetMap finalMap : gmap string Checksum) log log' :
  map_Forall (fun _ c => isHash (Hash c) = true) targetMap ->
  reconcile w deleteFlag sourceMap targetMap log = (Ok finalMap, log') ->
  map_Forall (fun _ c => isHash (Hash c) = true) finalMap.
Proof.
  intros Ht. unfold reconcile, insertNew.
  apply (forEach_inv (map_Forall (fun _ c => isHash (Hash c) = true))).
  - intros s key l s' l' Hs. unfold insertBody.
    destruct (s !! key); [intros [= <- _]; exact Hs|].
    unfold bind, hashing, ret.
    destruct (generateMd5 w key) as [hash|] eqn:Hgen; [|discriminate].
    intros [= <- _]. apply map_Forall_insert_2; [|exact Hs].
    simpl. eapply isLowerHash_isHash, generateMd5_lower, Hgen.
  - destruct deleteFlag; [apply deleteMissing_hashes|]; exact Ht.
Qed.

Lemma rangeValues_Forall {V} (P : V -> Prop) w loop (m : gmap string V) :
  map_Forall (fun _ v => P v) m -> Forall P (rangeValues w loop m).
Proof.
  intros Hm. apply List.Forall_forall. intros v Hv.
  apply list_elem_of_In, list_elem_of_omap in Hv as (k & _ & Hk).
  exact (Hm k v Hk).
Qed.

(** What a successful [writeFile] wrote re-parses, line for line, to the
    hashes it was given, when they are hashes and no written path holds a
    line feed. *)
Lemma writeFile_reparses w w' sums path :
  writes w w' sums path ->
  Forall (fun c => isHash (Hash c) = true) sums ->
  (forall c rel, In c sums ->
                 relPathOf w (filepath.Dir path) (Path c) = Ok rel ->
                 strings.Contains1 strings.LF rel = false) ->
  (forall c rel, In c sums ->
                 relPathOf w (filepath.Dir path) (Path c) = Ok rel ->
                 MatchString (Hash c +:+ " *" +:+ rel) = true)
  /\ exists entries,
       readFile w' path = Ok entries
       /\ map Hash entries = map Hash (sort.Sort lessEntry sums).
Proof.
  intros Hwrite Hhash Hlf. split.
  { intros c rel Hc Hrel. apply MatchString_spec. exists (Hash c), rel.
    split; [reflexivity|]. split; [|eapply Hlf; eassumption].
    rewrite List.Forall_forall in Hhash. apply Hhash, Hc. }
  destruct (writeFile_read _ _ _ _ Hwrite) as (data & Hser & Hrd).
  exists (entriesOf (filepath.Dir path) data).
  split; [apply readFile_entries, Hrd|].
  unfold serialize in Hser.
  destruct (writeEntries_text _ _ _ _ _ Hser) as (rels & Hall & ->).
  rewrite append_nil_l.
  set (sorted := sort.Sort lessEntry sums) in *.
  assert (Hsorted : forall c, In c sorted -> In c sums).
  { intros c Hc. apply list_elem_of_In. rewrite <- (Sort_perm lessEntry sums).
    apply list_elem_of_In. exact Hc. }
  assert (Hent : Forall (fun e => isHash e.1 = true
                                  /\ strings.Contains1 strings.LF e.2 = false)
                        (zip (map Hash sorted) rels)).
  { clear Hrd Hser. clearbody sorted. revert Hsorted.
    induction Hall as [|c rel sorted' rels' Hrel Hall IH]; intros Hsorted;
      [constructor|].
    cbn [map zip zip_with]. constructor.
    - simpl. split.
      + rewrite List.Forall_forall in Hhash. apply Hhash, Hsorted. left. reflexivity.
      + eapply Hlf; [|exact Hrel]. apply Hsorted. left. reflexivity.
    - apply IH. intros c' Hc'. apply Hsorted. right. exact Hc'. }
  destruct (entries_of_lines (filepath.Dir path) _ Hent) as [_ ->].
  apply fst_zip. rewrite length_map. apply Forall2_length in Hall. lia.
Qed.

Lemma newCommand_writes w ctx source output rest :
  Args ctx = source :: output :: rest ->
  exitCode (newCommand w ctx) = 0 ->
  exists sums,
    fst (scanAndHash w source output) = Ok sums
    /\ writes w (world (newCommand w ctx)) sums output
    /\ Forall (fun c => isLowerHash (Hash c) = true) sums.
Proof.
  intros Hargs. unfold newCommand. rewrite Hargs.
  pose proof (scanAndHash_hashes w source output) as Hh.
  destruct (scanAndHash w source output) as [[sums|err] log]; [|discriminate].
  destruct (writeFile w sums output) as [w'|err] eqn:Hw; [|discriminate].
  intros _. exists sums. simpl. auto.
Qed.

Lemma updateCommand_writes w ctx source target rest :
  Args ctx = source :: target :: rest ->
  exitCode (updateCommand w ctx) = 0 ->
  exists sums,
    writes w (world (updateCommand w ctx)) sums target
    /\ Forall (fun c => isHash (Hash c) = true) sums.
Proof.
  intros Hargs. unfold updateCommand. rewrite Hargs.
  destruct (scanSource w source target) as [[sourceMap|err] log0];
    [|discriminate].
  destruct (readFileToMap w target) as [targetMap|err] eqn:Hread;
    [|discriminate].
  destruct (reconcile w _ sourceMap targetMap log0) as [[finalMap|err] log]
    eqn:Hrec; [|discriminate].
  destruct (writeFile w (rangeValues w 2 finalMap) target) as [w'|err] eqn:Hw;
    [|discriminate].
  intros _. exists (rangeValues w 2 finalMap). simpl. split; [exact Hw|].
  apply rangeValues_Forall.
  eapply reconcile_hashes; [|exact Hrec].
  eapply readFileToMap_hashes, Hread.
Qed.

(** C10, as stated, fails: [new] on a directory whose file has a line feed
    in its name writes an entry line that does not match the pattern, and
    the manifest re-parses to two entries, neither with the path written and
    one with a hash that was never computed. *)
Lemma new_writes_unmatched_line :
  let out := newCommand lineFeedDisk
               {| Args := ["src"; "src/sums.md5"]; Flags := [] |} in
  exitCode out = 0
  /\ fst (scanAndHash lineFeedDisk "src" "src/sums.md5")
     = Ok [ {| Hash := "9dd4e461268c8034f5c8564e155c67a6"; Path := twoLineName |} ]
  /\ relPathOf lineFeedDisk (filepath.Dir "src/sums.md5") twoLineName
     = Ok ("a" +:+ nl +:+ "00000000000000000000000000000000 *b")
  /\ MatchString ("9dd4e461268c8034f5c8564e155c67a6" +:+ " *"
                  +:+ "a" +:+ nl +:+ "00000000000000000000000000000000 *b")
     = false
  /\ readFile (world out) "src/sums.md5"
     = Ok [ {| Hash := "9dd4e461268c8034f5c8564e155c67a6"; Path := "src/a" |};
            {| Hash := "00000000000000000000000000000000"; Path := "src/b" |} ].
Proof. vm_compute. auto 6. Qed.

(** C10, amended.  A digest that [generateMd5] returns is 32 lower-case
    hexadecimal characters; every entry [new] writes has such a hash and
    every entry [update] writes has a hash of 32 hexadecimal characters.
    Whenever [writeFile] succeeds on entries with such hashes and no path
    it writes holds a line feed, every line written matches the parser's
    pattern and the file re-parses to one entry per line written, in the
    order written, with the same hash. *)
Theorem written_lines_reparse :
  (forall w path hash,
      generateMd5 w path = Ok hash -> isLowerHash hash = true)
  /\ (forall w ctx source output rest,
         Args ctx = source :: output :: rest ->
         exitCode (newCommand w ctx) = 0 ->
         exists sums,
           writes w (world (newCommand w ctx)) sums output
           /\ Forall (fun c => isLowerHash (Hash c) = true) sums)
  /\ (forall w ctx source target rest,
         Args ctx = source :: target :: rest ->
         exitCode (updateCommand w ctx) = 0 ->
         exists sums,
           writes w (world (updateCommand w ctx)) sums target
           /\ Forall (fun c => isHash (Hash c) = true) sums)
  /\ (forall w w' sums path,
         writes w w' sums path ->
         Forall (fun c => isHash (Hash c) = true) sums ->
         (forall c rel, In c sums ->
                        relPathOf w (filepath.Dir path) (Path c) = Ok rel ->
                        strings.Contains1 strings.LF rel = false) ->
         (forall c rel, In c sums ->
                        relPathOf w (filepath.Dir path) (Path c) = Ok rel ->
                        MatchString (Hash c +:+ " *" +:+ rel) = true)
         /\ exists entries,
              readFile w' path = Ok entries
              /\ map Hash entries = map Hash (sort.Sort lessEntry sums)).
Proof.
  split; [exact generateMd5_lower|]. split.
  { intros w ctx source output rest Hargs Hexit.
    destruct (newCommand_writes _ _ _ _ _ Hargs Hexit) as (sums & _ & Hw & Hh).
    eauto. }
  split; [exact updateCommand_writes|].
  exact writeFile_reparses.
Qed.

Lemma written_lines_reparse_witness :
  let sums := [ {| Hash := "900150983CD24FB0D6963F7D28E17F72"; Path := "src/c.txt" |};
                {| Hash := "9dd4e461268c8034f5c8564e155c67a6"; Path := "src/a.txt" |} ] in
  exists w' entries,
    writes updateDisk w' sums "src/sums.md5"
    /\ readFile w' "src/sums.md5" = Ok entries
    /\ map Hash entries
       = ["9dd4e461268c8034f5c8564e155c67a6"; "900150983CD24FB0D6963F7D28E17F72"].
Proof.
  intros sums.
  assert (Hw : exists w', writes updateDisk w' sums "src/sums.md5")
    by (eexists; reflexivity).
  destruct Hw as [w' Hw]. exists w'.
  destruct (proj2 (proj2 (proj2 written_lines_reparse))
              updateDisk w' sums "src/sums.md5" Hw) as [_ (entries & Hr & Hh)].
  - repeat constructor.
  - intros c rel [<-|[<-|[]]]; vm_compute; intros [= <-]; reflexivity.
  - exists entries. split; [exact Hw|]. split; [exact Hr|]. exact Hh.
Defined.

(** ** Paths: splitting and joining at the separator *)

Lemma SplitByte_nonempty sep s : strings.SplitByte sep s <> [].
Proof.
  destruct s as [|c s]; [discriminate|]. cbn [strings.SplitByte].
  destruct (Ascii.eqb c sep); [discriminate|apply consHead_nonempty].
Qed.

Lemma consHead_app c l1 l2 :
  l1 <> [] -> strings.consHead c (l1 ++ l2) = strings.consHead c l1 ++ l2.
Proof. destruct l1; [contradiction|reflexivity]. Qed.

Lemma SplitByte_app_sep sep a b :
  strings.SplitByte sep (a +:+ String sep b)
  = strings.SplitByte sep a ++ strings.SplitByte sep b.
Proof.
  induction a as [|c a IH].
  - rewrite append_nil_l. cbn [strings.SplitByte].
    rewrite Ascii.eqb_refl. reflexivity.
  - rewrite append_cons. cbn [strings.SplitByte]. rewrite IH.
    destruct (Ascii.eqb c sep); [reflexivity|].
    apply consHead_app, SplitByte_nonempty.
Qed.

Lemma SplitByte_noSep sep s :
  strings.Contains1 sep s = false -> strings.SplitByte sep s = [s].
Proof.
  induction s as [|c s IH]; [reflexivity|].
  cbn [strings.Contains1 strings.SplitByte].
  intros [Hc Hs]%orb_false_iff. rewrite Hc, (IH Hs). reflexivity.
Qed.

Lemma Join_cons e e' elems sep :
  strings.Join (e :: e' :: elems) sep
  = e +:+ sep +:+ strings.Join (e' :: elems) sep.
Proof. reflexivity. Qed.

Lemma SplitByte_Join sep elems :
  elems <> [] ->
  Forall (fun e => strings.Contains1 sep e = false) elems ->
  strings.SplitByte sep (strings.Join elems (String sep "")) = elems.
Proof.
  intros Hne Hall. induction Hall as [|e elems He Hall IH]; [contradiction|].
  destruct elems as [|e' elems].
  - apply SplitByte_noSep, He.
  - rewrite Join_cons, append_cons, append_nil_l.
    rewrite SplitByte_app_sep, (SplitByte_noSep _ _ He), IH by discriminate.
    reflexivity.
Qed.

Lemma consHead_noSep sep c parts :
  Ascii.eqb c sep = false ->
  Forall (fun e => strings.Contains1 sep e = false) parts ->
  Forall (fun e => strings.Contains1 sep e = false) (strings.consHead c parts).
Proof.
  intros Hc Hparts. destruct Hparts as [|e rest He Hall]; simpl.
  - constructor; [|constructor]. simpl. rewrite Hc. reflexivity.
  - constructor; [|exact Hall]. simpl. rewrite Hc, He. reflexivity.
Qed.

Lemma SplitByte_elems sep s :
  Forall (fun e => strings.Contains1 sep e = false) (strings.SplitByte sep s).
Proof.
  induction s as [|c s IH]; [repeat constructor|].
  cbn [strings.SplitByte]. destruct (Ascii.eqb c sep) eqn:Hc.
  - constructor; [reflexivity|exact IH].
  - apply consHead_noSep; assumption.
Qed.

(** ** Paths: [Clean] *)

Lemma isName_inv e :
  isName e = true ->
  e <> "" /\ e <> "." /\ e <> ".."
  /\ strings.Contains1 filepath.Separator e = false.
Proof.
  unfold isName. rewrite !andb_true_iff, !negb_true_iff, !String.eqb_neq.
  tauto.
Qed.

Lemma cleanElem_name rooted out e :
  isName e = true -> filepath.cleanElem rooted out e = e :: out.
Proof.
  intros (H1 & H2 & H3 & _)%isName_inv. unfold filepath.cleanElem.
  apply String.eqb_neq in H1, H2, H3. rewrite H1, H2, H3. reflexivity.
Qed.

Lemma cleanElems_names rooted names : forall out,
  Forall (fun e => isName e = true) names ->
  fold_left (filepath.cleanElem rooted) names out = rev names ++ out.
Proof.
  induction names as [|e names IH]; intros out Hall; [reflexivity|].
  apply Forall_cons in Hall as [He Hall].
  cbn [fold_left rev]. rewrite (cleanElem_name _ _ _ He), IH by exact Hall.
  rewrite <- app_assoc. reflexivity.
Qed.

Lemma cleanElems_dots k : forall j,
  fold_left (filepath.cleanElem false) (repeat ".." k) (repeat ".." j)
  = repeat ".." (k + j).
Proof.
  induction k as [|k IH]; intros j; [reflexivity|].
  cbn [repeat fold_left].
  replace (filepath.cleanElem false (repeat ".." j) "..")
    with (repeat ".." (S j)) by (destruct j; reflexivity).
  rewrite IH. f_equal. lia.
Qed.

Lemma cleanElems_dots_nil k :
  fold_left (filepath.cleanElem false) (repeat ".." k) [] = repeat ".." k.
Proof.
  pose proof (cleanElems_dots k 0) as H. rewrite Nat.add_0_r in H. exact H.
Qed.

Lemma rev_repeat {A} (x : A) k : rev (repeat x k) = repeat x k.
Proof.
  induction k as [|k IH]; [reflexivity|].
  simpl. rewrite IH. symmetry. apply repeat_cons.
Qed.

(** Scanning the elements of a cleaned path rebuilds them. *)
Lemma cleanElems_cleanForm rooted elems :
  cleanForm rooted elems ->
  fold_left (filepath.cleanElem rooted) elems [] = rev elems.
Proof.
  intros (k & names & -> & Hnames & Hk).
  rewrite fold_left_app, rev_app_distr, rev_repeat.
  destruct rooted.
  - rewrite (Hk eq_refl). simpl. apply cleanElems_names, Hnames.
  - rewrite cleanElems_dots_nil. apply cleanElems_names, Hnames.
Qed.

Lemma cleanElem_stack rooted out e :
  strings.Contains1 filepath.Separator e = false ->
  cleanStack rooted out -> cleanStack rooted (filepath.cleanElem rooted out e).
Proof.
  intros He (k & names & -> & Hnames & Hk). unfold filepath.cleanElem.
  destruct (String.eqb_spec e "") as [->|H1]; [exists k, names; auto|].
  destruct (String.eqb_spec e ".") as [->|H2]; [exists k, names; auto|].
  cbn [orb]. destruct (String.eqb_spec e "..") as [->|H3].
  - destruct names as [|top names].
    + simpl. destruct k as [|k]; simpl.
      * destruct rooted; [exists 0, []; auto|].
        exists 1, []. split; [reflexivity|]. split; [constructor|discriminate].
      * exists (S (S k)), []. split; [reflexivity|].
        split; [constructor|]. intros Hr. specialize (Hk Hr). discriminate.
    + apply Forall_cons in Hnames as [Htop Hnames].
      pose proof (isName_inv _ Htop) as (_ & _ & Hdd & _).
      simpl. apply String.eqb_neq in Hdd. rewrite Hdd.
      exists k, names. auto.
  - exists k, (e :: names). split; [reflexivity|]. split; [|exact Hk].
    constructor; [|exact Hnames]. unfold isName.
    apply String.eqb_neq in H1, H2, H3. rewrite H1, H2, H3, He. reflexivity.
Qed.

Lemma cleanElems_form path : cleanForm (filepath.IsAbs path) (filepath.cleanElems path).
Proof.
  unfold filepath.cleanElems.
  assert (H : forall elems out,
             Forall (fun e => strings.Contains1 filepath.Separator e = false) elems ->
             cleanStack (filepath.IsAbs path) out ->
             cleanStack (filepath.IsAbs path)
               (fold_left (filepath.cleanElem (filepath.IsAbs path)) elems out)).
  { induction elems as [|e elems IH]; intros out Hall Hout; [exact Hout|].
    apply Forall_cons in Hall as [He Hall]. cbn [fold_left].
    apply IH; [exact Hall|]. apply cleanElem_stack; assumption. }
  destruct (H (strings.SplitByte filepath.Separator path) [])
    as (k & names & -> & Hnames & Hk).
  - apply SplitByte_elems.
  - exists 0, []. split; [reflexivity|]. split; [constructor|reflexivity].
  - exists k, (rev names). rewrite rev_app_distr, rev_repeat.
    split; [reflexivity|]. split; [|exact Hk].
    apply List.Forall_forall. intros e He. rewrite <- in_rev in He.
    rewrite List.Forall_forall in Hnames. apply Hnames, He.
Qed.

Lemma Clean_render path :
  path <> "" ->
  filepath.Clean path = render (filepath.IsAbs path) (filepath.cleanElems path).
Proof.
  intros Hne. unfold filepath.Clean, render.
  apply String.eqb_neq in Hne. rewrite Hne. reflexivity.
Qed.

Lemma cleanForm_elems rooted elems :
  cleanForm rooted elems -> Forall isElem elems.
Proof.
  intros (k & names & -> & Hnames & _). apply Forall_app. split.
  - apply List.Forall_forall. intros e He. apply repeat_spec in He as ->.
    repeat split; discriminate.
  - eapply Forall_impl; [exact Hnames|]. intros e He.
    apply isName_inv in He. unfold isElem. tauto.
Qed.

Lemma HasPrefix_nil s : strings.HasPrefix s "" = true.
Proof. destruct s; reflexivity. Qed.

Lemma IsAbs_cons c s : filepath.IsAbs (String c s) = Ascii.eqb c "/".
Proof.
  unfold filepath.IsAbs. cbn [strings.HasPrefix].
  rewrite HasPrefix_nil. apply andb_true_r.
Qed.

Lemma IsAbs_app e t : e <> "" -> filepath.IsAbs (e +:+ t) = filepath.IsAbs e.
Proof.
  destruct e as [|c e]; [contradiction|]. intros _.
  rewrite append_cons, !IsAbs_cons. reflexivity.
Qed.

Lemma IsAbs_elem e : isElem e -> filepath.IsAbs e = false.
Proof.
  intros (Hne & _ & Hsep). destruct e as [|c e]; [contradiction|].
  cbn [strings.Contains1] in Hsep. apply orb_false_iff in Hsep as [Hc _].
  rewrite IsAbs_cons. exact Hc.
Qed.

Lemma Join_head e elems sep :
  exists t, strings.Join (e :: elems) sep = e +:+ t.
Proof.
  destruct elems as [|e' elems].
  - exists "". symmetry. apply append_nil_r.
  - eexists. apply Join_cons.
Qed.

Lemma IsAbs_Join elems :
  Forall isElem elems -> filepath.IsAbs (strings.Join elems "/") = false.
Proof.
  intros Hall. destruct Hall as [|e rest He _]; [reflexivity|].
  destruct (Join_head e rest "/") as [t ->].
  rewrite IsAbs_app by apply He. apply IsAbs_elem, He.
Qed.

Lemma Join_nonempty elems :
  Forall isElem elems -> elems <> [] -> strings.Join elems "/" <> "".
Proof.
  intros Hall Hne. destruct Hall as [|e rest He _]; [contradiction|].
  destruct (Join_head e rest "/") as [t ->].
  destruct e; [destruct He as [[] _]; reflexivity|discriminate].
Qed.

Lemma slash_append s : "/" +:+ s = String "/" s.
Proof. reflexivity. Qed.

Lemma IsAbs_render rooted elems :
  Forall isElem elems -> filepath.IsAbs (render rooted elems) = rooted.
Proof.
  intros Hall. unfold render.
  destruct rooted; [rewrite slash_append; apply IsAbs_cons|].
  destruct elems as [|e elems]; [reflexivity|]. apply IsAbs_Join, Hall.
Qed.

Lemma render_nonempty rooted elems :
  Forall isElem elems -> render rooted elems <> "".
Proof.
  intros Hall. unfold render. destruct rooted; [discriminate|].
  destruct elems as [|e elems]; [discriminate|].
  apply Join_nonempty; [exact Hall|discriminate].
Qed.

Lemma isElem_noSep elems :
  Forall isElem elems ->
  Forall (fun e => strings.Contains1 filepath.Separator e = false) elems.
Proof.
  intros H. eapply Forall_impl; [exact H|]. intros e He. apply He.
Qed.

(** The text of a cleaned path splits into its elements, after an empty
    element for the root; the bare root and the bare [.] are their own
    cases. *)
Lemma SplitByte_render rooted elems :
  Forall isElem elems ->
  strings.SplitByte filepath.Separator (render rooted elems)
  = if rooted
    then EmptyString :: match elems with [] => [EmptyString] | _ => elems end
    else match elems with [] => ["."] | _ => elems end.
Proof.
  intros Hall. unfold render. destruct rooted.
  - change ("/" +:+ strings.Join elems "/")
      with ("" +:+ String filepath.Separator (strings.Join elems "/")).
    rewrite SplitByte_app_sep. simpl (strings.SplitByte _ ""). cbn [app].
    f_equal. destruct elems as [|e elems]; [reflexivity|].
    apply (SplitByte_Join filepath.Separator); [discriminate|].
    apply isElem_noSep, Hall.
  - destruct elems as [|e elems]; [reflexivity|].
    apply (SplitByte_Join filepath.Separator); [discriminate|].
    apply isElem_noSep, Hall.
Qed.

(** Scanning the text of a cleaned path from an empty stack. *)
Lemma scan_render rooted elems :
  cleanForm rooted elems ->
  fold_left (filepath.cleanElem rooted)
    (strings.SplitByte filepath.Separator (render rooted elems)) []
  = rev elems.
Proof.
  intros Hform. pose proof (cleanForm_elems _ _ Hform) as Hall.
  rewrite (SplitByte_render _ _ Hall).
  destruct rooted; destruct elems as [|e elems]; try reflexivity.
  - change (fold_left (filepath.cleanElem true) ("" :: e :: elems) [])
      with (fold_left (filepath.cleanElem true) (e :: elems) []).
    apply cleanElems_cleanForm, Hform.
  - apply cleanElems_cleanForm, Hform.
Qed.

Lemma cleanElems_render rooted elems :
  cleanForm rooted elems -> filepath.cleanElems (render rooted elems) = elems.
Proof.
  intros Hform. unfold filepath.cleanElems.
  rewrite (IsAbs_render _ _ (cleanForm_elems _ _ Hform)).
  rewrite (scan_render _ _ Hform). apply rev_involutive.
Qed.

Lemma Clean_render_id rooted elems :
  cleanForm rooted elems ->
  filepath.Clean (render rooted elems) = render rooted elems.
Proof.
  intros Hform. pose proof (cleanForm_elems _ _ Hform) as Hall.
  rewrite Clean_render by (apply render_nonempty, Hall).
  rewrite (IsAbs_render _ _ Hall), (cleanElems_render _ _ Hform). reflexivity.
Qed.

(** [Clean] is idempotent, and what it returns is the text of a cleaned
    form. *)
Lemma Clean_form path :
  exists elems,
    cleanForm (filepath.IsAbs (filepath.Clean path)) elems
    /\ filepath.Clean path = render (filepath.IsAbs (filepath.Clean path)) elems.
Proof.
  destruct (String.eqb_spec path "") as [->|Hne].
  - exists []. split; [|reflexivity].
    exists 0, []. split; [reflexivity|]. split; [constructor|reflexivity].
  - pose proof (cleanElems_form path) as Hform.
    exists (filepath.cleanElems path).
    rewrite (Clean_render _ Hne).
    rewrite (IsAbs_render _ _ (cleanForm_elems _ _ Hform)). auto.
Qed.

Lemma Clean_idem path : filepath.Clean (filepath.Clean path) = filepath.Clean path.
Proof.
  destruct (Clean_form path) as (elems & Hform & Heq).
  rewrite Heq at 1. rewrite (Clean_render_id _ _ Hform). symmetry. exact Heq.
Qed.

(** ** Paths: [Rel] and [Join] *)

Lemma names_cleanForm rooted names :
  Forall (fun e => isName e = true) names -> cleanForm rooted names.
Proof. intros H. exists 0, names. auto. Qed.

Lemma Clean_Join_render rooted elems rel :
  cleanForm rooted elems ->
  filepath.Clean (render rooted elems +:+ "/" +:+ rel)
  = render rooted
      (rev (fold_left (filepath.cleanElem rooted)
              (strings.SplitByte filepath.Separator rel) (rev elems))).
Proof.
  intros Hform. pose proof (cleanForm_elems _ _ Hform) as Hall.
  pose proof (render_nonempty rooted _ Hall) as Hne.
  rewrite Clean_render.
  2:{ destruct (render rooted elems); [contradiction|discriminate]. }
  rewrite (IsAbs_app _ _ Hne), (IsAbs_render _ _ Hall).
  unfold filepath.cleanElems.
  rewrite (IsAbs_app _ _ Hne), (IsAbs_render _ _ Hall).
  rewrite slash_append.
  rewrite (SplitByte_app_sep filepath.Separator), fold_left_app.
  rewrite (scan_render _ _ Hform). reflexivity.
Qed.

Lemma Join_render rooted elems rel :
  cleanForm rooted elems ->
  filepath.Join (render rooted elems) rel
  = render rooted
      (rev (fold_left (filepath.cleanElem rooted)
              (strings.SplitByte filepath.Separator rel) (rev elems))).
Proof.
  intros Hform. unfold filepath.Join.
  pose proof (render_nonempty rooted _ (cleanForm_elems _ _ Hform)) as Hne.
  apply String.eqb_neq in Hne. rewrite Hne.
  apply Clean_Join_render, Hform.
Qed.

(** [..] elements undo as many names. *)
Lemma cleanElems_pop rooted names : forall out,
  Forall (fun e => isName e = true) names ->
  fold_left (filepath.cleanElem rooted) (repeat ".." (length names))
    (names ++ out)
  = out.
Proof.
  induction names as [|e names IH]; intros out Hall; [reflexivity|].
  apply Forall_cons in Hall as [He Hall].
  cbn [length repeat fold_left app].
  pose proof (isName_inv _ He) as (_ & _ & Hdd & _).
  apply String.eqb_neq in Hdd.
  replace (filepath.cleanElem rooted (e :: names ++ out) "..")
    with (names ++ out) by (unfold filepath.cleanElem; simpl; rewrite Hdd; reflexivity).
  apply IH, Hall.
Qed.

Lemma dropCommon_spec bs : forall ts bs' ts',
  filepath.dropCommon bs ts = (bs', ts') ->
  exists cs, bs = cs ++ bs' /\ ts = cs ++ ts'.
Proof.
  induction bs as [|b bs IH]; intros ts bs' ts'.
  - intros [= <- <-]. exists []. auto.
  - destruct ts as [|t ts]; [intros [= <- <-]; exists []; auto|].
    cbn [filepath.dropCommon].
    destruct (String.eqb_spec t b) as [->|Hne].
    + intros H. destruct (IH _ _ _ H) as (cs & -> & ->).
      exists (b :: cs). auto.
    + intros [= <- <-]. exists []. auto.
Qed.

Lemma render_dot rooted elems :
  Forall isElem elems -> render rooted elems = "." ->
  rooted = false /\ elems = [].
Proof.
  intros Hall Heq. pose proof (SplitByte_render rooted _ Hall) as Hs.
  rewrite Heq in Hs. destruct rooted; [discriminate|].
  destruct elems as [|e elems]; [auto|].
  injection Hs as <- _. apply Forall_cons in Hall as [(_ & [] & _) _].
  reflexivity.
Qed.

(** The elements [Rel] walks in a cleaned base, where [.] counts as
    empty. *)
Lemma relElems_base rooted elems :
  Forall isElem elems ->
  filepath.relElems
    (if String.eqb (render rooted elems) "." then "" else render rooted elems)
  = (if rooted then [EmptyString] else []) ++ elems.
Proof.
  intros Hall. destruct (String.eqb_spec (render rooted elems) ".") as [Hd|Hd].
  - destruct (render_dot _ _ Hall Hd) as [-> ->]. reflexivity.
  - unfold filepath.relElems.
    pose proof (render_nonempty rooted _ Hall) as Hne.
    apply String.eqb_neq in Hne. rewrite Hne.
    rewrite (SplitByte_render _ _ Hall).
    destruct rooted.
    + destruct elems as [|e elems]; [reflexivity|].
      destruct (String.eqb_spec (render true (e :: elems)) "/") as [Hs|_];
        [|reflexivity].
      exfalso. unfold render in Hs. rewrite slash_append in Hs.
      apply (Join_nonempty (e :: elems) Hall); [discriminate|].
      injection Hs as Hs. exact Hs.
    + destruct elems as [|e elems]; [contradiction|].
      destruct (String.eqb_spec (render false (e :: elems)) "/") as [Hs|_];
        [|reflexivity].
      exfalso. pose proof (IsAbs_render false _ Hall) as Ha.
      rewrite Hs in Ha. discriminate.
Qed.

Lemma relElems_targ rooted elems :
  Forall isElem elems ->
  filepath.relElems (render rooted elems)
  = (if rooted then [EmptyString] else []) ++ targElems rooted elems.
Proof.
  intros Hall. unfold filepath.relElems.
  pose proof (render_nonempty rooted _ Hall) as Hne.
  apply String.eqb_neq in Hne. rewrite Hne.
  rewrite (SplitByte_render _ _ Hall). unfold targElems.
  destruct rooted.
  - destruct elems as [|e elems]; [reflexivity|].
    destruct (String.eqb_spec (render true (e :: elems)) "/") as [Hs|_];
      [|reflexivity].
    exfalso. unfold render in Hs. rewrite slash_append in Hs.
    apply (Join_nonempty (e :: elems) Hall); [discriminate|].
    injection Hs as Hs. exact Hs.
  - destruct elems as [|e elems]; [reflexivity|].
    destruct (String.eqb_spec (render false (e :: elems)) "/") as [Hs|_];
      [|reflexivity].
    exfalso. pose proof (IsAbs_render false _ Hall) as Ha.
    rewrite Hs in Ha. discriminate.
Qed.

Lemma targElems_eq rooted ts bs :
  Forall isElem ts -> Forall isElem bs ->
  targElems rooted ts = bs -> ts = bs.
Proof.
  intros Hts Hbs. unfold targElems. destruct rooted; [auto|].
  destruct ts as [|t ts]; [|auto]. intros <-.
  apply Forall_cons in Hbs as [(_ & [] & _) _]. reflexivity.
Qed.

Lemma targElems_plain rooted ts :
  Forall isElem ts ->
  Forall (fun e => e <> "" /\ strings.Contains1 filepath.Separator e = false)
         (targElems rooted ts).
Proof.
  intros Hts. unfold targElems.
  assert (H : Forall (fun e => e <> ""
                               /\ strings.Contains1 filepath.Separator e = false) ts).
  { eapply Forall_impl; [exact Hts|]. intros e (H1 & _ & H3). auto. }
  destruct rooted; [exact H|]. destruct ts; [|exact H].
  constructor; [|constructor]. split; [discriminate|reflexivity].
Qed.

Lemma HasPrefix_render rooted elems :
  Forall isElem elems ->
  strings.HasPrefix
    (if String.eqb (render rooted elems) "." then "" else render rooted elems)
    "/"
  = rooted.
Proof.
  intros Hall. destruct (String.eqb_spec (render rooted elems) ".") as [Hd|_].
  - destruct (render_dot _ _ Hall Hd) as [-> _]. reflexivity.
  - apply (IsAbs_render _ _ Hall).
Qed.

Lemma dropCommon_root rooted bs ts :
  filepath.dropCommon ((if rooted : bool then [EmptyString] else []) ++ bs)
                      ((if rooted then [EmptyString] else []) ++ ts)
  = filepath.dropCommon bs ts.
Proof. destruct rooted; reflexivity. Qed.

Lemma map_dots {A} (l : list A) :
  map (fun _ => "..") l = repeat ".." (length l).
Proof. induction l as [|x l IH]; [reflexivity|]. simpl. rewrite IH. reflexivity. Qed.

Lemma leadingDots_form k names :
  Forall (fun e => isName e = true) names ->
  leadingDots (repeat ".." k ++ names) = k.
Proof.
  intros Hnames. induction k as [|k IH]; simpl.
  - destruct names as [|e names]; [reflexivity|].
    apply Forall_cons in Hnames as [He _].
    apply isName_inv in He as (_ & _ & Hdd & _).
    apply String.eqb_neq in Hdd. simpl. rewrite Hdd. reflexivity.
  - rewrite IH. reflexivity.
Qed.

Lemma climbs_render rooted elems :
  cleanForm rooted elems -> climbs (render rooted elems) = leadingDots elems.
Proof.
  intros Hform. unfold climbs.
  rewrite (SplitByte_render _ _ (cleanForm_elems _ _ Hform)).
  destruct Hform as (k & names & -> & Hnames & Hk).
  destruct rooted.
  - rewrite (Hk eq_refl). simpl. symmetry. apply (leadingDots_form 0 _ Hnames).
  - destruct (repeat ".." k ++ names); reflexivity.
Qed.

Lemma cleanForm_prefix rooted l1 l2 :
  cleanForm rooted (l1 ++ l2) -> cleanForm rooted l1.
Proof.
  intros (k & names & Heq & Hnames & Hk). revert l1 Heq Hk.
  induction k as [|k IH]; intros l1 Heq Hk.
  - simpl in Heq. subst names. apply Forall_app in Hnames as [H1 _].
    exists 0, l1. auto.
  - destruct l1 as [|x l1].
    + exists 0, []. split; [reflexivity|]. split; [constructor|reflexivity].
    + simpl in Heq. injection Heq as -> Heq.
      destruct (IH l1 Heq) as (k1 & n1 & -> & Hn1 & _).
      { intros Hr. specialize (Hk Hr). discriminate. }
      exists (S k1), n1. split; [reflexivity|]. split; [exact Hn1|].
      intros Hr. specialize (Hk Hr). discriminate.
Qed.

Lemma dropCommon_dots k bs ts :
  filepath.dropCommon (repeat ".." k ++ bs) (repeat ".." k ++ ts)
  = filepath.dropCommon bs ts.
Proof. induction k as [|k IH]; [reflexivity|]. simpl. exact IH. Qed.

(** When the base starts with no more [..] than the target, what is left
    of the base after the common prefix are names. *)
Lemma dropCommon_names rooted bs ts bs' ts' :
  cleanForm rooted bs -> cleanForm rooted ts ->
  leadingDots bs <= leadingDots ts ->
  filepath.dropCommon bs (targElems rooted ts) = (bs', ts') ->
  Forall (fun e => isName e = true) bs'.
Proof.
  intros (kb & nb & -> & Hnb & Hkb) (kt & nt & -> & Hnt & Hkt).
  rewrite !leadingDots_form by assumption. intros Hle.
  destruct kb as [|kb].
  - simpl. intros Hd. destruct (dropCommon_spec _ _ _ _ Hd) as (cs & -> & _).
    apply Forall_app in Hnb. tauto.
  - assert (Hts : targElems rooted (repeat ".." kt ++ nt) = repeat ".." kt ++ nt).
    { unfold targElems. destruct rooted; [reflexivity|].
      destruct kt; [lia|reflexivity]. }
    rewrite Hts. replace kt with (S kb + (kt - S kb)) by lia.
    rewrite repeat_app, <- app_assoc, dropCommon_dots.
    intros Hd. destruct (dropCommon_spec _ _ _ _ Hd) as (cs & -> & _).
    apply Forall_app in Hnb. tauto.
Qed.

(** What [Rel] returns from a cleaned base to a cleaned target of the same
    kind that starts with at least as many [..]: one [..] for each element
    of the base after the common prefix, then the rest of the target. *)
Lemma Rel_value rooted bs ts :
  cleanForm rooted bs ->
  cleanForm rooted ts ->
  leadingDots bs <= leadingDots ts ->
  render rooted ts <> render rooted bs ->
  exists cs bs' ts',
    bs = cs ++ bs'
    /\ targElems rooted ts = cs ++ ts'
    /\ Forall (fun e => isName e = true) bs'
    /\ repeat ".." (length bs') ++ ts' <> []
    /\ filepath.Rel (render rooted bs) (render rooted ts)
       = Ok (strings.Join (repeat ".." (length bs') ++ ts') "/").
Proof.
  intros Hbf Hts Hle Hne.
  pose proof (cleanForm_elems _ _ Hbf) as Hbe.
  pose proof (cleanForm_elems _ _ Hts) as Hte.
  unfold filepath.Rel.
  rewrite (Clean_render_id _ _ Hbf), (Clean_render_id _ _ Hts).
  apply String.eqb_neq in Hne. rewrite Hne.
  rewrite (HasPrefix_render _ _ Hbe).
  change (strings.HasPrefix (render rooted ts) "/")
    with (filepath.IsAbs (render rooted ts)).
  rewrite (IsAbs_render _ _ Hte), Bool.eqb_reflx. cbn [negb].
  rewrite (relElems_base _ _ Hbe), (relElems_targ _ _ Hte), dropCommon_root.
  destruct (filepath.dropCommon bs (targElems rooted ts)) as [bs' ts'] eqn:Hd.
  pose proof (dropCommon_names _ _ _ _ _ Hbf Hts Hle Hd) as Hnames.
  destruct (dropCommon_spec _ _ _ _ Hd) as (cs & Hbs' & Hts').
  exists cs, bs', ts'. split; [exact Hbs'|]. split; [exact Hts'|].
  split; [exact Hnames|].
  destruct bs' as [|b bs'].
  - split; [|reflexivity]. simpl. intros ->.
    rewrite app_nil_r in Hbs', Hts'. subst cs.
    apply (targElems_eq _ _ _ Hte Hbe) in Hts'. subst ts.
    apply String.eqb_neq in Hne. contradiction.
  - split; [discriminate|].
    assert (Hb : String.eqb b ".." = false).
    { apply Forall_cons in Hnames as [Hb _].
      apply isName_inv in Hb as (_ & _ & Hb & _).
      apply String.eqb_neq. exact Hb. }
    destruct ts' as [|t ts'].
    + rewrite map_dots, app_nil_r. reflexivity.
    + rewrite Hb, map_dots. reflexivity.
Qed.

(** Joining what [Rel] returns back onto the base gives the target. *)
Lemma Join_Rel rooted bs ts :
  cleanForm rooted bs ->
  cleanForm rooted ts ->
  leadingDots bs <= leadingDots ts ->
  exists rel,
    filepath.Rel (render rooted bs) (render rooted ts) = Ok rel
    /\ filepath.IsAbs rel = false
    /\ filepath.Join (render rooted bs) rel = render rooted ts
    /\ relShape rooted ts rel.
Proof.
  intros Hbf Hts Hle.
  pose proof (cleanForm_elems _ _ Hbf) as Hbe.
  pose proof (cleanForm_elems _ _ Hts) as Hte.
  destruct (String.eqb_spec (render rooted ts) (render rooted bs)) as [Heq|Hne].
  - exists ".". split.
    { unfold filepath.Rel.
      rewrite (Clean_render_id _ _ Hbf), (Clean_render_id _ _ Hts), Heq.
      rewrite String.eqb_refl. reflexivity. }
    split; [reflexivity|]. split; [|left; reflexivity].
    rewrite (Join_render _ _ _ Hbf), Heq.
    change (strings.SplitByte filepath.Separator ".") with ["."].
    cbn [fold_left].
    change (filepath.cleanElem rooted (rev bs) ".") with (rev bs).
    rewrite rev_involutive. reflexivity.
  - destruct (Rel_value _ _ _ Hbf Hts Hle Hne)
      as (cs & bs' & ts' & Hbs' & Hts' & Hnames & Hnil & Hrel).
    eexists. split; [exact Hrel|].
    pose proof (targElems_plain rooted _ Hte) as Hplain.
    rewrite Hts' in Hplain. apply Forall_app in Hplain as [_ Hplain].
    assert (Hall : Forall (fun e => e <> ""
                                    /\ strings.Contains1 filepath.Separator e = false)
                          (repeat ".." (length bs') ++ ts')).
    { apply Forall_app. split; [|exact Hplain].
      apply List.Forall_forall. intros e He. apply repeat_spec in He as ->.
      split; [discriminate|reflexivity]. }
    split.
    { destruct (repeat ".." (length bs') ++ ts') as [|x rest]; [contradiction|].
      apply Forall_cons in Hall as [[Hx Hsep] _].
      destruct (Join_head x rest "/") as [t ->].
      rewrite (IsAbs_app _ _ Hx).
      destruct x as [|c x]; [contradiction|].
      cbn [strings.Contains1] in Hsep. apply orb_false_iff in Hsep as [Hc _].
      rewrite IsAbs_cons. exact Hc. }
    split; [|right; exists (length bs'), cs, ts'; auto].
    rewrite (Join_render _ _ _ Hbf).
    assert (Hsplit :
              strings.SplitByte filepath.Separator
                (strings.Join (repeat ".." (length bs') ++ ts') "/")
              = repeat ".." (length bs') ++ ts').
    { apply (SplitByte_Join filepath.Separator); [exact Hnil|].
      eapply Forall_impl; [exact Hall|]. intros e He. apply He. }
    rewrite Hsplit.
    f_equal. rewrite fold_left_app.
    rewrite Hbs', rev_app_distr.
    rewrite <- (length_rev bs').
    assert (Hrb : Forall (fun e => isName e = true) (rev bs'))
      by (apply Forall_rev; exact Hnames).
    rewrite (cleanElems_pop _ _ _ Hrb).
    assert (Hcs : fold_left (filepath.cleanElem rooted) cs [] = rev cs).
    { apply cleanElems_cleanForm. rewrite Hbs' in Hbf.
      eapply cleanForm_prefix, Hbf. }
    unfold targElems in Hts'.
    assert (Hcase : ts = cs ++ ts' \/ (ts = [] /\ cs = [] /\ ts' = ["."])).
    { destruct rooted; [left; exact Hts'|].
      destruct ts as [|t ts]; [right|left; exact Hts'].
      split; [reflexivity|].
      destruct cs as [|c cs]; [split; [reflexivity|]; symmetry; exact Hts'|].
      injection Hts' as <- _. rewrite Hbs' in Hbe.
      apply Forall_cons in Hbe as [(_ & [] & _) _]. reflexivity. }
    destruct Hcase as [->|(-> & -> & ->)].
    + pose proof (cleanElems_cleanForm _ _ Hts) as Hfold.
      rewrite fold_left_app, Hcs in Hfold.
      rewrite Hfold. apply rev_involutive.
    + reflexivity.
Qed.

(** From a relative base to an absolute target [Rel] fails. *)
Lemma Rel_mixed bs ts :
  cleanForm false bs -> cleanForm true ts ->
  isOk (filepath.Rel (render false bs) (render true ts)) = false.
Proof.
  intros Hbf Hts.
  pose proof (cleanForm_elems _ _ Hbf) as Hbe.
  pose proof (cleanForm_elems _ _ Hts) as Hte.
  unfold filepath.Rel.
  rewrite (Clean_render_id _ _ Hbf), (Clean_render_id _ _ Hts).
  destruct (String.eqb_spec (render true ts) (render false bs)) as [Heq|_].
  { pose proof (IsAbs_render true _ Hte) as H1.
    rewrite Heq, (IsAbs_render false _ Hbe) in H1. discriminate. }
  rewrite (HasPrefix_render _ _ Hbe).
  change (strings.HasPrefix (render true ts) "/")
    with (filepath.IsAbs (render true ts)).
  rewrite (IsAbs_render _ _ Hte). reflexivity.
Qed.

(** ** What the written path keeps of the entry's path *)

Lemma existsb_false {A} (f : A -> bool) l :
  existsb f l = false <-> Forall (fun x => f x = false) l.
Proof.
  induction l as [|x l IH]; simpl.
  - split; [constructor|reflexivity].
  - rewrite orb_false_iff, IH, Forall_cons. reflexivity.
Qed.

Lemma Contains1_Join c elems :
  Ascii.eqb "/" c = false ->
  strings.Contains1 c (strings.Join elems "/")
  = existsb (strings.Contains1 c) elems.
Proof.
  intros Hc. induction elems as [|e elems IH]; [reflexivity|].
  destruct elems as [|e' elems].
  - simpl. rewrite orb_false_r. reflexivity.
  - rewrite Join_cons, !Contains1_app, IH. cbn [existsb strings.Contains1].
    rewrite Hc. reflexivity.
Qed.

Lemma Contains1_render c rooted elems :
  Ascii.eqb "/" c = false -> Ascii.eqb "." c = false ->
  strings.Contains1 c (render rooted elems)
  = existsb (strings.Contains1 c) elems.
Proof.
  intros Hs Hd. unfold render. destruct rooted.
  - rewrite Contains1_app, (Contains1_Join _ _ Hs).
    cbn [strings.Contains1]. rewrite Hs. reflexivity.
  - destruct elems as [|e elems]; [|apply Contains1_Join, Hs].
    cbn [strings.Contains1 existsb]. rewrite Hd. reflexivity.
Qed.

Lemma HasPrefix_one_app x sep y b :
  Ascii.eqb sep b = false ->
  strings.HasPrefix (x +:+ String sep y) (String b "")
  = strings.HasPrefix x (String b "").
Proof.
  intros Hb. destruct x as [|d x].
  - rewrite append_nil_l. cbn [strings.HasPrefix]. rewrite Hb. reflexivity.
  - rewrite append_cons. cbn [strings.HasPrefix]. rewrite !HasPrefix_nil.
    reflexivity.
Qed.

Lemma Contains2_app_sep a b sep x y :
  Ascii.eqb sep a = false -> Ascii.eqb sep b = false ->
  strings.Contains2 a b (x +:+ String sep y)
  = strings.Contains2 a b x || strings.Contains2 a b y.
Proof.
  intros Ha Hb. induction x as [|c x IH].
  - rewrite append_nil_l. cbn [strings.Contains2 strings.HasPrefix].
    rewrite Ha. reflexivity.
  - rewrite append_cons. cbn [strings.Contains2]. rewrite IH, orb_assoc.
    f_equal. f_equal. cbn [strings.HasPrefix]. f_equal.
    apply HasPrefix_one_app, Hb.
Qed.

Lemma Contains2_Join a b elems :
  Ascii.eqb "/" a = false -> Ascii.eqb "/" b = false ->
  strings.Contains2 a b (strings.Join elems "/")
  = existsb (strings.Contains2 a b) elems.
Proof.
  intros Ha Hb. induction elems as [|e elems IH]; [reflexivity|].
  destruct elems as [|e' elems].
  - simpl. rewrite orb_false_r. reflexivity.
  - rewrite Join_cons, slash_append, (Contains2_app_sep _ _ _ _ _ Ha Hb), IH.
    reflexivity.
Qed.

Lemma Contains2_render a b rooted elems :
  Ascii.eqb "/" a = false -> Ascii.eqb "/" b = false ->
  strings.Contains2 a b (render rooted elems)
  = existsb (strings.Contains2 a b) elems.
Proof.
  intros Ha Hb. unfold render. destruct rooted.
  - change ("/" +:+ strings.Join elems "/")
      with ("" +:+ String "/" (strings.Join elems "/")).
    rewrite (Contains2_app_sep _ _ _ _ _ Ha Hb), (Contains2_Join _ _ _ Ha Hb).
    reflexivity.
  - destruct elems as [|e elems]; [|apply Contains2_Join; assumption].
    cbn [strings.Contains2 strings.HasPrefix existsb].
    rewrite andb_false_r. reflexivity.
Qed.

Lemma Join_last pre l sep :
  exists P, strings.Join (pre ++ [l]) sep = P +:+ l.
Proof.
  induction pre as [|e pre [P IH]].
  - exists "". reflexivity.
  - destruct pre as [|e' pre].
    + exists (e +:+ sep). cbn [app]. rewrite Join_cons, append_assoc. reflexivity.
    + exists (e +:+ sep +:+ P). cbn [app] in *.
      rewrite Join_cons, IH, !append_assoc. reflexivity.
Qed.

Lemma chompCR_suffix P l :
  l <> "" -> chompCR (P +:+ l) = P +:+ l <-> chompCR l = l.
Proof.
  intros Hl. rewrite (chompCR_app _ _ Hl). split.
  - apply String.app_inj.
  - intros ->. reflexivity.
Qed.

Lemma render_last rooted pre l :
  exists P, render rooted (pre ++ [l]) = P +:+ l.
Proof.
  destruct (Join_last pre l "/") as [P HP]. unfold render.
  destruct rooted.
  - exists ("/" +:+ P). rewrite HP, append_assoc. reflexivity.
  - exists P. destruct (pre ++ [l]) eqn:He; [destruct pre; discriminate|].
    exact HP.
Qed.

Lemma targElems_Forall (P : string -> Prop) rooted ts :
  P "." -> Forall P ts -> Forall P (targElems rooted ts).
Proof.
  intros Hdot Hts. unfold targElems. destruct rooted; [exact Hts|].
  destruct ts; [repeat constructor; exact Hdot|exact Hts].
Qed.

(** The written path has no line feed, no [ *] and no final carriage
    return when the entry's path has none. *)
Lemma relShape_keeps rooted ts rel :
  cleanForm rooted ts ->
  relShape rooted ts rel ->
  (strings.Contains1 strings.LF (render rooted ts) = false ->
   strings.Contains1 strings.LF rel = false)
  /\ (strings.Contains2 " " "*" (render rooted ts) = false ->
      strings.Contains2 " " "*" rel = false)
  /\ (chompCR (render rooted ts) = render rooted ts -> chompCR rel = rel).
Proof.
  intros Hform [->|(n & cs & ts' & Hsplit & Hnil & ->)]; [auto|].
  pose proof (cleanForm_elems _ _ Hform) as Hall.
  split; [|split].
  - rewrite Contains1_render, Contains1_Join by reflexivity.
    rewrite !existsb_false. intros Hts.
    apply Forall_app. split.
    + apply List.Forall_forall. intros e He. apply repeat_spec in He as ->.
      reflexivity.
    + apply (targElems_Forall _ rooted) in Hts; [|reflexivity].
      rewrite Hsplit in Hts. apply Forall_app in Hts. tauto.
  - rewrite Contains2_render, Contains2_Join by reflexivity.
    rewrite !existsb_false. intros Hts.
    apply Forall_app. split.
    + apply List.Forall_forall. intros e He. apply repeat_spec in He as ->.
      reflexivity.
    + apply (targElems_Forall _ rooted) in Hts; [|reflexivity].
      rewrite Hsplit in Hts. apply Forall_app in Hts. tauto.
  - intros Hpath. destruct ts' as [|t ts'] using rev_ind.
    + rewrite app_nil_r in *. destruct n as [|n]; [contradiction|].
      change (repeat ".." (S n)) with (".." :: repeat ".." n).
      rewrite repeat_cons.
      destruct (Join_last (repeat ".." n) ".." "/") as [P ->].
      apply chompCR_suffix; [discriminate|reflexivity].
    + clear IHts'. rewrite app_assoc.
      destruct (Join_last (repeat ".." n ++ ts') t "/") as [P ->].
      assert (Ht : t <> "" /\ chompCR t = t).
      { rewrite app_assoc in Hsplit. unfold targElems in Hsplit.
        assert (Hcase : ts = (cs ++ ts') ++ [t] \/ t = ".").
        { destruct rooted; [left; exact Hsplit|].
          destruct ts as [|t0 ts]; [right|left; exact Hsplit].
          destruct (cs ++ ts') as [|x l]; [injection Hsplit as <-; reflexivity|].
          destruct l; discriminate. }
        destruct Hcase as [->| ->]; [|split; [discriminate|reflexivity]].
        apply Forall_app in Hall as [_ Ht].
        apply Forall_cons in Ht as [(Hne & _) _]. split; [exact Hne|].
        destruct (render_last rooted (cs ++ ts') t) as [P' HP'].
        rewrite HP' in Hpath. apply (chompCR_suffix _ _ Hne) in Hpath.
        exact Hpath. }
      destruct Ht as [Hne Hcr]. apply chompCR_suffix; assumption.
Qed.

(** ** Round trip *)

Lemma SplitPair_noSep a b s :
  strings.Contains2 a b s = false -> strings.SplitPair a b s = [s].
Proof.
  induction s as [|c s IH]; [reflexivity|].
  cbn [strings.Contains2]. intros [Hp Hs]%orb_false_iff.
  rewrite SplitPair_cons. destruct s as [|d s]; [reflexivity|].
  cbn [strings.HasPrefix] in Hp. rewrite HasPrefix_nil, andb_true_r in Hp.
  rewrite Hp, (IH Hs). reflexivity.
Qed.

Lemma entryOfLine_written dir h rel :
  isHash h = true ->
  strings.Contains1 strings.LF rel = false ->
  strings.Contains2 " " "*" rel = false ->
  entryOfLine dir (h +:+ " *" +:+ rel)
  = Some {| Hash := h; Path := resolve dir rel |}.
Proof.
  intros Hh Hlf Hstar. apply entryOfLine_spec.
  split; [apply MatchString_spec; eauto|].
  unfold recordedHash, recordedPath.
  pose proof Hh as [_ Hall]%andb_true_iff.
  rewrite (SplitPair_hash _ _ Hall), (SplitPair_noSep _ _ _ Hstar).
  reflexivity.
Qed.

Lemma entriesOf_written dir sums rels :
  Forall2 (writtenBack dir) sums rels ->
  entriesOf dir (manifestText (zip (map Hash sums) rels)) = sums.
Proof.
  intros Hall. unfold entriesOf. rewrite manifestLines_text.
  2:{ induction Hall as [|c rel sums rels (Hh & Hlf & _) _ IH]; [constructor|].
      cbn [map zip zip_with]. constructor; [|exact IH]. simpl.
      split; [|exact Hlf]. apply andb_true_iff in Hh. tauto. }
  rewrite omap_app. simpl (omap _ [""]). rewrite app_nil_r.
  induction Hall as [|c rel sums rels (Hh & Hlf & Hstar & Hcr & Hres) _ IH];
    [reflexivity|].
  cbn [map zip zip_with]. simpl. rewrite Hcr.
  rewrite (entryOfLine_written dir _ _ Hh Hlf Hstar), Hres.
  simpl. f_equal; [destruct c; reflexivity|exact IH].
Qed.

Lemma last_filter_unique {A B} (f : A -> B) (eqb : B -> B -> bool) l c :
  (forall x y, eqb x y = true <-> x = y) ->
  NoDup (map f l) -> In c l ->
  last (List.filter (fun x => eqb (f x) (f c)) l) = Some c.
Proof.
  intros Heqb Hnd Hc.
  destruct (last (List.filter (fun x => eqb (f x) (f c)) l)) as [c'|] eqn:Hl.
  - apply last_filter_true in Hl as [Hf Hin]. apply Heqb in Hf.
    f_equal. eapply NoDup_map_inj; eassumption.
  - apply last_None in Hl.
    assert (Hin : In c (List.filter (fun x => eqb (f x) (f c)) l)).
    { apply filter_In. split; [exact Hc|]. apply Heqb. reflexivity. }
    rewrite Hl in Hin. contradiction.
Qed.

(** The path written for a cleaned entry path that is absolute, or relative
    like the manifest's directory and starting with at least as many [..]:
    it resolves back to the entry path, and it has no line feed, no [ *]
    and no final carriage return when the entry path has none. *)
Lemma relPathOf_back w path q :
  filepath.Clean q = q ->
  filepath.IsAbs q = true
  \/ (filepath.IsAbs (filepath.Dir path) = false
      /\ climbs (filepath.Dir path) <= climbs q) ->
  exists rel,
    relPathOf w (filepath.Dir path) q = Ok rel
    /\ resolve (filepath.Dir path) rel = q
    /\ (strings.Contains1 strings.LF q = false ->
        strings.Contains1 strings.LF rel = false)
    /\ (strings.Contains2 " " "*" q = false ->
        strings.Contains2 " " "*" rel = false)
    /\ (chompCR q = q -> chompCR rel = rel).
Proof.
  intros Hclean Hkind.
  destruct (Clean_form (filepath.uptoLastSep path)) as (bs & Hbs & Hdir).
  fold (filepath.Dir path) in Hbs, Hdir.
  destruct (Clean_form q) as (ts & Hts & Hq).
  rewrite Hclean in Hq, Hts.
  remember (filepath.IsAbs q) as rq eqn:Hrq.
  remember (filepath.IsAbs (filepath.Dir path)) as rd eqn:Hrd.
  assert (Hcases : (rq = rd /\ leadingDots bs <= leadingDots ts)
                   \/ (rq = true /\ rd = false)).
  { destruct Hkind as [->|[-> Hle]].
    - destruct rd; [left|right; auto]. split; [reflexivity|].
      destruct Hbs as (kb & nb & -> & Hnb & Hkb).
      rewrite (Hkb eq_refl), (leadingDots_form 0 _ Hnb). lia.
    - destruct rq; [right; auto|left]. split; [reflexivity|].
      rewrite Hdir, Hq in Hle.
      rewrite !climbs_render in Hle by assumption. exact Hle. }
  destruct Hcases as [[-> Hle]|[-> ->]].
  - destruct (Join_Rel rd bs ts Hbs Hts Hle)
      as (rel & Hrel & Hrabs & Hjoin & Hshape).
    rewrite <- Hdir, <- Hq in Hrel, Hjoin.
    exists rel. unfold relPathOf, resolve. rewrite Hrel, Hrabs.
    split; [reflexivity|]. split; [exact Hjoin|].
    rewrite Hq. apply (relShape_keeps _ _ _ Hts Hshape).
  - pose proof (Rel_mixed _ _ Hbs Hts) as Herr.
    rewrite <- Hdir, <- Hq in Herr.
    exists q. unfold relPathOf, resolve, filepath.Abs.
    destruct (filepath.Rel (filepath.Dir path) q); [discriminate|].
    rewrite <- Hrq, Hclean. auto.
Qed.

Lemma Forall2_impl_In {A B} (P Q : A -> B -> Prop) l1 l2 :
  Forall2 P l1 l2 ->
  (forall x y, In x l1 -> P x y -> Q x y) ->
  Forall2 Q l1 l2.
Proof.
  induction 1 as [|x y l1 l2 Hxy _ IH]; intros Himp; constructor.
  - apply Himp; [left; reflexivity|exact Hxy].
  - apply IH. intros x' y' Hin. apply Himp. right. exact Hin.
Qed.

(** C7, as stated, fails: an entry whose path holds a line feed is written
    on two lines and parses back to another path. *)
Lemma roundtrip_loses_line_feed_path :
  let twoLines := "/d/a" +:+ nl +:+ "b" in
  let sums := [ {| Hash := "9dd4e461268c8034f5c8564e155c67a6"; Path := twoLines |} ] in
  exists w' m,
    writes driftedDisk w' sums "/d/sums.md5"
    /\ NoDup (map Path sums)
    /\ readFileToMap w' "/d/sums.md5" = Ok m
    /\ m !! twoLines = None
    /\ m !! "/d/a"
       = Some {| Hash := "9dd4e461268c8034f5c8564e155c67a6"; Path := "/d/a" |}.
Proof.
  intros twoLines sums. eexists. eexists.
  split; [reflexivity|]. split; [compute_done|].
  split; [reflexivity|]. split; vm_compute; reflexivity.
Qed.

(** C7, amended.  Let the entries have hashes of 32 hexadecimal characters
    and pairwise different paths, each path cleaned, without line feed,
    without the two bytes [ *] and not ending in a carriage return; and let
    each path be absolute, or relative like the manifest's directory and
    starting with at least as many [..] elements as that directory.  Then
    the file [writeFile] produces parses back to the very entries written,
    in sorted order, and the map form holds exactly the path-to-hash pairs
    that were written. *)
Theorem manifest_roundtrip w w' sums path :
  writes w w' sums path ->
  NoDup (map Path sums) ->
  (forall c, In c sums ->
     isHash (Hash c) = true
     /\ filepath.Clean (Path c) = Path c
     /\ strings.Contains1 strings.LF (Path c) = false
     /\ strings.Contains2 " " "*" (Path c) = false
     /\ chompCR (Path c) = Path c
     /\ (filepath.IsAbs (Path c) = true
         \/ (filepath.IsAbs (filepath.Dir path) = false
             /\ climbs (filepath.Dir path) <= climbs (Path c)))) ->
  readFile w' path = Ok (sort.Sort lessEntry sums)
  /\ exists m : gmap string Checksum,
       readFileToMap w' path = Ok m
       /\ forall k c, m !! k = Some c <-> In c sums /\ Path c = k.
Proof.
  intros Hwrite Hnd Hsums.
  destruct (writeFile_read _ _ _ _ Hwrite) as (data & Hser & Hrd).
  unfold serialize in Hser.
  destruct (writeEntries_text _ _ _ _ _ Hser) as (rels & Hall & Hdata).
  rewrite append_nil_l in Hdata.
  set (sorted := sort.Sort lessEntry sums) in *.
  assert (Hperm : sorted ≡ₚ sums) by apply Sort_perm.
  assert (Hin : forall c, In c sorted <-> In c sums).
  { intros c. rewrite <- !list_elem_of_In, Hperm. reflexivity. }
  assert (Hback : Forall2 (writtenBack (filepath.Dir path)) sorted rels).
  { eapply Forall2_impl_In; [exact Hall|]. intros c rel Hc Hrel. simpl in Hrel.
    apply Hin in Hc.
    destruct (Hsums c Hc) as (Hh & Hclean & Hlf & Hstar & Hcr & Hkind).
    destruct (relPathOf_back w path (Path c) Hclean Hkind)
      as (rel' & Hrel' & Hres & Klf & Kstar & Kcr).
    assert (rel' = rel) as -> by congruence.
    repeat split; auto. }
  assert (Hentries : entriesOf (filepath.Dir path) data = sorted).
  { rewrite Hdata. apply entriesOf_written, Hback. }
  split.
  { rewrite (readFile_entries _ _ _ Hrd), Hentries. reflexivity. }
  destruct (readFileToMap_lookup _ _ _ Hrd) as (m & Hm & Hlook).
  exists m. split; [exact Hm|].
  assert (Hnd' : NoDup (map Path sorted)).
  { assert (Hp : map Path sorted ≡ₚ map Path sums)
      by apply Permutation_map, Hperm.
    rewrite Hp. exact Hnd. }
  intros k c. rewrite Hlook, Hentries. split.
  - intros Hlast. apply last_filter_true in Hlast as [Hk Hc].
    apply String.eqb_eq in Hk. apply Hin in Hc. auto.
  - intros [Hc <-]. apply Hin in Hc.
    apply (last_filter_unique Path String.eqb sorted c String.eqb_eq Hnd' Hc).
Qed.

Lemma manifest_roundtrip_witness :
  let sums := [ {| Hash := "9dd4e461268c8034f5c8564e155c67a6"; Path := "src/sub dir/x.txt" |};
                {| Hash := "900150983CD24FB0D6963F7D28E17F72"; Path := "lib/c.txt" |};
                {| Hash := "0cc175b9c0f1b6a831c399e269772661"; Path := "/etc/hosts" |} ] in
  exists w' m,
    writes updateDisk w' sums "src/sums.md5"
    /\ ReadFile w' "src/sums.md5"
       = Ok ("0cc175b9c0f1b6a831c399e269772661 */etc/hosts" +:+ nl
             +:+ "900150983CD24FB0D6963F7D28E17F72 *../lib/c.txt" +:+ nl
             +:+ "9dd4e461268c8034f5c8564e155c67a6 *sub dir/x.txt" +:+ nl)
    /\ readFileToMap w' "src/sums.md5" = Ok m
    /\ m !! "lib/c.txt"
       = Some {| Hash := "900150983CD24FB0D6963F7D28E17F72"; Path := "lib/c.txt" |}.
Proof.
  intros sums.
  assert (Hw : exists w', writes updateDisk w' sums "src/sums.md5"
                          /\ ReadFile w' "src/sums.md5"
                             = Ok ("0cc175b9c0f1b6a831c399e269772661 */etc/hosts" +:+ nl
                                   +:+ "900150983CD24FB0D6963F7D28E17F72 *../lib/c.txt" +:+ nl
                                   +:+ "9dd4e461268c8034f5c8564e155c67a6 *sub dir/x.txt" +:+ nl))
    by (eexists; split; reflexivity).
  destruct Hw as (w' & Hw & Hrd). exists w'.
  destruct (manifest_roundtrip updateDisk w' sums "src/sums.md5" Hw)
    as [_ (m & Hm & Hlook)].
  - compute_done.
  - intros c [<-|[<-|[<-|[]]]]; vm_compute;
      repeat split; try reflexivity; auto.
  - exists m. split; [exact Hw|]. split; [exact Hrd|]. split; [exact Hm|].
    apply Hlook. split; [right; left; reflexivity|reflexivity].
Defined.

(** ** Runes *)

Lemma first_spec c size lo hi :
  utf8.first c = Some (size, lo, hi) ->
  (size = 2 \/ size = 3 \/ size = 4) /\ 128 <= lo /\ hi <= 191.
Proof.
  unfold utf8.first.
  repeat match goal with
         | |- context [if ?b then _ else _] => destruct b
         end; intros [= <- <- <-]; lia || (try discriminate).
Qed.

Lemma inRange_cont lo hi c :
  128 <= lo -> hi <= 191 -> utf8.inRange lo hi c = true -> utf8.isCont c = true.
Proof.
  unfold utf8.isCont, utf8.inRange. intros Hlo Hhi [H1 H2]%andb_true_iff.
  apply Nat.leb_le in H1, H2. apply andb_true_iff.
  split; apply Nat.leb_le; lia.
Qed.

Lemma width_eq c0 r size lo hi :
  utf8.first c0 = Some (size, lo, hi) ->
  utf8.width (String c0 r) =
  match r with
  | String c1 (String c2 (String c3 _)) =>
      if utf8.inRange lo hi c1 then
        if (size =? 2)%nat then 2
        else if utf8.isCont c2 then
          if (size =? 3)%nat then 3
          else if utf8.isCont c3 then 4 else 1
        else 1
      else 1
  | String c1 (String c2 EmptyString) =>
      if utf8.inRange lo hi c1 then
        if (size =? 2)%nat then 2
        else if utf8.isCont c2 then
          if (size =? 3)%nat then 3 else 1
        else 1
      else 1
  | String c1 EmptyString =>
      if utf8.inRange lo hi c1 then
        if (size =? 2)%nat then 2 else 1
      else 1
  | EmptyString => 1
  end.
Proof.
  intros Hf. unfold utf8.width. rewrite Hf.
  apply first_spec in Hf as ([-> | [-> | ->]] & _ & _);
    destruct r as [|c1 [|c2 [|c3 r]]]; simpl;
    repeat match goal with
           | |- context [utf8.inRange lo hi ?c] => destruct (utf8.inRange lo hi c)
           | |- context [utf8.isCont ?c] => destruct (utf8.isCont c)
           end; reflexivity.
Qed.

Lemma width_local p x t :
  p <> "" -> utf8.width (p +:+ x) <= String.length p -> leads t ->
  utf8.width (p +:+ t) = utf8.width (p +:+ x).
Proof.
  destruct p as [|c0 p]; [congruence|]. intros _ Hle Ht.
  rewrite !append_cons in *.
  destruct (utf8.first c0) as [[[size lo] hi]|] eqn:Hf.
  2:{ unfold utf8.width. rewrite Hf. reflexivity. }
  rewrite (width_eq _ (p +:+ x) _ _ _ Hf) in Hle |- *.
  rewrite (width_eq _ (p +:+ t) _ _ _ Hf).
  pose proof (first_spec _ _ _ _ Hf) as (Hsize & Hlo & Hhi).
  assert (Hno : forall c, utf8.isCont c = false -> utf8.inRange lo hi c = false).
  { intros c Hc. destruct (utf8.inRange lo hi c) eqn:Hr; [|reflexivity].
    rewrite (inRange_cont _ _ _ Hlo Hhi Hr) in Hc. discriminate. }
  clear Hf Hlo Hhi.
  assert (Ht' : t = "" \/ exists t0 t', t = String t0 t'
                           /\ utf8.isCont t0 = false
                           /\ utf8.inRange lo hi t0 = false).
  { destruct t as [|t0 t']; [left; reflexivity|right].
    exists t0, t'. cbn [leads] in Ht. auto. }
  clear Ht Hno.
  destruct p as [|c1 [|c2 [|c3 p]]];
    rewrite ?append_cons, ?append_nil_l in *; cbn [String.length] in Hle;
    destruct Ht' as [-> | (t0 & t' & -> & Hc & Hr)];
    try (destruct t' as [|t1 [|t2 t']]);
    try (destruct x as [|x0 [|x1 [|x2 x]]]);
    destruct Hsize as [-> | [-> | ->]]; simpl in *;
    rewrite ?Hc, ?Hr;
    repeat match goal with
           | H : context [if ?b then _ else _] |- _ => destruct b eqn:?
           | |- context [if ?b then _ else _] => destruct b eqn:?
           end; try lia; try reflexivity.
Qed.

Lemma starts_ge s : forall skip i x,
  In x (utf8.starts skip i s) -> i + skip <= x.
Proof.
  induction s as [|c s IH]; intros skip i x; [intros []|].
  cbn [utf8.starts]. destruct skip as [|k].
  - intros [<-|Hin]; [lia|]. apply IH in Hin. lia.
  - intros Hin. apply IH in Hin. lia.
Qed.

Lemma starts_lt s : forall skip i x,
  In x (utf8.starts skip i s) -> x < i + String.length s.
Proof.
  induction s as [|c s IH]; intros skip i x; [intros []|].
  cbn [utf8.starts String.length]. destruct skip as [|k].
  - intros [<-|Hin]; [lia|]. apply IH in Hin. lia.
  - intros Hin. apply IH in Hin. lia.
Qed.

Lemma starts_mid s skip i l1 x l2 :
  utf8.starts skip i s = l1 ++ x :: l2 -> i + skip <= x < i + String.length s.
Proof.
  intros Hs.
  assert (Hin : In x (utf8.starts skip i s))
    by (rewrite Hs; apply in_or_app; right; left; reflexivity).
  split; [eapply starts_ge|eapply starts_lt]; exact Hin.
Qed.

(** A rune boundary of [pre +:+ post] at the end of [pre] is a rune
    boundary of [pre +:+ t], and the runes before it are the same. *)
Lemma starts_splice pre : forall skip i post t l1 l2,
  utf8.starts skip i (pre +:+ post) = l1 ++ (i + String.length pre) :: l2 ->
  leads t ->
  utf8.starts skip i (pre +:+ t)
  = l1 ++ utf8.starts 0 (i + String.length pre) t.
Proof.
  induction pre as [|c pre IH]; intros skip i post t l1 l2 Hs Ht.
  - rewrite append_nil_l in *. cbn [String.length] in *.
    rewrite Nat.add_0_r in *.
    pose proof (starts_mid _ _ _ _ _ _ Hs) as Hin.
    destruct skip as [|k]; [|lia].
    destruct post as [|d post]; [destruct l1; discriminate|].
    cbn [utf8.starts] in Hs. destruct l1 as [|y l1]; [reflexivity|].
    injection Hs as <- Hs.
    apply starts_mid in Hs. lia.
  - rewrite !append_cons in *. cbn [utf8.starts String.length] in *.
    replace (i + S (String.length pre)) with (S i + String.length pre) in * by lia.
    destruct skip as [|k]; [|eapply IH; eassumption].
    remember (utf8.width (String c (pre +:+ post))) as n eqn:Hn.
    destruct l1 as [|y l1]; [injection Hs as Hi _; lia|].
    injection Hs as <- Hs. cbn [app]. f_equal.
    pose proof (starts_mid _ _ _ _ _ _ Hs) as Hin.
    assert (Hw : utf8.width (String c pre +:+ t) = n).
    { rewrite Hn, <- append_cons.
      apply width_local; [discriminate| |exact Ht].
      rewrite append_cons, <- Hn. cbn [String.length]. lia. }
    rewrite append_cons in Hw. rewrite Hw. eapply IH; eassumption.
Qed.

Lemma starts_ellipsis i : utf8.starts 0 i ellipsis = [i].
Proof. reflexivity. Qed.

Lemma substring_prefix s : forall j,
  j <= String.length s ->
  exists post, s = substring 0 j s +:+ post
               /\ String.length (substring 0 j s) = j.
Proof.
  induction s as [|c s IH]; intros j Hj.
  - cbn [String.length] in Hj. assert (j = 0) as -> by lia.
    exists "". split; reflexivity.
  - destruct j as [|j].
    + exists (String c s). split; reflexivity.
    + cbn [String.length] in Hj. destruct (IH j) as (post & Hs & Hl); [lia|].
      exists post. cbn [substring String.length]. rewrite append_cons.
      split; congruence.
Qed.

Lemma ellipsizeLoop_nth s maxLength offsets : forall index,
  ellipsizeLoop s maxLength index offsets =
  match nth_error offsets (Z.to_nat (maxLength - 1 - index)) with
  | Some runeIndex => substring 0 runeIndex s +:+ ellipsis
  | None => s
  end.
Proof.
  induction offsets as [|j offsets IH]; intros index.
  - cbn [ellipsizeLoop]. destruct (Z.to_nat _); reflexivity.
  - cbn [ellipsizeLoop]. destruct (Z.gtb_spec (index + 1) (maxLength - 1)) as [Hgt|Hle].
    + replace (Z.to_nat (maxLength - 1 - index)) with 0 by lia. reflexivity.
    + rewrite IH.
      replace (Z.to_nat (maxLength - 1 - index))
        with (S (Z.to_nat (maxLength - 1 - (index + 1)))) by lia.
      reflexivity.
Qed.

(** The text kept by a cut at the [k]-th rune. *)
Lemma rune_cut s k j :
  nth_error (utf8.runeStarts s) k = Some j ->
  exists post,
    s = substring 0 j s +:+ post
    /\ forall t, leads t ->
         utf8.runeStarts (substring 0 j s +:+ t)
         = firstn k (utf8.runeStarts s) ++ utf8.starts 0 j t.
Proof.
  intros Hnth. unfold utf8.runeStarts in *.
  apply nth_error_split in Hnth as (l1 & l2 & Hs & Hl1).
  pose proof (starts_mid _ _ _ _ _ _ Hs) as [_ Hlt]. cbn [Nat.add] in Hlt.
  destruct (substring_prefix s j) as (post & Hsplit & Hlen); [lia|].
  exists post. split; [exact Hsplit|]. intros t Ht.
  remember (substring 0 j s) as pre eqn:Hpre. clear Hpre. subst s j.
  rewrite (starts_splice _ 0 0 post t l1 l2 Hs Ht).
  cbn [Nat.add]. f_equal.
  rewrite Hs. rewrite <- Hl1. rewrite firstn_app, Nat.sub_diag, firstn_all.
  cbn [firstn]. rewrite app_nil_r. reflexivity.
Qed.

Lemma ellipsize_fits s maxLength :
  (Z.of_nat (utf8.RuneCountInString s) <= maxLength)%Z ->
  ellipsize s maxLength = s.
Proof.
  intros Hfits. unfold ellipsize.
  destruct (Z.gtb_spec (Z.of_nat (utf8.RuneCountInString s)) maxLength);
    [lia|reflexivity].
Qed.

Lemma ellipsize_long s maxLength :
  (1 <= maxLength < Z.of_nat (utf8.RuneCountInString s))%Z ->
  exists pre post,
    s = pre +:+ post
    /\ ellipsize s maxLength = pre +:+ ellipsis
    /\ utf8.runeStarts pre
       = firstn (Z.to_nat (maxLength - 1)) (utf8.runeStarts s)
    /\ Z.of_nat (utf8.RuneCountInString (pre +:+ ellipsis)) = maxLength.
Proof.
  intros [Hmax Hlong]. unfold ellipsize.
  destruct (Z.gtb_spec (Z.of_nat (utf8.RuneCountInString s)) maxLength)
    as [_|Hfits]; [|lia].
  rewrite ellipsizeLoop_nth, Z.sub_0_r.
  set (k := Z.to_nat (maxLength - 1)).
  assert (Hk : k < length (utf8.runeStarts s))
    by (unfold utf8.RuneCountInString in Hlong; lia).
  destruct (nth_error (utf8.runeStarts s) k) as [j|] eqn:Hnth.
  2:{ apply nth_error_None in Hnth. lia. }
  destruct (rune_cut _ _ _ Hnth) as (post & Hsplit & Hcut).
  exists (substring 0 j s), post. split; [exact Hsplit|].
  split; [reflexivity|]. split.
  - rewrite <- (append_nil_r (substring 0 j s)) at 1.
    rewrite (Hcut "") by exact I. cbn [utf8.starts]. apply app_nil_r.
  - unfold utf8.RuneCountInString.
    rewrite (Hcut ellipsis) by reflexivity.
    rewrite starts_ellipsis, length_app, length_firstn. cbn [length]. lia.
Qed.

Lemma ellipsize_count s maxLength :
  (1 <= maxLength)%Z ->
  Z.of_nat (utf8.RuneCountInString (ellipsize s maxLength))
  = Z.min (Z.of_nat (utf8.RuneCountInString s)) maxLength.
Proof.
  intros Hmax.
  destruct (Z.le_gt_cases (Z.of_nat (utf8.RuneCountInString s)) maxLength)
    as [Hfits|Hlong].
  - rewrite (ellipsize_fits _ _ Hfits). lia.
  - destruct (ellipsize_long s maxLength) as (pre & post & _ & -> & _ & ->);
      lia.
Qed.

(** X18. [ellipsize] with a limit of at least one rune: the result has as
    many runes as the string or as the limit, whichever is less.  A string
    within the limit is returned as it is; a longer one is cut after its
    first [maxLength - 1] runes, at a rune boundary, and the ellipsis is
    appended. *)
Theorem ellipsize_bound s maxLength :
  (1 <= maxLength)%Z ->
  Z.of_nat (utf8.RuneCountInString (ellipsize s maxLength))
  = Z.min (Z.of_nat (utf8.RuneCountInString s)) maxLength
  /\ ((Z.of_nat (utf8.RuneCountInString s) <= maxLength)%Z ->
      ellipsize s maxLength = s)
  /\ ((maxLength < Z.of_nat (utf8.RuneCountInString s))%Z ->
      exists pre post,
        s = pre +:+ post
        /\ ellipsize s maxLength = pre +:+ ellipsis
        /\ utf8.runeStarts pre
           = firstn (Z.to_nat (maxLength - 1)) (utf8.runeStarts s)).
Proof.
  intros Hmax. split; [apply ellipsize_count, Hmax|].
  split; [apply ellipsize_fits|]. intros Hlong.
  destruct (ellipsize_long s maxLength) as (pre & post & H1 & H2 & H3 & _);
    [lia|].
  exists pre, post. auto.
Qed.

Lemma ellipsize_bound_witness :
  Z.of_nat (utf8.RuneCountInString (ellipsize "hello world" 5)) = 5%Z
  /\ ellipsize "hello" 5 = "hello".
Proof.
  split.
  - exact (proj1 (ellipsize_bound "hello world" 5 ltac:(lia))).
  - apply (proj1 (proj2 (ellipsize_bound "hello" 5 ltac:(lia)))).
    vm_compute. discriminate.
Defined.

(** X19. [ellipsize] with a limit of zero or less, above the least value
    of an [int] of 32 bits, so that [maxLength-1] does not wrap whatever
    the size of [int]: the empty string is returned as it is, and every
    other string becomes the ellipsis alone, which is one rune and so
    longer than the limit. *)
Theorem ellipsize_nonpositive s maxLength :
  (-2147483648 < maxLength <= 0)%Z ->
  ellipsize s maxLength = if String.eqb s "" then "" else ellipsis.
Proof.
  intros [_ Hmax]. unfold ellipsize. destruct s as [|c s].
  - cbn [String.eqb]. destruct (_ >? _)%Z; reflexivity.
  - cbn [String.eqb]. unfold utf8.RuneCountInString, utf8.runeStarts.
    cbn [utf8.starts length].
    match goal with
    | |- context [(?count >? maxLength)%Z] =>
        destruct (Z.gtb_spec count maxLength) as [_|Hle]; [|lia]
    end.
    cbn [ellipsizeLoop].
    destruct (Z.gtb_spec (0 + 1) (maxLength - 1)) as [_|Hle]; [|lia].
    reflexivity.
Qed.

Lemma ellipsize_nonpositive_witness :
  ellipsize "hello" 0 = ellipsis.
Proof. exact (ellipsize_nonpositive "hello" 0 ltac:(lia)). Defined.

(** ** Printing *)

Lemma Join_SplitByte sep s :
  strings.Join (strings.SplitByte sep s) (String sep "") = s.
Proof.
  induction s as [|c s IH]; [reflexivity|].
  cbn [strings.SplitByte]. destruct (Ascii.eqb_spec c sep) as [->|Hc].
  - pose proof (SplitByte_nonempty sep s) as Hne.
    destruct (strings.SplitByte sep s) as [|e es] eqn:Hs; [contradiction|].
    rewrite Join_cons, append_nil_l, append_cons, append_nil_l, IH.
    reflexivity.
  - pose proof (SplitByte_nonempty sep s) as Hne.
    destruct (strings.SplitByte sep s) as [|e es] eqn:Hs; [contradiction|].
    cbn [strings.consHead]. rewrite <- IH.
    destruct es as [|e' es]; [reflexivity|].
    rewrite !Join_cons, append_cons. reflexivity.
Qed.

Lemma Contains1_substring c s : forall j,
  strings.Contains1 c s = false ->
  strings.Contains1 c (substring 0 j s) = false.
Proof.
  induction s as [|d s IH]; intros j Hs; [destruct j; reflexivity|].
  destruct j as [|j]; [reflexivity|].
  cbn [strings.Contains1 substring] in *.
  apply orb_false_iff in Hs as [Hd Hs]. rewrite Hd, (IH j Hs). reflexivity.
Qed.

Lemma ellipsize_noLF line maxLength :
  strings.Contains1 strings.LF line = false ->
  strings.Contains1 strings.LF (ellipsize line maxLength) = false.
Proof.
  intros Hl. unfold ellipsize. destruct (_ >? _)%Z; [|exact Hl].
  rewrite ellipsizeLoop_nth. destruct (nth_error _ _) as [j|]; [|exact Hl].
  rewrite Contains1_app, (Contains1_substring _ _ j Hl). reflexivity.
Qed.

Lemma map_id_Forall {A} (f : A -> A) l :
  Forall (fun x => f x = x) l -> map f l = l.
Proof. induction 1 as [|x l Hx _ IH]; [reflexivity|]. simpl. congruence. Qed.

(** X20. [printColored] off a terminal prints its text as it is.  On a
    terminal at least two columns wide the text is cut line by line: the
    number of lines is kept, every line printed has at most
    [TermWidth - 1] runes, and a text whose lines all fit is printed
    unchanged (in colour). *)
Theorem printColored_lines w TermWidth s clr :
  (IsTerminal w = false -> printColored w TermWidth s clr = Plain s)
  /\ (IsTerminal w = true -> (2 <= TermWidth)%Z ->
      exists text,
        printColored w TermWidth s clr = InColor clr text
        /\ strings.SplitByte strings.LF text
           = map (fun line => ellipsize line (TermWidth - 1))
                 (strings.SplitByte strings.LF s)
        /\ Forall (fun line =>
                     (Z.of_nat (utf8.RuneCountInString line) <= TermWidth - 1)%Z)
                  (strings.SplitByte strings.LF text)
        /\ (Forall (fun line =>
                      (Z.of_nat (utf8.RuneCountInString line) <= TermWidth - 1)%Z)
                   (strings.SplitByte strings.LF s) ->
            text = s)).
Proof.
  unfold printColored. split; [intros ->; reflexivity|].
  intros -> Hw. cbn [negb]. eexists. split; [reflexivity|].
  assert (Hsplit :
    strings.SplitByte strings.LF
      (strings.Join
         (map (fun line => ellipsize line (TermWidth - 1))
              (strings.SplitByte strings.LF s)) nl)
    = map (fun line => ellipsize line (TermWidth - 1))
          (strings.SplitByte strings.LF s)).
  { apply SplitByte_Join.
    - pose proof (SplitByte_nonempty strings.LF s).
      destruct (strings.SplitByte strings.LF s); [contradiction|discriminate].
    - apply Forall_map. eapply Forall_impl; [apply SplitByte_elems|].
      intros line Hl. apply ellipsize_noLF, Hl. }
  split; [exact Hsplit|]. split.
  - rewrite Hsplit. apply Forall_map, Forall_true. intros line.
    rewrite ellipsize_count; lia.
  - intros Hfit. rewrite map_id_Forall; [apply Join_SplitByte|].
    eapply Forall_impl; [exact Hfit|]. intros line Hl.
    apply ellipsize_fits, Hl.
Qed.

Lemma printColored_lines_witness :
  exists text,
    printColored
      {| IsTerminal := true; Getwd := Ok "/"; Open := fun _ => Err "";
         WriteErr := fun _ => None; Walk := fun _ => []; Stat := fun _ => Err "";
         rangeOrder := fun _ keys => keys |}
      8 (" Wrote: sums.md5" +:+ nl +:+ nl) FgGreen
    = InColor FgGreen text
    /\ strings.SplitByte strings.LF text = [" Wrote" +:+ ellipsis; ""; ""].
Proof.
  destruct (proj2 (printColored_lines
      {| IsTerminal := true; Getwd := Ok "/"; Open := fun _ => Err "";
         WriteErr := fun _ => None; Walk := fun _ => []; Stat := fun _ => Err "";
         rangeOrder := fun _ keys => keys |}
      8 (" Wrote: sums.md5" +:+ nl +:+ nl) FgGreen) eq_refl ltac:(lia))
    as (text & Hp & Hs & _).
  exists text. split; [exact Hp|]. rewrite Hs. reflexivity.
Defined.

Lemma repeatString_length c n :
  String.length (strings.repeatString (String c "") n) = n.
Proof.
  induction n as [|n IH]; [reflexivity|].
  cbn [strings.repeatString]. rewrite append_cons, append_nil_l.
  cbn [String.length]. congruence.
Qed.

(** X21. [sprintfHeader] panics exactly when [TermWidth] is less than 2.
    From three columns on it returns an empty line, the title and a rule of
    [TermWidth - 2] dashes; the title has at most as many runes as the rule
    has dashes, and a title that fits is not altered. *)
Theorem sprintfHeader_shape TermWidth formatted :
  (sprintfHeader TermWidth formatted = None <-> (TermWidth < 2)%Z)
  /\ ((3 <= TermWidth)%Z ->
      exists title rule,
        sprintfHeader TermWidth formatted
        = Some (nl +:+ " " +:+ title +:+ nl +:+ " " +:+ rule +:+ nl)
        /\ rule = strings.repeatString "-" (Z.to_nat (TermWidth - 2))
        /\ String.length rule = Z.to_nat (TermWidth - 2)
        /\ utf8.RuneCountInString title <= String.length rule
        /\ ((Z.of_nat (utf8.RuneCountInString formatted) <= TermWidth - 2)%Z ->
            title = formatted)).
Proof.
  unfold sprintfHeader, strings.Repeat. split.
  - destruct (Z.ltb_spec (TermWidth - 2) 0); split;
      [lia | reflexivity | discriminate | lia].
  - intros Hw. destruct (Z.ltb_spec (TermWidth - 2) 0); [lia|].
    eexists. eexists. split; [reflexivity|]. split; [reflexivity|].
    rewrite repeatString_length. split; [reflexivity|].
    pose proof (ellipsize_count formatted (TermWidth - 2)) as Hc.
    split; [lia|apply ellipsize_fits].
Qed.

Lemma sprintfHeader_shape_witness :
  sprintfHeader 1 "Hashing: src" = None
  /\ exists title rule,
       sprintfHeader 12 "Hashing: source"
       = Some (nl +:+ " " +:+ title +:+ nl +:+ " " +:+ rule +:+ nl)
       /\ String.length rule = 10
       /\ utf8.RuneCountInString title <= 10.
Proof.
  split.
  - apply (proj1 (sprintfHeader_shape 1 "Hashing: src")). lia.
  - destruct (proj2 (sprintfHeader_shape 12 "Hashing: source") ltac:(lia))
      as (title & rule & Hs & _ & Hl & Ht & _).
    exists title, rule. split; [exact Hs|]. split; [exact Hl|].
    rewrite Hl in Ht. exact Ht.
Defined.

(** ** Output that is not a terminal *)

(** X22. When standard output is not a terminal, or its size cannot be
    read, the commands run with [IsTerminal] false and a width of 80
    columns: coloured messages are printed as they are, the header never
    panics and has a rule of 78 dashes, and [generateMd5] does not ask for
    the size of the file. *)
Theorem redirected_output isTerminal getSize w s clr formatted path :
  isTerminal = false \/ isOk getSize = false ->
  IsTerminal w = (Before isTerminal getSize).1 ->
  let TermWidth := (Before isTerminal getSize).2 in
  TermWidth = 80%Z
  /\ printColored w TermWidth s clr = Plain s
  /\ sprintfHeader TermWidth formatted
     = Some (nl +:+ " " +:+ ellipsize formatted 78 +:+ nl
             +:+ " " +:+ strings.repeatString "-" 78 +:+ nl)
  /\ generateMd5 w path
     = match ReadFile w path with
       | Ok data => Ok (fmt.hex (md5.Sum data))
       | Err err => Err err
       end.
Proof.
  intros Hoff Hterm.
  assert (HB : Before isTerminal getSize = (false, 80%Z)).
  { unfold Before. destruct Hoff as [->|Hsize]; [reflexivity|].
    destruct isTerminal; [|reflexivity].
    destruct getSize as [[width height]|]; [discriminate|reflexivity]. }
  rewrite HB in *. cbn [fst snd] in *. split; [reflexivity|].
  unfold printColored, generateMd5, ReadFile. rewrite Hterm.
  split; [reflexivity|]. split; [reflexivity|].
  destruct (Open w path) as [file|]; [|reflexivity].
  destruct (contents file); reflexivity.
Qed.

Lemma redirected_output_witness :
  printColored twoFiles 80 (" Wrote: sums.md5" +:+ nl +:+ nl) FgGreen
  = Plain (" Wrote: sums.md5" +:+ nl +:+ nl).
Proof.
  exact (proj1 (proj2 (redirected_output true (Err "inappropriate ioctl for device")
                         twoFiles (" Wrote: sums.md5" +:+ nl +:+ nl) FgGreen
                         "Hashing: src" "src/a.txt"
                         (or_intror eq_refl) eq_refl))).
Defined.

(** ** The progress display *)

Lemma reads_throttle now :
  (forall i, (now i <= now (S i))%Z) ->
  forall results r tick last,
    lastDraw r = Some last ->
    let ts := drawTimes (snd (reads now (r, tick) results)) in
    Forall (fun t => (last + Millisecond * 150 < t)%Z) ts
    /\ Sorted (fun a b => (a + Millisecond * 150 < b)%Z) ts.
Proof.
  intros Hmono. induction results as [|[n err] results IH];
    intros r tick last Hlast; [split; constructor|].
  cbn [reads]. unfold ProgressReader_Read. rewrite Hlast.
  destruct err as [[|e]|].
  - match goal with
    | |- context [reads now (?r', ?t') results] =>
        specialize (IH r' t' last eq_refl);
        destruct (reads now (r', t') results) as [st' trace]
    end. exact IH.
  - match goal with
    | |- context [reads now (?r', ?t') results] =>
        specialize (IH r' t' last eq_refl);
        destruct (reads now (r', t') results) as [st' trace]
    end. exact IH.
  - destruct (Z.ltb_spec (last + Millisecond * 150) (now tick)) as [Hlt|Hge].
    + match goal with
      | |- context [reads now (?r', ?t') results] =>
          specialize (IH r' t' (now (S tick)) eq_refl);
          destruct (reads now (r', t') results) as [st' trace]
      end.
      cbn [snd drawTimes omap list_omap lastDraw] in *.
      destruct IH as [Hall Hsorted]. pose proof (Hmono tick) as Hm.
      unfold Millisecond in *. split.
      * constructor; [lia|]. eapply Forall_impl; [exact Hall|].
        intros t Ht. cbn in Ht. lia.
      * constructor; [exact Hsorted|].
        destruct Hall; constructor. assumption.
    + match goal with
      | |- context [reads now (?r', ?t') results] =>
          specialize (IH r' t' last eq_refl);
          destruct (reads now (r', t') results) as [st' trace]
      end. exact IH.
Qed.

(** X23. The progress display is throttled.  Let the clock never run
    backwards.  Starting from a fresh [ProgressReader], no percentage is
    drawn until more than 400 ms after the first reading of the clock, and
    the times recorded at two successive drawings are more than 150 ms
    apart. *)
Theorem progress_throttled now total tick results :
  (forall i, (now i <= now (S i))%Z) ->
  let fresh := {| TotalBytes := total; readBytes := 0; lastDraw := None |} in
  let ts := drawTimes (snd (reads now (fresh, tick) results)) in
  Forall (fun t => (now tick + Millisecond * 400 < t)%Z) ts
  /\ Sorted (fun a b => (a + Millisecond * 150 < b)%Z) ts.
Proof.
  intros Hmono fresh ts. subst ts.
  destruct results as [|[n err] results]; [split; constructor|].
  cbn [reads]. unfold ProgressReader_Read. cbn [lastDraw fresh].
  assert (Hweaken : forall last l,
             (now tick + Millisecond * 250 <= last)%Z ->
             Forall (fun t => (last + Millisecond * 150 < t)%Z) l ->
             Forall (fun t => (now tick + Millisecond * 400 < t)%Z) l).
  { intros last l Hl Hall. eapply Forall_impl; [exact Hall|].
    intros t Ht. cbn in Ht. unfold Millisecond in *. lia. }
  destruct err as [[|e]|].
  - match goal with
    | |- context [reads now (?r', ?t') results] =>
        pose proof (reads_throttle now Hmono results r' t' _ eq_refl) as [Hall Hs];
        destruct (reads now (r', t') results) as [st' trace]
    end.
    split; [|exact Hs]. eapply Hweaken; [|exact Hall]. lia.
  - match goal with
    | |- context [reads now (?r', ?t') results] =>
        pose proof (reads_throttle now Hmono results r' t' _ eq_refl) as [Hall Hs];
        destruct (reads now (r', t') results) as [st' trace]
    end.
    split; [|exact Hs]. eapply Hweaken; [|exact Hall]. lia.
  - destruct (Z.ltb_spec (now tick + Millisecond * 250 + Millisecond * 150)
                         (now (S tick))) as [Hlt|Hge].
    + match goal with
      | |- context [reads now (?r', ?t') results] =>
          pose proof (reads_throttle now Hmono results r' t' _ eq_refl) as [Hall Hs];
          destruct (reads now (r', t') results) as [st' trace]
      end.
      cbn [snd drawTimes omap list_omap lastDraw] in *.
      pose proof (Hmono (S tick)) as Hm. unfold Millisecond in *. split.
      * constructor; [lia|]. eapply Forall_impl; [exact Hall|].
        intros t Ht. cbn in Ht. lia.
      * constructor; [exact Hs|]. destruct Hall; constructor. assumption.
    + match goal with
      | |- context [reads now (?r', ?t') results] =>
          pose proof (reads_throttle now Hmono results r' t' _ eq_refl) as [Hall Hs];
          destruct (reads now (r', t') results) as [st' trace]
      end.
      split; [|exact Hs]. eapply Hweaken; [|exact Hall]. lia.
Qed.

Lemma progress_throttled_witness :
  let now := fun i => (Z.of_nat i * 200000000)%Z in
  let ts :=
    drawTimes (snd (reads now ({| TotalBytes := 100; readBytes := 0; lastDraw := None |}, 0)
                          [(10, None); (10, None); (10, None); (10, None)]%Z)) in
  ts = [800000000; 1200000000]%Z
  /\ Forall (fun t => (400000000 < t)%Z) ts.
Proof.
  intros now ts. split; [reflexivity|].
  refine (proj1 (progress_throttled now 100 0
                   [(10, None); (10, None); (10, None); (10, None)]%Z _)).
  intros i. unfold now. lia.
Defined.

Lemma wrap64_add a b : wrap64 (wrap64 a + b) = wrap64 (a + b).
Proof.
  unfold wrap64. f_equal.
  replace (((a + 9223372036854775808) mod 18446744073709551616
            - 9223372036854775808 + b + 9223372036854775808))%Z
    with (((a + 9223372036854775808) mod 18446744073709551616 + b))%Z by lia.
  rewrite Z.add_mod_idemp_l by lia. f_equal. lia.
Qed.

Lemma Read_counts now r tick n err :
  let '(r', _, drawn) := ProgressReader_Read now (r, tick) (n, err) in
  readBytes r' = wrap64 (readBytes r + n)
  /\ TotalBytes r' = TotalBytes r
  /\ forall count total, drawn = Some (Percent count total) ->
        count = readBytes r' /\ total = TotalBytes r /\ err = None.
Proof.
  unfold ProgressReader_Read.
  destruct (lastDraw r) as [last|]; destruct err as [[|e]|];
    repeat match goal with
           | |- context [if ?b then _ else _] => destruct b
           end;
    cbn [readBytes TotalBytes];
    (split; [reflexivity|]; split; [reflexivity|]);
    intros c tot Hd; try discriminate Hd;
    injection Hd as <- <-; auto.
Qed.

(** X24. The percentage is drawn from the number of bytes read so far.
    Starting from a count of zero, whenever the [k]-th read draws a
    percentage, the count it is formatted from is the sum of the byte
    counts the underlying reader returned up to and including that read
    (wrapped to [int64]), the total is [TotalBytes], and that read
    returned no error. *)
Theorem progress_counts now results : forall r tick k count total t,
  snd (reads now (r, tick) results) !! k = Some (Some (Percent count total), t) ->
  count = wrap64 (readBytes r + fold_right Z.add 0%Z (map fst (take (S k) results)))
  /\ total = TotalBytes r
  /\ exists n, results !! k = Some (n, None).
Proof.
  induction results as [|[n err] results IH]; intros r tick k count total t;
    [discriminate|].
  cbn [reads]. pose proof (Read_counts now r tick n err) as Hread.
  destruct (ProgressReader_Read now (r, tick) (n, err)) as [[r' tick'] drawn].
  destruct Hread as (Hcount & Htotal & Hdrawn).
  specialize (IH r' tick').
  destruct (reads now (r', tick') results) as [st' trace]. cbn [snd] in *.
  destruct k as [|k]; cbn [lookup list_lookup].
  - intros [= -> <-]. destruct (Hdrawn _ _ eq_refl) as (-> & -> & ->).
    cbn [take map fold_right fst]. rewrite Hcount, Z.add_0_r.
    split; [reflexivity|]. split; [reflexivity|]. exists n. reflexivity.
  - intros Hk. destruct (IH _ _ _ _ Hk) as (-> & -> & Hres).
    rewrite Hcount, Htotal, wrap64_add.
    split; [|split; [reflexivity|exact Hres]].
    cbn [take map fold_right fst]. f_equal. lia.
Qed.

Lemma progress_counts_witness :
  let results : list (Z * option ReadErr) :=
    [(10, None); (20, None); (30, None); (40, None)]%Z in
  (60 = wrap64 (0 + fold_right Z.add 0 (map fst (take 3 results))))%Z
  /\ (100 = 100)%Z
  /\ exists n, results !! 2 = Some (n, None).
Proof.
  intros results.
  exact (progress_counts (fun i => (Z.of_nat i * 200000000)%Z) results
           {| TotalBytes := 100; readBytes := 0; lastDraw := None |} 0 2
           60%Z 100%Z (Some 800000000%Z) eq_refl).
Defined.

(** ** The slice as [sort.Interface] *)

Lemma ltb_irrefl a : String.ltb a a = false.
Proof. rewrite ltb_leb, leb_refl. reflexivity. Qed.

(** X14. [Less] is a strict weak ordering of the entries, which is what
    [sort.Sort] asks of it: no entry is less than itself, [Less] is
    transitive, and so is "not less in either direction". *)
Theorem lessEntry_strict_weak :
  (forall x, lessEntry x x = false)
  /\ (forall x y z,
         lessEntry x y = true -> lessEntry y z = true -> lessEntry x z = true)
  /\ (forall x y z,
         lessEntry x y = false -> lessEntry y z = false -> lessEntry x z = false)
  /\ (forall slice a b x y,
         slice !! a = Some x -> slice !! b = Some y ->
         Checksums_Less slice a b = lessEntry x y).
Proof.
  split.
  { intros x. unfold lessEntry. rewrite String.eqb_refl. apply ltb_irrefl. }
  assert (Hneg : forall x y z,
             lessEntry x y = false -> lessEntry y z = false ->
             lessEntry x z = false).
  { intros x y z Hxy Hyz.
    exact (notAfter_lessEntry_trans z y x Hyz Hxy). }
  split.
  { intros x y z Hxy Hyz.
    destruct (lessEntry x z) eqn:Hxz; [reflexivity|].
    pose proof (lessEntry_asym _ _ Hyz) as Hzy.
    rewrite (Hneg x z y Hxz Hzy) in Hxy. discriminate. }
  split; [exact Hneg|].
  intros slice a b x y Ha Hb. unfold Checksums_Less. rewrite Ha, Hb.
  reflexivity.
Qed.

Lemma lessEntry_strict_weak_witness :
  lessEntry {| Hash := "h0"; Path := "a/x" |} {| Hash := "h2"; Path := "b/x" |} = true.
Proof.
  exact (proj1 (proj2 lessEntry_strict_weak)
           {| Hash := "h0"; Path := "a/x" |} {| Hash := "h1"; Path := "A/y" |}
           {| Hash := "h2"; Path := "b/x" |} eq_refl eq_refl).
Defined.

Lemma swap_inj a b :
  Inj eq eq (fun i : nat =>
               if decide (i = a) then b else if decide (i = b) then a else i).
Proof. intros i j. repeat case_decide; congruence. Qed.

(** X17. [Swap] panics exactly when an index is out of range.  Otherwise
    the slice keeps its length and its elements, the elements at the two
    indices are exchanged, every other element stays where it is, and
    swapping again restores the slice. *)
Theorem Checksums_Swap_spec slice a b :
  (Checksums_Swap slice a b = None
   <-> ~ (a < Checksums_Len slice /\ b < Checksums_Len slice))
  /\ forall slice',
       Checksums_Swap slice a b = Some slice' ->
       slice' ≡ₚ slice
       /\ Checksums_Len slice' = Checksums_Len slice
       /\ slice' !! a = slice !! b
       /\ slice' !! b = slice !! a
       /\ (forall i, i <> a -> i <> b -> slice' !! i = slice !! i)
       /\ Checksums_Swap slice' a b = Some slice.
Proof.
  unfold Checksums_Swap, Checksums_Len, Checksums in *.
  destruct (slice !! a) as [x|] eqn:Ha.
  2:{ apply lookup_ge_None in Ha. split; [|discriminate].
      split; [lia|reflexivity]. }
  destruct (slice !! b) as [y|] eqn:Hb.
  2:{ apply lookup_ge_None in Hb. split; [|discriminate].
      split; [lia|reflexivity]. }
  pose proof (lookup_lt_Some _ _ _ Ha) as Hla.
  pose proof (lookup_lt_Some _ _ _ Hb) as Hlb.
  split; [split; [discriminate|lia]|].
  intros slice' [= <-].
  assert (Hlen : length (<[b:=x]> (<[a:=y]> slice)) = length slice)
    by (rewrite !length_insert; reflexivity).
  assert (Hlook : forall i,
             <[b:=x]> (<[a:=y]> slice) !! i
             = slice !! (if decide (i = a) then b
                         else if decide (i = b) then a else i)).
  { intros i. destruct (decide (i = b)) as [->|Hib].
    - rewrite list_lookup_insert_eq by (rewrite length_insert; exact Hlb).
      destruct (decide (b = a)) as [->|]; congruence.
    - rewrite list_lookup_insert_ne by congruence.
      destruct (decide (i = a)) as [->|Hia].
      + rewrite list_lookup_insert_eq by exact Hla. congruence.
      + rewrite list_lookup_insert_ne by congruence. reflexivity. }
  split.
  { apply Permutation_inj. split; [exact Hlen|].
    eexists. split; [apply (swap_inj a b)|exact Hlook]. }
  split; [exact Hlen|].
  split; [rewrite Hlook, decide_True by reflexivity; exact Hb|].
  split.
  { rewrite Hlook. destruct (decide (b = a)) as [->|]; [congruence|].
    rewrite decide_True by reflexivity. exact Ha. }
  split.
  { intros i Hia Hib. rewrite Hlook, !decide_False by assumption. reflexivity. }
  rewrite !Hlook, decide_True by reflexivity. rewrite Hb.
  assert (Hb' : slice !! (if decide (b = a) then b
                          else if decide (b = b) then a else b) = Some x).
  { destruct (decide (b = a)) as [->|]; [exact Ha|].
    rewrite decide_True by reflexivity. exact Ha. }
  rewrite Hb'. f_equal. apply list_eq. intros i.
  destruct (decide (i = b)) as [->|Hib].
  - rewrite list_lookup_insert_eq by (rewrite !length_insert; exact Hlb).
    symmetry. exact Hb.
  - rewrite list_lookup_insert_ne by congruence.
    destruct (decide (i = a)) as [->|Hia].
    + rewrite list_lookup_insert_eq by (rewrite !length_insert; exact Hla).
      symmetry. exact Ha.
    + rewrite list_lookup_insert_ne by congruence.
      rewrite Hlook, !decide_False by assumption. reflexivity.
Qed.

Lemma Checksums_Swap_spec_witness :
  let slice := [ {| Hash := "h0"; Path := "a" |}; {| Hash := "h1"; Path := "b" |};
                 {| Hash := "h2"; Path := "c" |} ] in
  Checksums_Swap slice 0 2
  = Some [ {| Hash := "h2"; Path := "c" |}; {| Hash := "h1"; Path := "b" |};
           {| Hash := "h0"; Path := "a" |} ]
  /\ Checksums_Swap [ {| Hash := "h2"; Path := "c" |}; {| Hash := "h1"; Path := "b" |};
                      {| Hash := "h0"; Path := "a" |} ] 0 2 = Some slice.
Proof.
  intros slice. split; [reflexivity|].
  apply (proj2 (Checksums_Swap_spec slice 0 2)). reflexivity.
Defined.

(** ** Entries of one directory are written together *)

Lemma ltb_false_eq a b :
  String.ltb a b = false -> String.ltb b a = false -> a = b.
Proof.
  rewrite !ltb_leb, !negb_false_iff. intros H1 H2.
  apply String.leb_antisym; assumption.
Qed.

(** X16. In the order [writeFile] writes the entries, those of one
    directory (compared as [Less] compares them, lower-cased) stand
    together: between two entries of a directory there are only entries of
    that directory.  This holds whatever [strings.ToLower] makes of a
    directory and however [sort.Sort] orders entries that tie. *)
Theorem sorted_groups_directories ToLower Sort sums l1 x l2 y l3 :
  sorts (generic.lessEntry ToLower) Sort ->
  Sort (generic.lessEntry ToLower) sums = l1 ++ x :: l2 ++ y :: l3 ->
  lowerDir ToLower x = lowerDir ToLower y ->
  Forall (fun z => lowerDir ToLower z = lowerDir ToLower x) l2.
Proof.
  intros Hsorts Hsort Hxy.
  pose proof (proj2 (Hsorts sums)) as Hs. rewrite Hsort in Hs.
  apply Sorted_StronglySorted in Hs; [|apply notAfter_keys_trans].
  apply StronglySorted_app in Hs as (_ & _ & Hs).
  apply StronglySorted_cons in Hs as [Hx Hs].
  apply List.Forall_forall. intros z Hz.
  assert (Hxz : notAfter (generic.lessEntry ToLower) x z).
  { rewrite List.Forall_forall in Hx. apply Hx, in_or_app. left. exact Hz. }
  assert (Hzy : notAfter (generic.lessEntry ToLower) z y).
  { apply (StronglySorted_app_1_elem_of _ _ _ _ _ Hs).
    - apply list_elem_of_In. exact Hz.
    - left. }
  unfold notAfter, generic.lessEntry in Hxz, Hzy.
  fold (lowerDir ToLower x) in *. fold (lowerDir ToLower y) in *.
  fold (lowerDir ToLower z) in *.
  rewrite <- Hxy in Hzy.
  destruct (String.eqb_spec (lowerDir ToLower z) (lowerDir ToLower x))
    as [Heq|Hne]; [exact Heq|].
  destruct (String.eqb_spec (lowerDir ToLower x) (lowerDir ToLower z))
    as [Heq|_]; [congruence|].
  apply ltb_false_eq; assumption.
Qed.

Lemma sorted_groups_directories_witness :
  Forall (fun z => lowerDir strings.ToLower z = "a")
         [ {| Hash := "h1"; Path := "a/y" |} ].
Proof.
  apply (sorted_groups_directories strings.ToLower (@sort.Sort Checksum)
           [ {| Hash := "h0"; Path := "a/z" |}; {| Hash := "h3"; Path := "b/x" |};
             {| Hash := "h1"; Path := "a/y" |}; {| Hash := "h2"; Path := "A/x" |} ]
           [] {| Hash := "h2"; Path := "A/x" |}
           [ {| Hash := "h1"; Path := "a/y" |} ]
           {| Hash := "h0"; Path := "a/z" |}
           [ {| Hash := "h3"; Path := "b/x" |} ]);
    [apply insertion_sorts, Less_asym|reflexivity..].
Defined.

(** ** The order does not see the case of letters *)

Lemma lowerByte_eqb_sep c :
  Ascii.eqb (strings.lowerByte c) "/" = Ascii.eqb c "/".
Proof. destruct c as [[] [] [] [] [] [] [] []]; reflexivity. Qed.

Lemma lowerByte_eqb_dot c :
  Ascii.eqb (strings.lowerByte c) "." = Ascii.eqb c ".".
Proof. destruct c as [[] [] [] [] [] [] [] []]; reflexivity. Qed.

Lemma ToLower_eqb_empty e : String.eqb (strings.ToLower e) "" = String.eqb e "".
Proof. destruct e; reflexivity. Qed.

Lemma ToLower_eqb_dot e : String.eqb (strings.ToLower e) "." = String.eqb e ".".
Proof.
  destruct e as [|c [|d e]]; try reflexivity; cbn [strings.ToLower String.eqb];
    rewrite lowerByte_eqb_dot; reflexivity.
Qed.

Lemma ToLower_eqb_dotdot e :
  String.eqb (strings.ToLower e) ".." = String.eqb e "..".
Proof.
  destruct e as [|c [|d [|d' e]]]; try reflexivity;
    cbn [strings.ToLower String.eqb]; rewrite !lowerByte_eqb_dot; reflexivity.
Qed.

Lemma ToLower_app a b :
  strings.ToLower (a +:+ b) = strings.ToLower a +:+ strings.ToLower b.
Proof.
  induction a as [|c a IH]; [reflexivity|].
  rewrite append_cons. cbn [strings.ToLower]. rewrite IH, append_cons.
  reflexivity.
Qed.

Lemma ToLower_uptoLastSep s :
  strings.ToLower (filepath.uptoLastSep s)
  = filepath.uptoLastSep (strings.ToLower s).
Proof.
  induction s as [|c s IH]; [reflexivity|].
  cbn [strings.ToLower filepath.uptoLastSep]. rewrite <- IH.
  unfold filepath.Separator. rewrite lowerByte_eqb_sep, ToLower_eqb_empty.
  destruct (Ascii.eqb c "/" || negb (String.eqb (filepath.uptoLastSep s) ""));
    reflexivity.
Qed.

Lemma ToLower_SplitByte s :
  strings.SplitByte "/" (strings.ToLower s)
  = map strings.ToLower (strings.SplitByte "/" s).
Proof.
  induction s as [|c s IH]; [reflexivity|].
  cbn [strings.ToLower strings.SplitByte]. rewrite lowerByte_eqb_sep, IH.
  destruct (Ascii.eqb c "/"); [reflexivity|].
  destruct (strings.SplitByte "/" s); reflexivity.
Qed.

Lemma ToLower_cleanElem rooted out e :
  filepath.cleanElem rooted (map strings.ToLower out) (strings.ToLower e)
  = map strings.ToLower (filepath.cleanElem rooted out e).
Proof.
  unfold filepath.cleanElem.
  rewrite ToLower_eqb_empty, ToLower_eqb_dot, ToLower_eqb_dotdot.
  destruct (String.eqb e "" || String.eqb e "."); [reflexivity|].
  destruct (String.eqb e ".."); [|reflexivity].
  destruct out as [|top out]; [destruct rooted; reflexivity|].
  cbn [map]. rewrite ToLower_eqb_dotdot.
  destruct (String.eqb top ".."); reflexivity.
Qed.

Lemma ToLower_scan rooted elems : forall out,
  fold_left (filepath.cleanElem rooted) (map strings.ToLower elems)
            (map strings.ToLower out)
  = map strings.ToLower (fold_left (filepath.cleanElem rooted) elems out).
Proof.
  induction elems as [|e elems IH]; intros out; [reflexivity|].
  cbn [map fold_left]. rewrite ToLower_cleanElem. apply IH.
Qed.

Lemma ToLower_Join elems :
  strings.Join (map strings.ToLower elems) "/"
  = strings.ToLower (strings.Join elems "/").
Proof.
  induction elems as [|e elems IH]; [reflexivity|].
  destruct elems as [|e' elems]; [reflexivity|].
  cbn [map] in *. rewrite !Join_cons, IH, !ToLower_app. reflexivity.
Qed.

Lemma ToLower_IsAbs p : filepath.IsAbs (strings.ToLower p) = filepath.IsAbs p.
Proof.
  destruct p as [|c p]; [reflexivity|].
  cbn [strings.ToLower]. rewrite !IsAbs_cons. apply lowerByte_eqb_sep.
Qed.

Lemma ToLower_Clean p :
  strings.ToLower (filepath.Clean p) = filepath.Clean (strings.ToLower p).
Proof.
  unfold filepath.Clean, filepath.cleanElems.
  rewrite ToLower_eqb_empty, ToLower_IsAbs.
  destruct (String.eqb p ""); [reflexivity|].
  unfold filepath.Separator.
  rewrite ToLower_SplitByte, (ToLower_scan _ _ []), <- map_rev.
  set (out := rev _).
  destruct (filepath.IsAbs p).
  - rewrite ToLower_app, ToLower_Join. reflexivity.
  - destruct out as [|e out]; [reflexivity|].
    cbn [map]. rewrite <- ToLower_Join. reflexivity.
Qed.

Lemma ToLower_Dir p :
  strings.ToLower (filepath.Dir p) = filepath.Dir (strings.ToLower p).
Proof. unfold filepath.Dir. rewrite ToLower_Clean, ToLower_uptoLastSep. reflexivity. Qed.

(** X15. [Less] compares lower-cased text only: two entries whose paths
    differ in the case of ASCII letters, or in their hashes, compare alike
    with every other entry, and neither is less than the other. *)
Theorem lessEntry_ignores_case x x' y :
  strings.ToLower (Path x) = strings.ToLower (Path x') ->
  lessEntry x y = lessEntry x' y
  /\ lessEntry y x = lessEntry y x'
  /\ lessEntry x x' = false.
Proof.
  intros Heq.
  assert (Hdir : strings.ToLower (filepath.Dir (Path x))
                 = strings.ToLower (filepath.Dir (Path x')))
    by (rewrite !ToLower_Dir, Heq; reflexivity).
  unfold lessEntry. rewrite Hdir, Heq. split; [reflexivity|].
  split; [reflexivity|].
  rewrite String.eqb_refl, ltb_leb, leb_refl. reflexivity.
Qed.

Lemma lessEntry_ignores_case_witness :
  lessEntry {| Hash := "h0"; Path := "Src/A.txt" |} {| Hash := "h1"; Path := "src/b.txt" |}
  = lessEntry {| Hash := "h2"; Path := "src/a.TXT" |} {| Hash := "h1"; Path := "src/b.txt" |}.
Proof.
  exact (proj1 (lessEntry_ignores_case
                  {| Hash := "h0"; Path := "Src/A.txt" |}
                  {| Hash := "h2"; Path := "src/a.TXT" |}
                  {| Hash := "h1"; Path := "src/b.txt" |} eq_refl)).
Defined.

(** ** Hashes in upper case *)

(** X11. The parser accepts the hexadecimal digits [A] to [F] in a hash, but
    [Verify] compares the recorded hash with the lower-case digest byte for
    byte: an entry whose hash is not all lower case never verifies, whatever
    its file holds. *)
Theorem upper_case_hash_never_verifies w dir h rest :
  isHash h = true -> isLowerHash h = false ->
  strings.Contains1 strings.LF rest = false ->
  exists c,
    entryOfLine dir (h +:+ " *" +:+ rest) = Some c
    /\ Hash c = h
    /\ fst (Checksum_Verify w c) = false
    /\ classify w c <> ClassOK.
Proof.
  intros Hh Hlow Hlf.
  destruct (entryOfLine_hash dir h rest Hh Hlf) as (c & Hc & Hhash).
  exists c. split; [exact Hc|]. split; [exact Hhash|].
  assert (Hv : fst (Checksum_Verify w c) = false).
  { unfold Checksum_Verify.
    destruct (generateMd5 w (Path c)) as [newHash|err] eqn:Hgen; [|reflexivity].
    destruct (String.eqb_spec (Hash c) newHash) as [Heq|]; [|reflexivity].
    apply generateMd5_lower in Hgen. congruence. }
  split; [exact Hv|].
  unfold classify. destruct (Checksum_Verify w c) as [[|] [err|]];
    simpl in Hv; congruence.
Qed.

Lemma upper_case_hash_never_verifies_witness :
  exists c,
    entryOfLine "/d" ("900150983CD24FB0D6963F7D28E17F72" +:+ " *" +:+ "c.txt") = Some c
    /\ Hash c = "900150983CD24FB0D6963F7D28E17F72"
    /\ fst (Checksum_Verify updateDisk c) = false
    /\ classify updateDisk c <> ClassOK.
Proof.
  apply (upper_case_hash_never_verifies updateDisk "/d"
           "900150983CD24FB0D6963F7D28E17F72" "c.txt"); reflexivity.
Defined.

(** ** Files without entries *)

Lemma omap_all_None {A B} (f : A -> option B) l :
  (forall x, In x l -> f x = None) -> omap f l = [].
Proof.
  induction l as [|x l IH]; intros H; [reflexivity|].
  cbn [omap list_omap]. rewrite (H x) by (left; reflexivity).
  apply IH. intros y Hy. apply H. right. exact Hy.
Qed.

(** X10. A readable file none of whose lines matches the entry pattern (an
    empty file, or a file that is no manifest at all) is reported [OK], and
    nothing is digested. *)
Theorem verifyFile_no_entries w path data :
  ReadFile w path = Ok data ->
  (forall line, In line (manifestLines data) -> MatchString line = false) ->
  readFile w path = Ok []
  /\ verifyFile w path = ([Colored (" OK: " +:+ path +:+ nl) FgGreen], []).
Proof.
  intros Hread Hno.
  assert (Hsums : readFile w path = Ok []).
  { rewrite (readFile_entries _ _ _ Hread). f_equal.
    apply omap_all_None. intros line Hline. unfold entryOfLine.
    rewrite (Hno line Hline). destruct (_ <=? _)%nat; reflexivity. }
  split; [exact Hsums|]. rewrite (verifyFile_report _ _ _ Hsums). reflexivity.
Qed.

Lemma verifyFile_no_entries_witness :
  verifyFile updateDisk "src/c.txt"
  = ([Colored (" OK: src/c.txt" +:+ nl) FgGreen], []).
Proof.
  refine (proj2 (verifyFile_no_entries updateDisk "src/c.txt" "abc" eq_refl _)).
  intros line [<-|[]]. reflexivity.
Defined.

(** ** The fields of a matching line *)

(** X27. The index expressions [split[0]] and [split[1]] of the parsers
    never go out of range: a line that matches the pattern splits at [ *]
    into at least two parts, the first of which is the 32 hexadecimal
    characters. *)
Theorem matching_line_splits line :
  MatchString line = true ->
  exists h p more,
    strings.SplitPair " " "*" line = h :: p :: more
    /\ isHash h = true
    /\ recordedHash line = h
    /\ recordedPath line = p.
Proof.
  intros (h & rest & -> & Hh & _)%MatchString_spec.
  pose proof Hh as [_ Hall]%andb_true_iff.
  unfold recordedHash, recordedPath. rewrite (SplitPair_hash _ _ Hall).
  pose proof (SplitPair_nonempty " " "*" rest) as Hne.
  destruct (strings.SplitPair " " "*" rest) as [|p more]; [contradiction|].
  exists h, p, more. auto.
Qed.

Lemma matching_line_splits_witness :
  exists h p more,
    strings.SplitPair " " "*" "900150983cd24fb0d6963f7d28e17f72 *" = h :: p :: more
    /\ isHash h = true.
Proof.
  destruct (matching_line_splits "900150983cd24fb0d6963f7d28e17f72 *" eq_refl)
    as (h & p & more & Hs & Hh & _).
  exists h, p, more. auto.
Defined.

(** ** [Checksum.String] *)

(** X13. The text [String] gives for an entry is a line the parser accepts,
    when the hash is one and the path holds no line feed and no [ *]: the
    line parses to the entry's hash and to its path resolved against the
    manifest's directory, that is, to the entry itself when its path is
    absolute. *)
Theorem Checksum_String_parses dir c :
  isHash (Hash c) = true ->
  strings.Contains1 strings.LF (Path c) = false ->
  strings.Contains2 " " "*" (Path c) = false ->
  MatchString (Checksum_String c) = true
  /\ entryOfLine dir (Checksum_String c)
     = Some {| Hash := Hash c; Path := resolve dir (Path c) |}
  /\ (filepath.IsAbs (Path c) = true ->
      entryOfLine dir (Checksum_String c) = Some c).
Proof.
  intros Hh Hlf Hstar. unfold Checksum_String.
  pose proof (entryOfLine_written dir _ _ Hh Hlf Hstar) as He.
  split; [exact (proj1 (proj1 (entryOfLine_spec dir _ _) He))|].
  split; [exact He|].
  intros Habs. rewrite He. unfold resolve. rewrite Habs.
  destruct c; reflexivity.
Qed.

Lemma Checksum_String_parses_witness :
  entryOfLine "src" "900150983cd24fb0d6963f7d28e17f72 *sub dir/c.txt"
  = Some {| Hash := "900150983cd24fb0d6963f7d28e17f72"; Path := "src/sub dir/c.txt" |}.
Proof.
  exact (proj1 (proj2 (Checksum_String_parses "src"
           {| Hash := "900150983cd24fb0d6963f7d28e17f72"; Path := "sub dir/c.txt" |}
           eq_refl eq_refl eq_refl))).
Defined.

(** ** Line endings *)

Lemma ReplacePair_noLF a new s :
  strings.Contains1 strings.LF s = false ->
  strings.ReplacePair a strings.LF new s = s.
Proof.
  induction s as [|c s IH]; [reflexivity|].
  cbn [strings.Contains1]. intros [Hc Hs]%orb_false_iff.
  rewrite ReplacePair_cons. destruct s as [|d s]; [reflexivity|].
  cbn [strings.Contains1] in Hs. apply orb_false_iff in Hs as [Hd Hs'].
  rewrite Hd, andb_false_r. f_equal. apply IH.
  cbn [strings.Contains1]. rewrite Hd, Hs'. reflexivity.
Qed.

Lemma Join_noLF lines :
  Forall (fun line => strings.Contains1 strings.LF line = false) lines ->
  strings.Contains1 strings.LF (strings.Join lines (String strings.CR "")) = false.
Proof.
  induction 1 as [|e lines He _ IH]; [reflexivity|].
  destruct lines as [|e' lines]; [exact He|].
  rewrite Join_cons, !Contains1_app, He, IH. reflexivity.
Qed.

Lemma Replace_Join_lf lines :
  Forall (fun line => strings.Contains1 strings.LF line = false
                      /\ chompCR line = line) lines ->
  strings.ReplacePair strings.CR strings.LF nl (strings.Join lines nl)
  = strings.Join lines nl.
Proof.
  induction 1 as [|e lines [He Hcr] _ IH]; [reflexivity|].
  destruct lines as [|e' lines]; [apply ReplacePair_noLF, He|].
  rewrite Join_cons, (ReplaceCRLF_line _ _ He), Hcr, IH. reflexivity.
Qed.

Lemma Replace_Join_crlf lines :
  Forall (fun line => strings.Contains1 strings.LF line = false) lines ->
  strings.ReplacePair strings.CR strings.LF nl
    (strings.Join lines (String strings.CR nl))
  = strings.Join lines nl.
Proof.
  induction 1 as [|e lines He _ IH]; [reflexivity|].
  destruct lines as [|e' lines]; [apply ReplacePair_noLF, He|].
  rewrite !Join_cons.
  replace (e +:+ String strings.CR nl
             +:+ strings.Join (e' :: lines) (String strings.CR nl))
    with ((e +:+ String strings.CR "") +:+ nl
            +:+ strings.Join (e' :: lines) (String strings.CR nl)).
  2:{ rewrite append_assoc, append_cons, append_nil_l.
      unfold nl. rewrite !append_cons, !append_nil_l. reflexivity. }
  rewrite ReplaceCRLF_line.
  2:{ rewrite Contains1_app, He. reflexivity. }
  rewrite chompCR_app by discriminate. cbn [chompCR].
  rewrite Ascii.eqb_refl. cbn [String.eqb andb].
  rewrite append_nil_r, IH. reflexivity.
Qed.

(** X9. A manifest saved with CRLF line endings reads as the same manifest
    saved with LF line endings: both parsers return the same entries, and
    the lines they see are the lines of the text.  (The lines hold no line
    feed and do not end in a carriage return.) *)
Theorem crlf_reads_like_lf w1 w2 path lines :
  Forall (fun line => strings.Contains1 strings.LF line = false
                      /\ chompCR line = line) lines ->
  ReadFile w1 path = Ok (strings.Join lines (String strings.CR nl)) ->
  ReadFile w2 path = Ok (strings.Join lines nl) ->
  readFile w1 path = readFile w2 path
  /\ readFileToMap w1 path = readFileToMap w2 path
  /\ (lines <> [] ->
      manifestLines (strings.Join lines (String strings.CR nl)) = lines).
Proof.
  intros Hlines H1 H2.
  assert (Hlf : Forall (fun line => strings.Contains1 strings.LF line = false) lines).
  { eapply Forall_impl; [exact Hlines|]. intros line [H _]. exact H. }
  assert (Heq : manifestLines (strings.Join lines (String strings.CR nl))
                = manifestLines (strings.Join lines nl)).
  { unfold manifestLines.
    rewrite (Replace_Join_crlf _ Hlf), (Replace_Join_lf _ Hlines). reflexivity. }
  unfold readFile, readFileToMap. rewrite H1, H2, Heq.
  split; [reflexivity|]. split; [reflexivity|].
  intros Hne. unfold manifestLines.
  rewrite (Replace_Join_lf _ Hlines). apply SplitByte_Join; assumption.
Qed.

Lemma crlf_reads_like_lf_witness :
  let lines := [ "9dd4e461268c8034f5c8564e155c67a6 *a.txt";
                 "900150983cd24fb0d6963f7d28e17f72 *c.txt"; "" ] in
  readFile (disk [("d/sums.md5", strings.Join lines (String strings.CR nl))] [] (fun _ => []))
           "d/sums.md5"
  = Ok [ {| Hash := "9dd4e461268c8034f5c8564e155c67a6"; Path := "d/a.txt" |};
         {| Hash := "900150983cd24fb0d6963f7d28e17f72"; Path := "d/c.txt" |} ].
Proof.
  intros lines.
  rewrite (proj1 (crlf_reads_like_lf
             (disk [("d/sums.md5", strings.Join lines (String strings.CR nl))] [] (fun _ => []))
             (disk [("d/sums.md5", strings.Join lines nl)] [] (fun _ => []))
             "d/sums.md5" lines
             ltac:(repeat constructor) eq_refl eq_refl)).
  reflexivity.
Defined.

(** ** The text of a manifest *)

Section Written.
Context (ToLower : string -> string).
Context (Sort : (Checksum -> Checksum -> bool) -> Checksums -> Checksums).
Hypothesis Sort_sorts : sorts (generic.lessEntry ToLower) Sort.

Lemma written_text w sums path data :
  generic.serialize ToLower Sort w sums path = Ok data ->
  exists rels,
    Forall2 (fun c rel => relPathOf w (filepath.Dir path) (Path c) = Ok rel)
            (Sort (generic.lessEntry ToLower) sums) rels
    /\ data = manifestText (zip (map Hash (Sort (generic.lessEntry ToLower) sums)) rels).
Proof.
  unfold generic.serialize. intros Hser.
  destruct (writeEntries_text _ _ _ _ _ Hser) as (rels & Hall & Hdata).
  rewrite append_nil_l in Hdata. exists rels. auto.
Qed.

Lemma written_entries w sums path data :
  generic.serialize ToLower Sort w sums path = Ok data ->
  (forall c, In c sums ->
     isHash (Hash c) = true /\ portable (filepath.Dir path) (Path c)) ->
  entriesOf (filepath.Dir path) data = Sort (generic.lessEntry ToLower) sums.
Proof.
  intros Hser Hsums.
  destruct (written_text _ _ _ _ Hser) as (rels & Hall & ->).
  apply entriesOf_written.
  eapply Forall2_impl_In; [exact Hall|]. intros c rel Hc Hrel. simpl in Hrel.
  apply (proj1 (sorted_In _ _ Sort_sorts _ _)) in Hc.
  destruct (Hsums c Hc) as (Hh & Hclean & Hlf & Hstar & Hcr & Hkind).
  destruct (relPathOf_back w path (Path c) Hclean Hkind)
    as (rel' & Hrel' & Hres & Klf & Kstar & Kcr).
  assert (rel' = rel) as -> by congruence.
  repeat split; auto.
Qed.

Lemma written_read w sums path w' :
  generic.writeFile ToLower Sort w sums path = Ok w' ->
  exists data,
    generic.serialize ToLower Sort w sums path = Ok data
    /\ WriteErr w path = None
    /\ ReadFile w' path = Ok data.
Proof.
  unfold generic.writeFile.
  destruct (generic.serialize ToLower Sort w sums path) as [data|];
    [|discriminate].
  intros H. exists data. split; [reflexivity|]. split.
  - unfold WriteFile in H. destruct (WriteErr w path); [discriminate|reflexivity].
  - eapply WriteFile_read, H.
Qed.

Lemma written_parses_to_map w sums path data :
  ReadFile w path = Ok data ->
  generic.serialize ToLower Sort w sums path = Ok data ->
  NoDup (map Path sums) ->
  (forall c, In c sums ->
     isHash (Hash c) = true /\ portable (filepath.Dir path) (Path c)) ->
  exists m : gmap string Checksum,
    readFileToMap w path = Ok m
    /\ forall k c, m !! k = Some c <-> In c sums /\ Path c = k.
Proof.
  intros Hrd Hser Hnd Hsums.
  pose proof (written_entries _ _ _ _ Hser Hsums) as Hent.
  destruct (readFileToMap_lookup _ _ _ Hrd) as (m & Hm & Hlook).
  exists m. split; [exact Hm|].
  set (sorted := Sort (generic.lessEntry ToLower) sums) in *.
  assert (Hperm : sorted ≡ₚ sums) by apply Sort_sorts.
  assert (Hnd' : NoDup (map Path sorted)).
  { assert (Hp : map Path sorted ≡ₚ map Path sums)
      by apply Permutation_map, Hperm.
    rewrite Hp. exact Hnd. }
  intros k c. rewrite Hlook, Hent. split.
  - intros Hlast. apply last_filter_true in Hlast as [Hk Hc].
    apply String.eqb_eq in Hk. apply (proj1 (sorted_In _ _ Sort_sorts _ _)) in Hc. auto.
  - intros [Hc <-]. apply (proj2 (sorted_In _ _ Sort_sorts _ _)) in Hc.
    apply (last_filter_unique Path String.eqb sorted c String.eqb_eq Hnd' Hc).
Qed.

End Written.

(** X25. The bytes [writeFile] writes.  They are, entry by entry, the
    hash, the two bytes [ *], a path and a line feed, and nothing else.
    The entries are all those given, duplicates included, in an order in
    which no entry is [Less] than an earlier one; the path written is the
    entry's path made relative to the manifest's directory, or absolute
    when [Rel] fails.  This holds whatever [strings.ToLower] computes and
    whichever sorted order [sort.Sort] produces. *)
Theorem serialize_text ToLower Sort w sums path data :
  sorts (generic.lessEntry ToLower) Sort ->
  generic.serialize ToLower Sort w sums path = Ok data ->
  exists sorted rels,
    sorted ≡ₚ sums
    /\ StronglySorted (notAfter (generic.lessEntry ToLower)) sorted
    /\ Forall2 (fun c rel => relPathOf w (filepath.Dir path) (Path c) = Ok rel)
               sorted rels
    /\ data = manifestText (zip (map Hash sorted) rels).
Proof.
  intros Hsorts Hser.
  destruct (written_text _ _ _ _ _ _ Hser) as (rels & Hall & Hdata).
  exists (Sort (generic.lessEntry ToLower) sums), rels.
  split; [apply Hsorts|]. split.
  { apply Sorted_StronglySorted; [apply notAfter_keys_trans|apply Hsorts]. }
  split; [exact Hall|exact Hdata].
Qed.

Lemma serialize_text_witness :
  exists sorted rels,
    sorted ≡ₚ [ {| Hash := "h1"; Path := "src/b.txt" |};
                {| Hash := "h0"; Path := "lib/a.txt" |} ]
    /\ Forall2 (fun c rel => relPathOf twoFiles (filepath.Dir "src/sums.md5") (Path c)
                             = Ok rel) sorted rels
    /\ "h0 *../lib/a.txt" +:+ nl +:+ "h1 *b.txt" +:+ nl
       = manifestText (zip (map Hash sorted) rels).
Proof.
  destruct (serialize_text strings.ToLower (@sort.Sort Checksum) twoFiles
              [ {| Hash := "h1"; Path := "src/b.txt" |};
                {| Hash := "h0"; Path := "lib/a.txt" |} ]
              "src/sums.md5"
              ("h0 *../lib/a.txt" +:+ nl +:+ "h1 *b.txt" +:+ nl)
              (insertion_sorts _ (Less_asym strings.ToLower)) eq_refl)
    as (sorted & rels & Hperm & _ & Hall & Hdata).
  exists sorted, rels. auto.
Defined.

(** ** Errors of [writeFile] *)

Lemma relPathOf_err w dir p e :
  relPathOf w dir p = Err e <->
  isOk (filepath.Rel dir p) = false
  /\ filepath.IsAbs p = false
  /\ Getwd w = Err e.
Proof.
  unfold relPathOf, filepath.Abs.
  destruct (filepath.Rel dir p) as [rel|err]; cbn [isOk].
  { split; [discriminate|intros [? _]; discriminate]. }
  destruct (filepath.IsAbs p).
  { split; [discriminate|intros (_ & ? & _); discriminate]. }
  destruct (Getwd w) as [wd|err'].
  - split; [discriminate|intros (_ & _ & ?); discriminate].
  - split; [intros [= ->]; auto|intros (_ & _ & [= ->]); reflexivity].
Qed.

Lemma writeEntries_Err w dir sums : forall output e,
  writeEntries w dir sums output = Err e ->
  exists c, In c sums /\ relPathOf w dir (Path c) = Err e.
Proof.
  induction sums as [|c sums IH]; intros output e; [discriminate|].
  cbn [writeEntries].
  destruct (relPathOf w dir (Path c)) as [rel|err] eqn:Hrel.
  - intros H. apply IH in H as (c' & Hin & Hc'). exists c'. split; [right|]; assumption.
  - intros [= ->]. exists c. split; [left; reflexivity|exact Hrel].
Qed.

Lemma writeEntries_Ok w dir sums : forall output data,
  writeEntries w dir sums output = Ok data ->
  forall c, In c sums -> isOk (relPathOf w dir (Path c)) = true.
Proof.
  induction sums as [|c sums IH]; intros output data; [intros _ ? []|].
  cbn [writeEntries].
  destruct (relPathOf w dir (Path c)) as [rel|err] eqn:Hrel; [|discriminate].
  intros H c' [<-|Hin]; [rewrite Hrel; reflexivity|].
  eapply IH; eassumption.
Qed.

(** X8. [writeFile] fails in two ways only.  Either some entry has a
    relative path that [Rel] cannot express from the manifest's directory
    and the working directory cannot be read, and the error is that of
    [Getwd]; or every path can be written and [ioutil.WriteFile] itself
    fails, and the error is its error. *)
Theorem writeFile_errors w sums path e :
  writeFile w sums path = Err e <->
  (Getwd w = Err e
   /\ exists c, In c sums
                /\ isOk (filepath.Rel (filepath.Dir path) (Path c)) = false
                /\ filepath.IsAbs (Path c) = false)
  \/ ((forall c, In c sums ->
         isOk (relPathOf w (filepath.Dir path) (Path c)) = true)
      /\ WriteErr w path = Some e).
Proof.
  assert (Hin : forall c, In c (sort.Sort lessEntry sums) <-> In c sums).
  { intros c. rewrite <- !list_elem_of_In, (Sort_perm lessEntry sums).
    reflexivity. }
  unfold writeFile, serialize, WriteFile.
  destruct (writeEntries w (filepath.Dir path) (sort.Sort lessEntry sums) "")
    as [data|err] eqn:Hw.
  - pose proof (writeEntries_Ok _ _ _ _ _ Hw) as Hok.
    assert (Hall : forall c, In c sums ->
               isOk (relPathOf w (filepath.Dir path) (Path c)) = true)
      by (intros c Hc; apply Hok, Hin, Hc).
    destruct (WriteErr w path) as [err|].
    + split.
      * intros [= ->]. right. auto.
      * intros [(Hg & c & Hc & Hrel & Habs)|[_ [= ->]]]; [|reflexivity].
        specialize (Hall c Hc).
        assert (Hf : relPathOf w (filepath.Dir path) (Path c) = Err e)
          by (apply relPathOf_err; auto).
        rewrite Hf in Hall. discriminate.
    + split; [discriminate|].
      intros [(Hg & c & Hc & Hrel & Habs)|[_ ?]]; [|discriminate].
      specialize (Hall c Hc).
      assert (Hf : relPathOf w (filepath.Dir path) (Path c) = Err e)
        by (apply relPathOf_err; auto).
      rewrite Hf in Hall. discriminate.
  - destruct (writeEntries_Err _ _ _ _ _ Hw) as (c & Hc & Hrel).
    apply Hin in Hc. pose proof Hrel as (Hr & Ha & Hg)%relPathOf_err.
    split.
    + intros [= ->]. left. split; [exact Hg|]. exists c. auto.
    + intros [(Hg' & _)|[Hall _]]; [congruence|].
      specialize (Hall c Hc). rewrite Hrel in Hall. discriminate.
Qed.

Lemma writeFile_errors_witness :
  writeFile
    {| IsTerminal := false; Getwd := Err "getwd: no such file or directory";
       Open := fun _ => Err ""; WriteErr := fun _ => None; Walk := fun _ => [];
       Stat := fun _ => Err ""; rangeOrder := fun _ keys => keys |}
    [ {| Hash := "h"; Path := "a.txt" |} ] "/d/sums.md5"
  = Err "getwd: no such file or directory".
Proof.
  apply (proj2 (writeFile_errors _ _ _ _)). left. split; [reflexivity|].
  exists {| Hash := "h"; Path := "a.txt" |}.
  split; [left; reflexivity|]. split; reflexivity.
Defined.

(** ** The hexadecimal rendering loses nothing *)

Lemma hexDigit_inj a b :
  (0 <= a < 16)%Z -> (0 <= b < 16)%Z ->
  fmt.hexDigit a = fmt.hexDigit b -> a = b.
Proof.
  intros Ha Hb.
  assert (Ha' : a = Z.of_nat (Z.to_nat a)) by lia.
  assert (Hb' : b = Z.of_nat (Z.to_nat b)) by lia.
  assert (Hna : Z.to_nat a < 16) by lia.
  assert (Hnb : Z.to_nat b < 16) by lia.
  rewrite Ha', Hb'. clear Ha Hb Ha' Hb'.
  generalize dependent (Z.to_nat b). generalize dependent (Z.to_nat a).
  intros n Hn m Hm.
  do 16 (destruct n as [|n]; [do 16 (destruct m as [|m];
           [vm_compute; intros H; try reflexivity; discriminate H|]); lia|]).
  lia.
Qed.

Lemma hexDigit_mod n : fmt.hexDigit n = fmt.hexDigit (n mod 16).
Proof. unfold fmt.hexDigit. rewrite Z.mod_mod by lia. reflexivity. Qed.

Lemma hex_inj l1 : forall l2,
  Forall (fun b => 0 <= b < 256)%Z l1 -> Forall (fun b => 0 <= b < 256)%Z l2 ->
  fmt.hex l1 = fmt.hex l2 -> l1 = l2.
Proof.
  induction l1 as [|b l1 IH]; intros [|b' l2] H1 H2; try discriminate;
    [reflexivity|].
  apply Forall_cons in H1 as [Hb H1]. apply Forall_cons in H2 as [Hb' H2].
  cbn [fmt.hex]. intros [= Hhi Hlo Hrest].
  rewrite (hexDigit_mod b), (hexDigit_mod b') in Hlo.
  apply hexDigit_inj in Hhi, Hlo;
    try (apply Z.mod_pos_bound; lia);
    try (split; [apply Z.div_pos; lia|apply Z.div_lt_upper_bound; lia]).
  f_equal; [|apply IH; assumption].
  rewrite (Z.div_mod b 16), (Z.div_mod b' 16) by lia. congruence.
Qed.

Lemma le32_bytes x : Forall (fun b => 0 <= b < 256)%Z (md5.le32 x).
Proof. unfold md5.le32. repeat constructor; apply Z.mod_pos_bound; lia. Qed.

Lemma Sum_bytes data : Forall (fun b => 0 <= b < 256)%Z (md5.Sum data).
Proof.
  unfold md5.Sum. destruct (fold_left _ _ _) as [[[a b] c] d].
  repeat (apply Forall_app; split); apply le32_bytes.
Qed.

(** X12. An entry that records the digest of some content verifies [OK]
    exactly when its file can be read and holds content with the same MD5
    digest, and is [Mismatched] exactly when the file can be read and the
    digest of its content is another: two digests are written as the same
    32 characters only if they are the same 16 bytes. *)
Theorem verify_iff_same_digest w c recorded :
  Hash c = fmt.hex (md5.Sum recorded) ->
  (classify w c = ClassOK <->
   exists data, readAttempt w (Path c) = Ok data
                /\ md5.Sum data = md5.Sum recorded)
  /\ (classify w c = Mismatched <->
      exists data, readAttempt w (Path c) = Ok data
                   /\ md5.Sum data <> md5.Sum recorded).
Proof.
  intros Hh. rewrite classify_readAttempt, Hh.
  destruct (readAttempt w (Path c)) as [data|err].
  2:{ split; (split; [discriminate|intros (? & [=] & _)]). }
  destruct (String.eqb_spec (fmt.hex (md5.Sum recorded)) (fmt.hex (md5.Sum data)))
    as [Heq|Hne].
  - apply hex_inj in Heq; [|apply Sum_bytes..].
    split; (split; [|intros (d & [= <-] & Hd)]); try discriminate;
      try congruence.
    intros _. exists data. auto.
  - split; (split; [|intros (d & [= <-] & Hd)]); try discriminate;
      try congruence.
    intros _. exists data. split; [reflexivity|]. congruence.
Qed.

Lemma verify_iff_same_digest_witness :
  classify updateDisk
    {| Hash := "900150983cd24fb0d6963f7d28e17f72"; Path := "src/c.txt" |}
  = ClassOK.
Proof.
  apply (proj1 (verify_iff_same_digest updateDisk
                  {| Hash := "900150983cd24fb0d6963f7d28e17f72"; Path := "src/c.txt" |}
                  "abc" eq_refl)).
  exists "abc". split; reflexivity.
Defined.

(** ** The scan of [new] *)

Lemma newVisit_ok w output sums it log :
  visitError w output true it = None ->
  newVisit w output sums it log
  = (Ok (sums ++ omap (freshEntry w) (keptPaths w output [it])),
     log ++ keptPaths w output [it]).
Proof.
  unfold visitError, newVisit, keptPaths, kept. cbn [List.filter].
  destruct (wErr it) as [err|]; [discriminate|].
  destruct (wIsDir it).
  { intros _. unfold ret. cbn. rewrite !app_nil_r. reflexivity. }
  unfold bind, lift, ret, hashing.
  destruct (isManifest w (wPath it) output) as [[|]|err]; [| |discriminate].
  - intros _. cbn. rewrite !app_nil_r. reflexivity.
  - cbn [map omap list_omap]. unfold freshEntry.
    destruct (generateMd5 w (wPath it)) as [hash|err]; [|discriminate].
    reflexivity.
Qed.

Lemma newVisit_err w output sums it log e :
  visitError w output true it = Some e ->
  newVisit w output sums it log = (Err e, log ++ keptPaths w output [it]).
Proof.
  unfold visitError, newVisit, keptPaths, kept. cbn [List.filter].
  destruct (wErr it) as [err|].
  { intros [= ->]. cbn [map]. rewrite app_nil_r. reflexivity. }
  destruct (wIsDir it); [discriminate|].
  unfold bind, lift, ret, hashing.
  destruct (isManifest w (wPath it) output) as [[|]|err]; [discriminate| |].
  - cbn [map].
    destruct (generateMd5 w (wPath it)) as [hash|err]; [discriminate|].
    intros [= ->]. reflexivity.
  - intros [= ->]. cbn [map]. rewrite app_nil_r. reflexivity.
Qed.

Lemma keptPaths_cons w manifest it items :
  keptPaths w manifest (it :: items)
  = keptPaths w manifest [it] ++ keptPaths w manifest items.
Proof.
  unfold keptPaths. cbn [List.filter].
  destruct (kept w manifest it); reflexivity.
Qed.

Lemma keptPaths_app w manifest l1 l2 :
  keptPaths w manifest (l1 ++ l2)
  = keptPaths w manifest l1 ++ keptPaths w manifest l2.
Proof. unfold keptPaths. rewrite List.filter_app, map_app. reflexivity. Qed.

Lemma scan_ok w output items : forall sums log,
  Forall (fun it => visitError w output true it = None) items ->
  forEach (newVisit w output) items sums log
  = (Ok (sums ++ omap (freshEntry w) (keptPaths w output items)),
     log ++ keptPaths w output items).
Proof.
  induction items as [|it items IH]; intros sums log Hall.
  - unfold keptPaths. cbn. unfold ret. rewrite !app_nil_r. reflexivity.
  - apply Forall_cons in Hall as [Hit Hall].
    rewrite forEach_cons, (newVisit_ok _ _ _ _ _ Hit), (IH _ _ Hall).
    rewrite (keptPaths_cons _ _ it items), omap_app, <- !app_assoc.
    reflexivity.
Qed.

Lemma scan_err w output pre it post e : forall sums log,
  Forall (fun it => visitError w output true it = None) pre ->
  visitError w output true it = Some e ->
  forEach (newVisit w output) (pre ++ it :: post) sums log
  = (Err e, log ++ keptPaths w output (pre ++ [it])).
Proof.
  induction pre as [|it' pre IH]; intros sums log Hall Hit.
  - cbn [app]. rewrite forEach_cons, (newVisit_err _ _ _ _ _ _ Hit).
    reflexivity.
  - apply Forall_cons in Hall as [Hit' Hall]. cbn [app].
    rewrite forEach_cons, (newVisit_ok _ _ _ _ _ Hit'), (IH _ _ Hall Hit).
    rewrite (keptPaths_cons _ _ it' (pre ++ [it])), <- app_assoc.
    reflexivity.
Qed.

(** A walk either meets no error or has a first item with one. *)
Lemma first_error w manifest digest items :
  Forall (fun it => visitError w manifest digest it = None) items
  \/ exists pre it post e,
       items = pre ++ it :: post
       /\ Forall (fun it => visitError w manifest digest it = None) pre
       /\ visitError w manifest digest it = Some e.
Proof.
  induction items as [|it items IH]; [left; constructor|].
  destruct (visitError w manifest digest it) as [e|] eqn:Hit.
  - right. exists [], it, items, e. split; [reflexivity|]. split; [constructor|exact Hit].
  - destruct IH as [Hall|(pre & it' & post & e & -> & Hpre & Hit')].
    + left. constructor; assumption.
    + right. exists (it :: pre), it', post, e.
      split; [reflexivity|]. split; [constructor; assumption|exact Hit'].
Qed.

Lemma kept_digest_ok w manifest it :
  visitError w manifest true it = None -> kept w manifest it = true ->
  isOk (generateMd5 w (wPath it)) = true.
Proof.
  unfold visitError, kept. destruct (wErr it); [discriminate|].
  destruct (wIsDir it); [discriminate|].
  destruct (isManifest w (wPath it) manifest) as [[|]|]; try discriminate.
  destruct (generateMd5 w (wPath it)); [reflexivity|discriminate].
Qed.

Lemma freshEntries w files :
  Forall (fun p => isOk (generateMd5 w p) = true) files ->
  Forall2 (fun p c => generateMd5 w p = Ok (Hash c) /\ Path c = p)
          files (omap (freshEntry w) files).
Proof.
  induction 1 as [|p files Hp _ IH]; [constructor|].
  cbn [omap list_omap]. unfold freshEntry at 1.
  destruct (generateMd5 w p) as [hash|] eqn:Hgen; [|discriminate].
  constructor; [split; [exact Hgen|reflexivity]|exact IH].
Qed.

Lemma keptPaths_digest_ok w manifest items :
  Forall (fun it => visitError w manifest true it = None) items ->
  Forall (fun p => isOk (generateMd5 w p) = true) (keptPaths w manifest items).
Proof.
  intros Hall. unfold keptPaths. apply Forall_map.
  apply List.Forall_forall. intros it [Hin Hk]%filter_In.
  rewrite List.Forall_forall in Hall.
  eapply kept_digest_ok; [apply Hall, Hin|exact Hk].
Qed.

(** X2. What a successful [new] computes.  The walk met no error; the
    files digested are, in walk order, the walked items that are no
    directory and not the manifest itself; there is one entry per such
    file, holding its path as walked and its digest; the manifest holds
    the serialization of these entries, and the report is the header and
    the [Wrote] line. *)
Theorem newCommand_computes w ctx source output rest :
  Args ctx = source :: output :: rest ->
  exitCode (newCommand w ctx) = 0 ->
  Forall (fun it => visitError w output true it = None) (Walk w source)
  /\ hashed (newCommand w ctx) = keptPaths w output (Walk w source)
  /\ stdout (newCommand w ctx)
     = [ Header ("Hashing: " +:+ source);
         Colored (" Wrote: " +:+ output +:+ nl +:+ nl) FgGreen ]
  /\ exists sums data,
       Forall2 (fun p c => generateMd5 w p = Ok (Hash c) /\ Path c = p)
               (keptPaths w output (Walk w source)) sums
       /\ serialize w sums output = Ok data
       /\ ReadFile (world (newCommand w ctx)) output = Ok data.
Proof.
  intros Hargs. unfold newCommand, scanAndHash. rewrite Hargs.
  destruct (first_error w output true (Walk w source))
    as [Hall|(pre & it & post & e & Hwalk & Hpre & Hit)].
  2:{ rewrite Hwalk, (scan_err _ _ _ _ _ _ _ _ Hpre Hit). discriminate. }
  rewrite (scan_ok _ _ _ _ _ Hall). cbn [app].
  destruct (writeFile w _ output) as [w'|err] eqn:Hw; [|discriminate].
  intros _. cbn [hashed stdout world]. split; [exact Hall|].
  split; [reflexivity|]. split; [reflexivity|].
  destruct (writeFile_read _ _ _ _ Hw) as (data & Hser & Hrd).
  eexists. exists data. split; [|split; eassumption].
  apply freshEntries, keptPaths_digest_ok, Hall.
Qed.

Lemma newCommand_computes_witness :
  hashed (newCommand twoFiles {| Args := ["src"; "sums.md5"]; Flags := [] |})
  = ["src/a.txt"; "src/b.txt"].
Proof.
  exact (proj1 (proj2 (newCommand_computes twoFiles
           {| Args := ["src"; "sums.md5"]; Flags := [] |} "src" "sums.md5" []
           eq_refl eq_refl))).
Defined.

(** X3. [new] stops at the first error of the walk: an error the walk
    reports for an item, a working directory that cannot be read when the
    item is compared with the manifest, or a file that cannot be digested.
    When the header could be printed, that is with [TermWidth] at least 2,
    nothing after that item is digested, nothing is written, the error is
    printed and the exit status is 1. *)
Theorem newCommand_first_error ToLower Sort TermWidth w ctx source output rest
  pre it post e :
  (2 <= TermWidth)%Z ->
  Args ctx = source :: output :: rest ->
  Walk w source = pre ++ it :: post ->
  Forall (fun it' => visitError w output true it' = None) pre ->
  visitError w output true it = Some e ->
  generic.newCommand ToLower Sort TermWidth w ctx
  = Ends {| stdout := [ Header ("Hashing: " +:+ source);
                        Colored (" Error: " +:+ e +:+ nl +:+ nl) FgRed ];
            hashed := keptPaths w output (pre ++ [it]);
            exitCode := 1;
            world := w |}.
Proof.
  intros Hwide Hargs Hwalk Hpre Hit. unfold generic.newCommand, scanAndHash.
  rewrite Hargs.
  destruct (sprintfHeader_prints TermWidth ("Hashing: " +:+ source) Hwide)
    as [text ->].
  rewrite Hwalk, (scan_err _ _ _ _ _ _ _ _ Hpre Hit). reflexivity.
Qed.

Lemma newCommand_first_error_witness :
  let w := remove twoFiles "src/a.txt" in
  generic.newCommand strings.ToLower (@sort.Sort Checksum) 80 w
    {| Args := ["src"; "sums.md5"]; Flags := [] |}
  = Ends {| stdout := [ Header "Hashing: src";
                        Colored (" Error: open src/a.txt: no such file or directory"
                                 +:+ nl +:+ nl) FgRed ];
            hashed := ["src/a.txt"];
            exitCode := 1;
            world := w |}.
Proof.
  intros w.
  exact (newCommand_first_error strings.ToLower (@sort.Sort Checksum) 80 w
           {| Args := ["src"; "sums.md5"]; Flags := [] |}
           "src" "sums.md5" [] [dirItem "src"] (fileItem "src/a.txt")
           [fileItem "src/b.txt"] _ ltac:(lia) eq_refl eq_refl
           ltac:(repeat constructor) eq_refl).
Defined.

(** ** The scan of [update] *)

Lemma updateVisit_ok w target (m : gmap string bool) it log :
  visitError w target false it = None ->
  updateVisit w target m it log
  = (Ok (fold_left (fun m p => <[p := true]> m) (keptPaths w target [it]) m),
     log).
Proof.
  unfold visitError, updateVisit, keptPaths, kept. cbn [List.filter].
  destruct (wErr it) as [err|]; [discriminate|].
  destruct (wIsDir it); [reflexivity|].
  unfold bind, lift, ret.
  destruct (isManifest w (wPath it) target) as [[|]|err];
    [reflexivity|reflexivity|discriminate].
Qed.

Lemma updateVisit_err w target (m : gmap string bool) it log e :
  visitError w target false it = Some e ->
  updateVisit w target m it log = (Err e, log).
Proof.
  unfold visitError, updateVisit.
  destruct (wErr it) as [err|]; [intros [= ->]; reflexivity|].
  destruct (wIsDir it); [discriminate|].
  unfold bind, lift, ret.
  destruct (isManifest w (wPath it) target) as [[|]|err];
    [discriminate|discriminate|intros [= ->]; reflexivity].
Qed.

Lemma scanSource_ok w target items : forall (m : gmap string bool) log,
  Forall (fun it => visitError w target false it = None) items ->
  forEach (updateVisit w target) items m log
  = (Ok (fold_left (fun m p => <[p := true]> m) (keptPaths w target items) m),
     log).
Proof.
  induction items as [|it items IH]; intros m log Hall; [reflexivity|].
  apply Forall_cons in Hall as [Hit Hall].
  rewrite forEach_cons, (updateVisit_ok _ _ _ _ _ Hit), (IH _ _ Hall).
  rewrite (keptPaths_cons _ _ it items), fold_left_app. reflexivity.
Qed.

Lemma scanSource_err w target pre it post e : forall (m : gmap string bool) log,
  Forall (fun it => visitError w target false it = None) pre ->
  visitError w target false it = Some e ->
  forEach (updateVisit w target) (pre ++ it :: post) m log = (Err e, log).
Proof.
  induction pre as [|it' pre IH]; intros m log Hall Hit.
  - cbn [app]. rewrite forEach_cons, (updateVisit_err _ _ _ _ _ _ Hit).
    reflexivity.
  - apply Forall_cons in Hall as [Hit' Hall]. cbn [app].
    rewrite forEach_cons, (updateVisit_ok _ _ _ _ _ Hit'), (IH _ _ Hall Hit).
    reflexivity.
Qed.

Lemma insert_all_lookup paths : forall (m : gmap string bool) k,
  fold_left (fun m p => <[p := true]> m) paths m !! k
  = if bool_decide (k ∈ paths) then Some true else m !! k.
Proof.
  induction paths as [|p paths IH]; intros m k.
  - cbn [fold_left]. rewrite bool_decide_eq_false_2 by apply not_elem_of_nil.
    reflexivity.
  - cbn [fold_left]. rewrite IH.
    destruct (decide (k ∈ paths)) as [Hin|Hnin].
    + rewrite !bool_decide_eq_true_2; [reflexivity|right; exact Hin|exact Hin].
    + rewrite (bool_decide_eq_false_2 _ Hnin).
      destruct (decide (k = p)) as [->|Hne].
      * rewrite lookup_insert_eq, bool_decide_eq_true_2 by left. reflexivity.
      * rewrite lookup_insert_ne by congruence.
        rewrite bool_decide_eq_false_2; [reflexivity|].
        intros [?|?]%elem_of_cons; contradiction.
Qed.

(** X5. The scan of [update] digests nothing.  When the walk meets no
    error, the paths it records are exactly the walked items that are no
    directory and not the target manifest; at the first error the scan
    stops, and [update], when the header could be printed, prints the
    error and exits with status 1 without reading or writing the
    manifest. *)
Theorem scanSource_keys w source target :
  (Forall (fun it => visitError w target false it = None) (Walk w source) ->
   exists sourceMap,
     scanSource w source target = (Ok sourceMap, [])
     /\ forall k,
          sourceMap !! k
          = if bool_decide (k ∈ keptPaths w target (Walk w source))
            then Some true else None)
  /\ (forall pre it post e,
        Walk w source = pre ++ it :: post ->
        Forall (fun it' => visitError w target false it' = None) pre ->
        visitError w target false it = Some e ->
        scanSource w source target = (Err e, [])
        /\ forall ToLower Sort TermWidth ctx rest,
             (2 <= TermWidth)%Z ->
             Args ctx = source :: target :: rest ->
             generic.updateCommand ToLower Sort TermWidth w ctx
             = Ends {| stdout := [ Header ("Updating: " +:+ target);
                                   Colored (" Error: " +:+ e +:+ nl +:+ nl) FgRed ];
                       hashed := [];
                       exitCode := 1;
                       world := w |}).
Proof.
  split.
  - intros Hall. unfold scanSource. rewrite (scanSource_ok _ _ _ _ _ Hall).
    eexists. split; [reflexivity|]. intros k.
    rewrite insert_all_lookup, lookup_empty. reflexivity.
  - intros pre it post e Hwalk Hpre Hit.
    assert (Hscan : scanSource w source target = (Err e, [])).
    { unfold scanSource. rewrite Hwalk. apply scanSource_err; assumption. }
    split; [exact Hscan|]. intros ToLower Sort TermWidth ctx rest Hwide Hargs.
    unfold generic.updateCommand. rewrite Hargs.
    destruct (sprintfHeader_prints TermWidth ("Updating: " +:+ target) Hwide)
      as [text ->].
    rewrite Hscan. reflexivity.
Qed.

Lemma scanSource_keys_witness :
  (exists sourceMap,
     scanSource updateDisk "src" "src/sums.md5" = (Ok sourceMap, [])
     /\ sourceMap !! "src/a.txt" = Some true
     /\ sourceMap !! "src/sums.md5" = None)
  /\ exitStatus (generic.updateCommand strings.ToLower (@sort.Sort Checksum) 80
                   unreadableDirectory
                   {| Args := ["src"; "sums.md5"]; Flags := [] |}) = 1.
Proof.
  split.
  - destruct (proj1 (scanSource_keys updateDisk "src" "src/sums.md5"))
      as (sourceMap & Hscan & Hkeys).
    + repeat constructor.
    + exists sourceMap. split; [exact Hscan|]. rewrite !Hkeys.
      split; reflexivity.
  - rewrite (proj2 (proj2 (scanSource_keys unreadableDirectory "src" "sums.md5")
                      [dirItem "src"; fileItem "src/a.txt"]
                      {| wPath := "src/sub"; wIsDir := true;
                         wErr := Some "open src/sub: permission denied" |}
                      [] "open src/sub: permission denied"
                      eq_refl ltac:(repeat constructor) eq_refl)
               strings.ToLower (@sort.Sort Checksum) 80%Z
               {| Args := ["src"; "sums.md5"]; Flags := [] |} []
               ltac:(lia) eq_refl).
    reflexivity.
Defined.

(** ** The manifest is left out of the scan *)

Lemma length_append a b :
  String.length (a +:+ b) = String.length a + String.length b.
Proof.
  induction a as [|c a IH]; [reflexivity|].
  rewrite append_cons. cbn [String.length]. rewrite IH. reflexivity.
Qed.

Lemma substring_all b : substring 0 (String.length b) b = b.
Proof. induction b as [|c b IH]; [reflexivity|]. cbn. rewrite IH. reflexivity. Qed.

Lemma substring_append a b :
  substring (String.length a) (String.length b) (a +:+ b) = b.
Proof.
  induction a as [|c a IH]; [apply substring_all|].
  rewrite append_cons. cbn [String.length substring]. exact IH.
Qed.

Lemma HasSuffix_app a b : strings.HasSuffix (a +:+ b) b = true.
Proof.
  unfold strings.HasSuffix. rewrite length_append.
  replace (String.length a + String.length b - String.length b)
    with (String.length a) by lia.
  rewrite substring_append, String.eqb_refl, andb_true_r.
  apply Nat.leb_le. lia.
Qed.

Lemma afterLastSep_suffix s : exists a, s = a +:+ filepath.afterLastSep s.
Proof.
  induction s as [|c s (a & IH)]; [exists ""; reflexivity|].
  cbn [filepath.afterLastSep].
  destruct (strings.Contains1 filepath.Separator (String c s)).
  - exists (String c a). rewrite append_cons, <- IH. reflexivity.
  - exists "". reflexivity.
Qed.

Lemma afterLastSep_empty s :
  filepath.afterLastSep s = "" -> s = "" \/ filepath.trimTrailingSeps s <> s.
Proof.
  induction s as [|c s IH]; [left; reflexivity|]. right.
  cbn [filepath.afterLastSep filepath.trimTrailingSeps] in *.
  destruct (strings.Contains1 filepath.Separator (String c s)) eqn:Hsep;
    [|discriminate].
  destruct (IH H) as [->|Hs].
  - cbn [strings.Contains1] in Hsep. rewrite orb_false_r in Hsep.
    rewrite Hsep. cbn. discriminate.
  - destruct (Ascii.eqb c filepath.Separator
              && String.eqb (filepath.trimTrailingSeps s) "");
      [discriminate|congruence].
Qed.

(** A file name that is not empty and does not end in a separator ends
    with its base name. *)
Lemma HasSuffix_Base p :
  p <> "" -> filepath.trimTrailingSeps p = p ->
  strings.HasSuffix p (filepath.Base p) = true.
Proof.
  intros Hne Htrim. unfold filepath.Base.
  destruct (String.eqb_spec p "") as [|_]; [contradiction|].
  rewrite Htrim.
  destruct (String.eqb_spec (filepath.afterLastSep p) "") as [He|_].
  - apply afterLastSep_empty in He as [|]; contradiction.
  - destruct (afterLastSep_suffix p) as (a & Hp).
    rewrite Hp at 1. apply HasSuffix_app.
Qed.

Lemma isManifest_self w p :
  p <> "" -> filepath.trimTrailingSeps p = p ->
  isManifest w p p <> Ok false.
Proof.
  intros Hne Htrim. unfold isManifest.
  rewrite (HasSuffix_Base _ Hne Htrim).
  destruct (filepath.Abs (Getwd w) p); [|discriminate].
  rewrite String.eqb_refl. discriminate.
Qed.

Lemma keptPaths_excluded w manifest items p :
  isManifest w p manifest <> Ok false ->
  ~ In p (keptPaths w manifest items).
Proof.
  intros Hex. unfold keptPaths.
  intros (it & Hp & [_ Hk]%filter_In)%in_map_iff.
  unfold kept in Hk. rewrite Hp in Hk.
  destruct (wErr it), (wIsDir it), (isManifest w p manifest) as [[|]|];
    congruence.
Qed.

Lemma scanSource_subset w target items : forall (m m' : gmap string bool) log log',
  forEach (updateVisit w target) items m log = (Ok m', log') ->
  forall k, is_Some (m' !! k) ->
            is_Some (m !! k) \/ In k (keptPaths w target items).
Proof.
  intros m m' log log' Hf k Hk.
  destruct (first_error w target false items)
    as [Hall|(pre & it & post & e & -> & Hpre & Hit)].
  - rewrite (scanSource_ok _ _ _ _ _ Hall) in Hf. injection Hf as <- _.
    rewrite insert_all_lookup in Hk. case_bool_decide as Hin; [|left; exact Hk].
    right. apply list_elem_of_In. exact Hin.
  - rewrite (scanSource_err _ _ _ _ _ _ _ _ Hpre Hit) in Hf. discriminate.
Qed.

(** A path the scan leaves out is digested by neither command. *)
Lemma excluded_not_hashed w ctx source manifest rest p :
  Args ctx = source :: manifest :: rest ->
  isManifest w p manifest <> Ok false ->
  ~ In p (hashed (newCommand w ctx))
  /\ (rangeOrderOK w -> ~ In p (hashed (updateCommand w ctx))).
Proof.
  intros Hargs Hex. split.
  - unfold newCommand, scanAndHash. rewrite Hargs.
    destruct (first_error w manifest true (Walk w source))
      as [Hall|(pre & it & post & e & Hwalk & Hpre & Hit)].
    + rewrite (scan_ok _ _ _ _ _ Hall). cbn [app].
      destruct (writeFile w _ manifest); cbn [hashed fatal];
        apply keptPaths_excluded; assumption.
    + rewrite Hwalk, (scan_err _ _ _ _ _ _ _ _ Hpre Hit). cbn [hashed fatal app].
      apply keptPaths_excluded; assumption.
  - intros Hw. unfold updateCommand. rewrite Hargs.
    pose proof (scanSource_log w source manifest) as Hlog.
    destruct (scanSource w source manifest) as [[sourceMap|err] log0] eqn:Hscan;
      cbn [snd] in Hlog; subst log0; [|intros []].
    destruct (readFileToMap w manifest) as [targetMap|err]; [|intros []].
    destruct (reconcile_spec w (Context_Bool ctx "delete") sourceMap targetMap []
                Hw) as (hs & Hlog & Hhs & _).
    destruct (reconcile w _ sourceMap targetMap []) as [r log] eqn:Hrec.
    cbn [snd app] in Hlog. subst log.
    assert (Hno : ~ In p hs).
    { intros Hin. apply Hhs in Hin as [Hsrc _].
      unfold scanSource in Hscan.
      destruct (scanSource_subset _ _ _ _ _ _ _ Hscan _ Hsrc) as [Hk|Hk].
      - rewrite lookup_empty in Hk. destruct Hk; discriminate.
      - eapply keptPaths_excluded; eassumption. }
    destruct r as [finalMap|err]; [|exact Hno].
    destruct (writeFile w _ manifest); exact Hno.
Qed.

Lemma afterLastSep_noSep n :
  strings.Contains1 filepath.Separator n = false -> filepath.afterLastSep n = n.
Proof.
  destruct n as [|c n]; [reflexivity|]. cbn [filepath.afterLastSep].
  intros ->. reflexivity.
Qed.

Lemma afterLastSep_app pre n :
  strings.Contains1 filepath.Separator n = false ->
  filepath.afterLastSep (pre +:+ "/" +:+ n) = n.
Proof.
  intros Hn. induction pre as [|c pre IH].
  - rewrite append_nil_l, append_cons, append_nil_l.
    cbn [filepath.afterLastSep strings.Contains1]. cbn [Ascii.eqb orb].
    change (Ascii.eqb "/" filepath.Separator) with true. cbn [orb].
    apply afterLastSep_noSep, Hn.
  - rewrite append_cons. cbn [filepath.afterLastSep].
    assert (Hsep : strings.Contains1 filepath.Separator (String c (pre +:+ "/" +:+ n)) = true).
    { cbn [strings.Contains1]. rewrite !Contains1_app. cbn.
      rewrite !orb_true_r. reflexivity. }
    rewrite Hsep. exact IH.
Qed.

(** A path splits at its last separator. *)
Lemma afterLastSep_split x :
  strings.Contains1 filepath.Separator (filepath.afterLastSep x) = false
  /\ (x = filepath.afterLastSep x
      \/ exists pre, x = pre +:+ "/" +:+ filepath.afterLastSep x).
Proof.
  induction x as [|c x [IHn IH]]; [split; [reflexivity|left; reflexivity]|].
  cbn [filepath.afterLastSep].
  destruct (strings.Contains1 filepath.Separator (String c x)) eqn:Hsep.
  - split; [exact IHn|]. right.
    cbn [strings.Contains1] in Hsep.
    destruct IH as [IH|(pre & IH)].
    + rewrite <- IH in IHn. rewrite IHn, orb_false_r in Hsep.
      apply Ascii.eqb_eq in Hsep. subst c. exists "".
      rewrite append_nil_l, append_cons, append_nil_l, <- IH. reflexivity.
    + exists (String c pre). rewrite append_cons, <- IH. reflexivity.
  - split; [exact Hsep|left; reflexivity].
Qed.

Lemma Join_snoc l n :
  l <> [] ->
  strings.Join (l ++ [n]) "/" = strings.Join l "/" +:+ "/" +:+ n.
Proof.
  induction l as [|e l IH]; [contradiction|]. intros _.
  destruct l as [|e' l]; [reflexivity|].
  cbn [app] in *. rewrite !Join_cons, IH by discriminate.
  rewrite !append_assoc. reflexivity.
Qed.

Lemma afterLastSep_render rooted l n :
  strings.Contains1 filepath.Separator n = false ->
  filepath.afterLastSep (render rooted (l ++ [n])) = n.
Proof.
  intros Hn. unfold render.
  destruct l as [|e l].
  - cbn [app strings.Join]. destruct rooted.
    + rewrite <- (append_nil_l ("/" +:+ n)). apply afterLastSep_app, Hn.
    + apply afterLastSep_noSep, Hn.
  - rewrite Join_snoc by discriminate. destruct rooted.
    + rewrite <- append_assoc. apply afterLastSep_app, Hn.
    + cbn [app]. apply afterLastSep_app, Hn.
Qed.

Lemma fold_left_snoc {A B} (f : A -> B -> A) l x a :
  fold_left f (l ++ [x]) a = f (fold_left f l a) x.
Proof. rewrite fold_left_app. reflexivity. Qed.

(** [Clean] keeps a last element that is a name. *)
Lemma Clean_last y n :
  isName n = true ->
  y = n \/ (exists pre, y = pre +:+ "/" +:+ n) ->
  filepath.afterLastSep (filepath.Clean y) = n.
Proof.
  intros Hn Hy. pose proof (isName_inv _ Hn) as (Hne & _ & _ & Hsep).
  assert (Hy' : y <> "").
  { destruct Hy as [->|(pre & ->)]; [exact Hne|].
    destruct pre; discriminate. }
  assert (Hsplit : exists elems,
             strings.SplitByte filepath.Separator y = elems ++ [n]).
  { destruct Hy as [->|(pre & ->)].
    - exists []. apply SplitByte_noSep, Hsep.
    - exists (strings.SplitByte filepath.Separator pre).
      rewrite append_cons, append_nil_l.
      change "/"%char with filepath.Separator.
      rewrite SplitByte_app_sep, (SplitByte_noSep _ _ Hsep). reflexivity. }
  destruct Hsplit as (elems & Hsplit).
  rewrite (Clean_render _ Hy'). unfold filepath.cleanElems.
  rewrite Hsplit, fold_left_snoc, (cleanElem_name _ _ _ Hn). cbn [rev].
  apply afterLastSep_render, Hsep.
Qed.

Lemma Abs_last getwd x A :
  isName (filepath.afterLastSep x) = true ->
  filepath.Abs getwd x = Ok A ->
  filepath.afterLastSep A = filepath.afterLastSep x.
Proof.
  intros Hn. destruct (afterLastSep_split x) as [_ Hx].
  unfold filepath.Abs, filepath.Join.
  destruct (filepath.IsAbs x).
  { intros [= <-]. apply Clean_last; assumption. }
  destruct getwd as [wd|]; [|discriminate].
  assert (Hx' : x <> "").
  { intros ->. cbn in Hn. discriminate. }
  destruct (String.eqb_spec wd "") as [->|Hwd].
  - destruct (String.eqb_spec x ""); [contradiction|].
    intros [= <-]. apply Clean_last; assumption.
  - intros [= <-]. apply Clean_last; [exact Hn|]. right.
    destruct Hx as [Hx|(pre & Hx)].
    + exists wd. rewrite <- Hx. reflexivity.
    + exists (wd +:+ "/" +:+ pre). rewrite Hx at 1.
      rewrite !append_assoc. reflexivity.
Qed.

Lemma trimTrailingSeps_noSep n :
  strings.Contains1 filepath.Separator n = false ->
  filepath.trimTrailingSeps n = n.
Proof.
  induction n as [|c n IH]; [reflexivity|].
  cbn [strings.Contains1 filepath.trimTrailingSeps].
  intros [Hc Hn]%orb_false_iff. rewrite Hc, (IH Hn). reflexivity.
Qed.

Lemma trimTrailingSeps_app pre n :
  n <> "" -> strings.Contains1 filepath.Separator n = false ->
  filepath.trimTrailingSeps (pre +:+ n) = pre +:+ n.
Proof.
  intros Hne Hn. induction pre as [|c pre IH].
  - rewrite append_nil_l. apply trimTrailingSeps_noSep, Hn.
  - rewrite append_cons. cbn [filepath.trimTrailingSeps]. rewrite IH.
    destruct (String.eqb_spec (pre +:+ n) "") as [He|_];
      [destruct pre; [contradiction|discriminate]|].
    rewrite andb_false_r. reflexivity.
Qed.

Lemma Base_name x :
  isName (filepath.afterLastSep x) = true ->
  filepath.Base x = filepath.afterLastSep x.
Proof.
  intros Hn. pose proof (isName_inv _ Hn) as (Hne & _ & _ & Hsep).
  destruct (afterLastSep_suffix x) as (a & Hx).
  assert (Htrim : filepath.trimTrailingSeps x = x).
  { rewrite Hx at 1 2. rewrite trimTrailingSeps_app by assumption.
    reflexivity. }
  unfold filepath.Base. rewrite Htrim.
  destruct (String.eqb_spec x "") as [->|_]; [cbn in Hne; contradiction|].
  destruct (String.eqb_spec (filepath.afterLastSep x) ""); [contradiction|].
  reflexivity.
Qed.

(** A walked path that names the manifest, however it is spelled. *)
Lemma isManifest_same w p manifest A :
  isName (filepath.afterLastSep p) = true ->
  isName (filepath.afterLastSep manifest) = true ->
  filepath.Abs (Getwd w) p = Ok A ->
  filepath.Abs (Getwd w) manifest = Ok A ->
  isManifest w p manifest = Ok true.
Proof.
  intros Hp Hm Hpa Hma. unfold isManifest.
  rewrite (Base_name _ Hm), <- (Abs_last _ _ _ Hm Hma), (Abs_last _ _ _ Hp Hpa).
  destruct (afterLastSep_suffix p) as (a & Hsplit).
  rewrite Hsplit at 1. rewrite HasSuffix_app, Hpa, Hma, String.eqb_refl.
  reflexivity.
Qed.

(** X4. Neither [new] nor [update] digests the manifest it writes, however
    the command ends.  This holds for the manifest's path as given, when it
    is not empty and does not end in a separator; and for every path that
    has the same absolute form as the manifest's, when both end in a file
    name. *)
Theorem manifest_not_hashed w ctx source manifest rest :
  Args ctx = source :: manifest :: rest ->
  (manifest <> "" -> filepath.trimTrailingSeps manifest = manifest ->
   ~ In manifest (hashed (newCommand w ctx))
   /\ (rangeOrderOK w -> ~ In manifest (hashed (updateCommand w ctx))))
  /\ (forall p A,
        isName (filepath.afterLastSep p) = true ->
        isName (filepath.afterLastSep manifest) = true ->
        filepath.Abs (Getwd w) p = Ok A ->
        filepath.Abs (Getwd w) manifest = Ok A ->
        ~ In p (hashed (newCommand w ctx))
        /\ (rangeOrderOK w -> ~ In p (hashed (updateCommand w ctx)))).
Proof.
  intros Hargs. split.
  - intros Hne Htrim. eapply excluded_not_hashed; [exact Hargs|].
    apply isManifest_self; assumption.
  - intros p A Hp Hm Hpa Hma. eapply excluded_not_hashed; [exact Hargs|].
    rewrite (isManifest_same _ _ _ _ Hp Hm Hpa Hma). discriminate.
Qed.

Lemma manifest_not_hashed_witness :
  ~ In "src/sums.md5"
       (hashed (newCommand updateDisk
                  {| Args := ["src"; "./src/../src/sums.md5"]; Flags := [] |})).
Proof.
  exact (proj1 (proj2 (manifest_not_hashed updateDisk
                  {| Args := ["src"; "./src/../src/sums.md5"]; Flags := [] |}
                  "src" "./src/../src/sums.md5" [] eq_refl)
                  "src/sums.md5" "/home/u/src/sums.md5"
                  eq_refl eq_refl eq_refl eq_refl)).
Defined.

(** ** A fresh manifest verifies *)

Lemma entriesOf_serialized w sums path data :
  serialize w sums path = Ok data ->
  (forall c, In c sums ->
     isHash (Hash c) = true /\ portable (filepath.Dir path) (Path c)) ->
  entriesOf (filepath.Dir path) data = sort.Sort lessEntry sums.
Proof.
  intros Hser Hsums. unfold serialize in Hser.
  destruct (writeEntries_text _ _ _ _ _ Hser) as (rels & Hall & Hdata).
  rewrite append_nil_l in Hdata. rewrite Hdata.
  apply entriesOf_written.
  eapply Forall2_impl_In; [exact Hall|]. intros c rel Hc Hrel. simpl in Hrel.
  assert (Hc' : In c sums).
  { apply list_elem_of_In. rewrite <- (Sort_perm lessEntry sums).
    apply list_elem_of_In. exact Hc. }
  destruct (Hsums c Hc') as (Hh & Hclean & Hlf & Hstar & Hcr & Hkind).
  destruct (relPathOf_back w path (Path c) Hclean Hkind)
    as (rel' & Hrel' & Hres & Klf & Kstar & Kcr).
  assert (rel' = rel) as -> by congruence.
  repeat split; auto.
Qed.

Lemma readFile_written w w' sums path :
  writes w w' sums path ->
  (forall c, In c sums ->
     isHash (Hash c) = true /\ portable (filepath.Dir path) (Path c)) ->
  readFile w' path = Ok (sort.Sort lessEntry sums).
Proof.
  intros Hwrite Hsums.
  destruct (writeFile_read _ _ _ _ Hwrite) as (data & Hser & Hrd).
  rewrite (readFile_entries _ _ _ Hrd).
  rewrite (entriesOf_serialized _ _ _ _ Hser Hsums). reflexivity.
Qed.

(** How a successful [new] ends. *)
Lemma newCommand_ok w ctx source output rest :
  Args ctx = source :: output :: rest ->
  exitCode (newCommand w ctx) = 0 ->
  Forall (fun it => visitError w output true it = None) (Walk w source)
  /\ exists w',
       writes w w' (omap (freshEntry w) (keptPaths w output (Walk w source)))
              output
       /\ newCommand w ctx
          = {| stdout := [ Header ("Hashing: " +:+ source);
                           Colored (" Wrote: " +:+ output +:+ nl +:+ nl) FgGreen ];
               hashed := keptPaths w output (Walk w source);
               exitCode := 0;
               world := w' |}.
Proof.
  intros Hargs. unfold newCommand, scanAndHash. rewrite Hargs.
  destruct (first_error w output true (Walk w source))
    as [Hall|(pre & it & post & e & Hwalk & Hpre & Hit)].
  2:{ rewrite Hwalk, (scan_err _ _ _ _ _ _ _ _ Hpre Hit). discriminate. }
  rewrite (scan_ok _ _ _ _ _ Hall). cbn [app].
  destruct (writeFile w _ output) as [w'|err] eqn:Hw; [|discriminate].
  intros _. split; [exact Hall|]. exists w'. split; [exact Hw|reflexivity].
Qed.

Lemma freshEntry_In w files c :
  In c (omap (freshEntry w) files) ->
  In (Path c) files /\ generateMd5 w (Path c) = Ok (Hash c).
Proof.
  intros Hc. apply list_elem_of_In, list_elem_of_omap in Hc as (p & Hp & Hf).
  apply list_elem_of_In in Hp. unfold freshEntry in Hf.
  destruct (generateMd5 w p) as [hash|] eqn:Hgen; [|discriminate].
  injection Hf as <-. cbn. auto.
Qed.

Lemma freshEntry_paths w files :
  Forall (fun p => isOk (generateMd5 w p) = true) files ->
  map Path (omap (freshEntry w) files) = files.
Proof.
  induction 1 as [|p files Hp _ IH]; [reflexivity|].
  cbn [omap list_omap]. unfold freshEntry at 1.
  destruct (generateMd5 w p); [|discriminate]. cbn. rewrite IH. reflexivity.
Qed.


Lemma readFile_frame w w' path :
  ReadFile w' path = ReadFile w path -> readFile w' path = readFile w path.
Proof. intros H. unfold readFile. rewrite H. reflexivity. Qed.

(** How a successful [new] ends. *)
Lemma new_ends_well ToLower Sort TermWidth w ctx source output rest o :
  Args ctx = source :: output :: rest ->
  generic.newCommand ToLower Sort TermWidth w ctx = Ends o ->
  exitCode o = 0 ->
  (2 <= TermWidth)%Z
  /\ Forall (fun it => visitError w output true it = None) (Walk w source)
  /\ exists w',
       generic.writeFile ToLower Sort w
         (omap (freshEntry w) (keptPaths w output (Walk w source))) output
       = Ok w'
       /\ o = {| stdout := [ Header ("Hashing: " +:+ source);
                             Colored (" Wrote: " +:+ output +:+ nl +:+ nl) FgGreen ];
                 hashed := keptPaths w output (Walk w source);
                 exitCode := 0;
                 world := w' |}.
Proof.
  intros Hargs. unfold generic.newCommand, scanAndHash. rewrite Hargs.
  destruct (sprintfHeader TermWidth ("Hashing: " +:+ source)) as [text|] eqn:Hh;
    [|discriminate].
  apply sprintfHeader_printed in Hh.
  destruct (first_error w output true (Walk w source))
    as [Hall|(pre & it & post & e & Hwalk & Hpre & Hit)].
  2:{ rewrite Hwalk, (scan_err _ _ _ _ _ _ _ _ Hpre Hit).
      intros [= <-]. discriminate. }
  rewrite (scan_ok _ _ _ _ _ Hall). cbn [app].
  destruct (generic.writeFile ToLower Sort w _ output) as [w'|err] eqn:Hw.
  2:{ intros [= <-]. discriminate. }
  intros [= <-] _. split; [exact Hh|]. split; [exact Hall|].
  exists w'. split; [reflexivity|reflexivity].
Qed.

(** The entries of a successful [new] are written in the format's terms
    when the kept paths are portable. *)
Lemma fresh_entries_portable w files dir :
  (forall p, In p files -> portable dir p) ->
  forall c, In c (omap (freshEntry w) files) ->
    isHash (Hash c) = true /\ portable dir (Path c).
Proof.
  intros Hpaths c Hc. apply freshEntry_In in Hc as [Hin Hgen].
  split; [|apply Hpaths, Hin].
  eapply isLowerHash_isHash, generateMd5_lower, Hgen.
Qed.

(** X1. A manifest verifies after [new] wrote it, as long as the files are
    what they were.  Let [new] have exited with status 0, every file the
    scan kept having a path the format carries unchanged: cleaned, without
    line feed, without [ *], not ending in a carriage return, and absolute
    or relative like the manifest's directory and starting with at least
    as many [..].  Take any later state of the file system in which the
    manifest is a file that reads as [new] wrote it and every file [new]
    digested reads as it did then; a digested file that is the manifest
    under another name does not, unless the write changed nothing.  There
    [verify] on the manifest, when its header can be printed, digests
    every one of these files again and prints the header, the [OK] line
    and the closing line feed, with status 0.  This holds whatever
    [strings.ToLower] computes and whichever permutation [sort.Sort]
    produces. *)
Theorem new_then_verify_ok ToLower Sort TermWidth TermWidth' w ctx source
  output rest vctx vrest o later :
  (forall data, Sort (generic.lessEntry ToLower) data ≡ₚ data) ->
  Args ctx = source :: output :: rest ->
  Args vctx = output :: vrest ->
  generic.newCommand ToLower Sort TermWidth w ctx = Ends o ->
  exitCode o = 0 ->
  (forall p, In p (keptPaths w output (Walk w source)) ->
             portable (filepath.Dir output) p) ->
  ReadFile later output = ReadFile (world o) output ->
  Stat later output = Ok false ->
  (forall p, In p (hashed o) -> readAttempt later p = readAttempt w p) ->
  (2 <= TermWidth')%Z ->
  exists log,
    generic.verifyCommand TermWidth' later vctx
    = Ends {| stdout := [ Header ("Veryfing: " +:+ output);
                          Colored (" OK: " +:+ output +:+ nl) FgGreen;
                          Print nl ];
              hashed := log;
              exitCode := 0;
              world := later |}
    /\ log ≡ₚ hashed o.
Proof.
  intros Hperm Hargs Hvargs Hrun Hexit Hpaths Hsame Hstat Hfiles Hwide.
  destruct (new_ends_well _ _ _ _ _ _ _ _ _ Hargs Hrun Hexit)
    as (_ & Hall & w1 & Hw & ->).
  cbn [world hashed] in *.
  set (files := keptPaths w output (Walk w source)) in *.
  set (sums := omap (freshEntry w) files) in *.
  set (sorted := Sort (generic.lessEntry ToLower) sums).
  pose proof (fresh_entries_portable w files _ Hpaths) as Hsums.
  fold sums in Hsums.
  assert (Hin : forall c, In c sorted -> In c sums).
  { intros c Hc. apply list_elem_of_In. rewrite <- (Hperm sums).
    apply list_elem_of_In. exact Hc. }
  assert (Hread : readFile later output = Ok sorted).
  { rewrite (readFile_frame _ _ _ Hsame).
    destruct (written_read _ _ _ _ _ _ Hw) as (data & Hser & _ & Hrd).
    rewrite (readFile_entries _ _ _ Hrd). f_equal.
    destruct (written_text _ _ _ _ _ _ Hser) as (rels & Hrels & ->).
    apply entriesOf_written.
    eapply Forall2_impl_In; [exact Hrels|]. intros c rel Hc Hrel.
    simpl in Hrel. apply Hin in Hc.
    destruct (Hsums c Hc) as (Hh & Hclean & Hlf & Hstar & Hcr & Hkind).
    destruct (relPathOf_back w output (Path c) Hclean Hkind)
      as (rel' & Hrel' & Hres & Klf & Kstar & Kcr).
    assert (rel' = rel) as -> by congruence.
    repeat split; auto. }
  assert (Hok : forallb (fun c => isClassOK (classify later c)) sorted = true).
  { apply forallb_forall. intros c Hc. apply Hin in Hc.
    apply freshEntry_In in Hc as [Hc Hgen].
    rewrite classify_readAttempt, (Hfiles _ Hc).
    rewrite generateMd5_readAttempt in Hgen.
    destruct (readAttempt w (Path c)) as [data|]; [|discriminate].
    injection Hgen as <-. rewrite String.eqb_refl. reflexivity. }
  exists (map Path sorted). split.
  - unfold generic.verifyCommand. rewrite Hvargs.
    destruct (sprintfHeader_prints TermWidth' ("Veryfing: " +:+ output) Hwide)
      as [text ->].
    rewrite Hstat, (verifyFile_report _ _ _ Hread), Hok. cbn.
    rewrite app_nil_r. reflexivity.
  - unfold sorted. rewrite (Hperm sums). subst sums files.
    rewrite freshEntry_paths; [reflexivity|].
    apply keptPaths_digest_ok, Hall.
Qed.

Lemma new_then_verify_ok_witness :
  exists created log,
    generic.newCommand strings.ToLower (@sort.Sort Checksum) 80 twoFiles
      {| Args := ["src"; "src/sums.md5"]; Flags := [] |} = Ends created
    /\ generic.verifyCommand 80
         (twoFilesAndManifest
            ("9dd4e461268c8034f5c8564e155c67a6 *a.txt" +:+ nl
             +:+ "415290769594460e2e485922904f345d *b.txt" +:+ nl))
         {| Args := ["src/sums.md5"]; Flags := ["basic"] |}
       = Ends {| stdout := [ Header "Veryfing: src/sums.md5";
                             Colored (" OK: src/sums.md5" +:+ nl) FgGreen;
                             Print nl ];
                 hashed := log;
                 exitCode := 0;
                 world := twoFilesAndManifest
                            ("9dd4e461268c8034f5c8564e155c67a6 *a.txt" +:+ nl
                             +:+ "415290769594460e2e485922904f345d *b.txt" +:+ nl) |}
    /\ log ≡ₚ ["src/a.txt"; "src/b.txt"].
Proof.
  eexists.
  assert (Hpaths : forall p,
             In p (keptPaths twoFiles "src/sums.md5" (Walk twoFiles "src")) ->
             portable (filepath.Dir "src/sums.md5") p).
  { intros p Hp. vm_compute in Hp.
    destruct Hp as [<-|[<-|[]]]; repeat split; try reflexivity;
      right; split; try reflexivity; vm_compute; lia. }
  assert (Hfiles : forall p, In p ["src/a.txt"; "src/b.txt"] ->
             readAttempt (twoFilesAndManifest
                            ("9dd4e461268c8034f5c8564e155c67a6 *a.txt" +:+ nl
                             +:+ "415290769594460e2e485922904f345d *b.txt" +:+ nl)) p
             = readAttempt twoFiles p).
  { intros p [<-|[<-|[]]]; reflexivity. }
  destruct (new_then_verify_ok strings.ToLower (@sort.Sort Checksum) 80 80
              twoFiles {| Args := ["src"; "src/sums.md5"]; Flags := [] |}
              "src" "src/sums.md5" []
              {| Args := ["src/sums.md5"]; Flags := ["basic"] |} [] _
              (twoFilesAndManifest
                 ("9dd4e461268c8034f5c8564e155c67a6 *a.txt" +:+ nl
                  +:+ "415290769594460e2e485922904f345d *b.txt" +:+ nl))
              (Sort_perm _) eq_refl eq_refl eq_refl eq_refl Hpaths
              eq_refl eq_refl Hfiles ltac:(lia))
    as (log & Hrun & Hlog).
  exists log. split; [reflexivity|]. split; [exact Hrun|exact Hlog].
Defined.

(** ** [new] twice *)

Lemma isManifest_frame w w' p manifest :
  Getwd w' = Getwd w -> isManifest w' p manifest = isManifest w p manifest.
Proof. intros Hg. unfold isManifest. rewrite Hg. reflexivity. Qed.

Lemma relPathOf_frame w w' dir p :
  Getwd w' = Getwd w -> relPathOf w' dir p = relPathOf w dir p.
Proof. intros Hg. unfold relPathOf. rewrite Hg. reflexivity. Qed.

Lemma writeEntries_frame w w' dir sums : forall output,
  Getwd w' = Getwd w ->
  writeEntries w' dir sums output = writeEntries w dir sums output.
Proof.
  intros output Hg. revert output.
  induction sums as [|c sums IH]; intros output; [reflexivity|].
  cbn [writeEntries]. rewrite (relPathOf_frame _ _ _ _ Hg).
  destruct (relPathOf w dir (Path c)); [apply IH|reflexivity].
Qed.


(** A scan made again: what decides its course. *)
Lemma kept_again w later manifest it :
  Getwd later = Getwd w -> kept later manifest it = kept w manifest it.
Proof.
  intros Hg. unfold kept. rewrite (isManifest_frame _ _ _ _ Hg). reflexivity.
Qed.

Lemma keptPaths_again w later manifest items :
  Getwd later = Getwd w ->
  keptPaths later manifest items = keptPaths w manifest items.
Proof.
  intros Hg. unfold keptPaths. f_equal. apply List.filter_ext.
  intros it. apply kept_again, Hg.
Qed.

Lemma generateMd5_again w later p :
  readAttempt later p = readAttempt w p ->
  generateMd5 later p = generateMd5 w p.
Proof. intros H. rewrite !generateMd5_readAttempt, H. reflexivity. Qed.

Lemma visitError_again w later manifest items :
  Getwd later = Getwd w ->
  (forall p, In p (keptPaths w manifest items) ->
             readAttempt later p = readAttempt w p) ->
  Forall (fun it => visitError w manifest true it = None) items ->
  Forall (fun it => visitError later manifest true it = None) items.
Proof.
  intros Hg Hfiles Hall. apply List.Forall_forall. intros it Hit.
  rewrite List.Forall_forall in Hall. specialize (Hall it Hit).
  assert (Hk : kept w manifest it = true ->
               generateMd5 later (wPath it) = generateMd5 w (wPath it)).
  { intros Hk. apply generateMd5_again, Hfiles. unfold keptPaths.
    apply in_map, filter_In. auto. }
  unfold visitError, kept in *. rewrite (isManifest_frame _ _ _ _ Hg).
  destruct (wErr it); [exact Hall|]. destruct (wIsDir it); [reflexivity|].
  destruct (isManifest w (wPath it) manifest) as [[|]|]; try exact Hall.
  rewrite Hk by reflexivity. exact Hall.
Qed.

Lemma freshEntry_again w later files :
  (forall p, In p files -> readAttempt later p = readAttempt w p) ->
  omap (freshEntry later) files = omap (freshEntry w) files.
Proof.
  induction files as [|p files IH]; intros Hfiles; [reflexivity|].
  cbn [omap list_omap].
  assert (Hp : freshEntry later p = freshEntry w p).
  { unfold freshEntry.
    rewrite (generateMd5_again w later p) by (apply Hfiles; left; reflexivity).
    reflexivity. }
  rewrite Hp, IH by (intros q Hq; apply Hfiles; right; exact Hq). reflexivity.
Qed.

(** The call for the manifest changes nothing in a scan. *)
Lemma manifest_item_skipped w later manifest p A digest :
  Getwd later = Getwd w ->
  isName (filepath.afterLastSep p) = true ->
  isName (filepath.afterLastSep manifest) = true ->
  filepath.Abs (Getwd w) p = Ok A ->
  filepath.Abs (Getwd w) manifest = Ok A ->
  visitError later manifest digest {| wPath := p; wIsDir := false; wErr := None |}
  = None
  /\ keptPaths later manifest [{| wPath := p; wIsDir := false; wErr := None |}]
     = [].
Proof.
  intros Hg Hp Hm Hpa Hma.
  pose proof (isManifest_same w p manifest A Hp Hm Hpa Hma) as Hskip.
  rewrite <- (isManifest_frame w later _ _ Hg) in Hskip.
  unfold visitError, keptPaths, kept. cbn. rewrite Hskip. auto.
Qed.

Lemma scan_again w later manifest before after :
  Getwd later = Getwd w ->
  walkedAgain w manifest before after ->
  (forall p, In p (keptPaths w manifest before) ->
             readAttempt later p = readAttempt w p) ->
  Forall (fun it => visitError w manifest true it = None) before ->
  Forall (fun it => visitError later manifest true it = None) after
  /\ keptPaths later manifest after = keptPaths w manifest before.
Proof.
  intros Hg Hwalk Hfiles Hall.
  pose proof (visitError_again _ _ _ _ Hg Hfiles Hall) as Hall'.
  destruct Hwalk as [->|(pre & post & p & A & -> & -> & Hp & Hm & Hpa & Hma)].
  - split; [exact Hall'|]. apply keptPaths_again, Hg.
  - destruct (manifest_item_skipped w later manifest p A true Hg Hp Hm Hpa Hma)
      as [Hskip Hnone].
    apply Forall_app in Hall' as [Hpre Hpost]. split.
    + apply Forall_app. split; [exact Hpre|]. constructor; assumption.
    + rewrite keptPaths_app, keptPaths_cons, Hnone. cbn [app].
      rewrite <- keptPaths_app. apply keptPaths_again, Hg.
Qed.

(** X26. [new] is idempotent as long as the files are what they were.  Let
    [new] have exited with status 0, and take any later state of the file
    system with the same working directory in which every file [new]
    digested reads as it did then (a digested file that is the manifest
    under another name does not, unless the write changed nothing), the
    manifest can be written, and the walk of the source makes the calls it
    made before and at most one more, for the manifest that now exists.
    Running the same command there exits with status 0, digests the same
    files in the same order, leaving out the manifest, prints the same and
    writes the same bytes.  This holds whatever [strings.ToLower] and
    [sort.Sort] compute. *)
Theorem new_twice ToLower Sort TermWidth w ctx source output rest o later :
  Args ctx = source :: output :: rest ->
  generic.newCommand ToLower Sort TermWidth w ctx = Ends o ->
  exitCode o = 0 ->
  Getwd later = Getwd w ->
  WriteErr later output = None ->
  walkedAgain w output (Walk w source) (Walk later source) ->
  (forall p, In p (hashed o) -> readAttempt later p = readAttempt w p) ->
  exists o',
    generic.newCommand ToLower Sort TermWidth later ctx = Ends o'
    /\ exitCode o' = 0
    /\ hashed o' = hashed o
    /\ stdout o' = stdout o
    /\ ReadFile (world o') output = ReadFile (world o) output.
Proof.
  intros Hargs Hrun Hexit Hg Hwr Hwalk Hfiles.
  destruct (new_ends_well _ _ _ _ _ _ _ _ _ Hargs Hrun Hexit)
    as (Hwide & Hall & w1 & Hw & ->).
  cbn [world hashed stdout exitCode] in *.
  destruct (scan_again _ _ _ _ _ Hg Hwalk Hfiles Hall) as [Hall' Hkept].
  destruct (written_read _ _ _ _ _ _ Hw) as (data & Hser & _ & Hrd).
  unfold generic.newCommand, scanAndHash. rewrite Hargs.
  destruct (sprintfHeader_prints TermWidth ("Hashing: " +:+ source) Hwide)
    as [text ->].
  rewrite (scan_ok _ _ _ _ _ Hall'), Hkept. cbn [app].
  rewrite (freshEntry_again w later _ Hfiles).
  unfold generic.writeFile, generic.serialize in *.
  rewrite (writeEntries_frame _ _ _ _ _ Hg), Hser.
  unfold WriteFile. rewrite Hwr.
  eexists. split; [reflexivity|]. cbn [world hashed stdout exitCode].
  split; [reflexivity|]. split; [reflexivity|]. split; [reflexivity|].
  rewrite Hrd. unfold ReadFile. cbn. rewrite String.eqb_refl. reflexivity.
Qed.

Lemma new_twice_witness :
  let ctx := {| Args := ["src"; "src/sums.md5"]; Flags := [] |} in
  let later :=
    twoFilesAndManifest
      ("9dd4e461268c8034f5c8564e155c67a6 *a.txt" +:+ nl
       +:+ "415290769594460e2e485922904f345d *b.txt" +:+ nl) in
  In (fileItem "src/sums.md5") (Walk later "src")
  /\ exists o',
       generic.newCommand strings.ToLower (@sort.Sort Checksum) 80 later ctx
       = Ends o'
       /\ exitCode o' = 0
       /\ hashed o' = ["src/a.txt"; "src/b.txt"]
       /\ ReadFile (world o') "src/sums.md5"
          = Ok ("9dd4e461268c8034f5c8564e155c67a6 *a.txt" +:+ nl
                +:+ "415290769594460e2e485922904f345d *b.txt" +:+ nl).
Proof.
  intros ctx later. split; [vm_compute; tauto|].
  assert (Hwalk : walkedAgain twoFiles "src/sums.md5"
                    (Walk twoFiles "src") (Walk later "src")).
  { right.
    exists [dirItem "src"; fileItem "src/a.txt"; fileItem "src/b.txt"], [],
           "src/sums.md5", "/home/u/src/sums.md5".
    repeat split; reflexivity. }
  assert (Hfiles : forall p, In p ["src/a.txt"; "src/b.txt"] ->
             readAttempt later p = readAttempt twoFiles p).
  { intros p [<-|[<-|[]]]; reflexivity. }
  destruct (new_twice strings.ToLower (@sort.Sort Checksum) 80 twoFiles ctx
              "src" "src/sums.md5" [] _ later
              eq_refl eq_refl eq_refl eq_refl eq_refl Hwalk Hfiles)
    as (o' & Hrun & Hexit & Hlog & _ & Hrd).
  exists o'. split; [exact Hrun|]. split; [exact Hexit|].
  split; [exact Hlog|exact Hrd].
Defined.

(** ** What [verify] detects *)

(** X28. What [verify] detects after [new].  Let [new] have exited with
    status 0 for a manifest named by a path that is not empty and does not
    end in a separator, every file kept having a path the format carries
    unchanged; and take any later state of the file system in which the
    manifest is as [new] wrote it.  The manifest then parses to one entry
    per file [new] digested, and an entry verifies exactly when its file
    can be read and the content has the MD5 digest it had when [new] ran;
    the report is [OK] when this holds for every entry, and otherwise the
    [ER] line followed by the lines of the entries for which it fails. *)
Theorem verify_detects_changes w ctx source output rest later :
  Args ctx = source :: output :: rest ->
  output <> "" -> filepath.trimTrailingSeps output = output ->
  exitCode (newCommand w ctx) = 0 ->
  (forall p, In p (keptPaths w output (Walk w source)) ->
             portable (filepath.Dir output) p) ->
  ReadFile later output = ReadFile (world (newCommand w ctx)) output ->
  exists sums,
    readFile later output = Ok sums
    /\ map Path sums ≡ₚ hashed (newCommand w ctx)
    /\ (forall c, In c sums ->
          exists before,
            readAttempt w (Path c) = Ok before
            /\ (classify later c = ClassOK <->
                exists now, readAttempt later (Path c) = Ok now
                            /\ md5.Sum now = md5.Sum before))
    /\ fst (verifyFile later output)
       = if forallb (fun c => isClassOK (classify later c)) sums
         then [Colored (" OK: " +:+ output +:+ nl) FgGreen]
         else Colored (" ER: " +:+ output +:+ nl) FgRed
              :: flat_map (fun c => reportLine c (classify later c)) sums.
Proof.
  intros Hargs Hne Htrim Hexit Hpaths Hsame.
  destruct (newCommand_ok _ _ _ _ _ Hargs Hexit) as (Hall & w1 & Hw & Hnew).
  rewrite Hnew in *. cbn [world hashed] in *.
  set (files := keptPaths w output (Walk w source)) in *.
  set (sums := omap (freshEntry w) files) in *.
  assert (Hsums : forall c, In c sums ->
             isHash (Hash c) = true /\ portable (filepath.Dir output) (Path c)).
  { intros c Hc. apply freshEntry_In in Hc as [Hin Hgen].
    split; [|apply Hpaths, Hin].
    eapply isLowerHash_isHash, generateMd5_lower, Hgen. }
  pose proof (readFile_written _ _ _ _ Hw Hsums) as Hread.
  rewrite <- (readFile_frame _ _ _ Hsame) in Hread.
  exists (sort.Sort lessEntry sums). split; [exact Hread|]. split.
  { rewrite (Sort_perm lessEntry sums). subst sums files.
    rewrite freshEntry_paths; [reflexivity|].
    apply keptPaths_digest_ok, Hall. }
  split.
  - intros c Hc.
    assert (Hc' : In c sums).
    { apply list_elem_of_In. rewrite <- (Sort_perm lessEntry sums).
      apply list_elem_of_In. exact Hc. }
    apply freshEntry_In in Hc' as [_ Hgen].
    rewrite generateMd5_readAttempt in Hgen.
    destruct (readAttempt w (Path c)) as [before|] eqn:Hb; [|discriminate].
    injection Hgen as Hhash. exists before. split; [reflexivity|].
    rewrite classify_readAttempt, <- Hhash.
    destruct (readAttempt later (Path c)) as [now|err].
    2:{ split; [discriminate|intros (? & [=] & _)]. }
    destruct (String.eqb_spec (fmt.hex (md5.Sum before)) (fmt.hex (md5.Sum now)))
      as [Heq|Hneq].
    + apply hex_inj in Heq; [|apply Sum_bytes..].
      split; [intros _; exists now; auto|reflexivity].
    + split; [discriminate|]. intros (d & [= <-] & Hd). congruence.
  - rewrite (verifyFile_report _ _ _ Hread). reflexivity.
Qed.

Lemma verify_detects_changes_witness :
  let created := newCommand twoFiles {| Args := ["src"; "sums.md5"]; Flags := [] |} in
  let later := remove (world created) "src/a.txt" in
  exists sums,
    readFile later "sums.md5" = Ok sums
    /\ map Path sums ≡ₚ ["src/a.txt"; "src/b.txt"].
Proof.
  intros created later.
  assert (Hpaths : forall p,
             In p (keptPaths twoFiles "sums.md5" (Walk twoFiles "src")) ->
             portable (filepath.Dir "sums.md5") p).
  { intros p Hp. vm_compute in Hp.
    destruct Hp as [<-|[<-|[]]]; repeat split; try reflexivity;
      right; split; try reflexivity; vm_compute; lia. }
  assert (Hne : "sums.md5" <> "") by discriminate.
  destruct (verify_detects_changes twoFiles
              {| Args := ["src"; "sums.md5"]; Flags := [] |} "src" "sums.md5" []
              later eq_refl Hne eq_refl eq_refl Hpaths eq_refl)
    as (sums & Hread & Hperm & _).
  exists sums. split; [exact Hread|exact Hperm].
Defined.

(** ** [update] on a manifest that is up to date *)

Lemma insertNew_noop w keys (targetMap : gmap string Checksum) : forall log,
  (forall k, In k keys -> is_Some (targetMap !! k)) ->
  forEach (insertBody w) keys targetMap log = (Ok targetMap, log).
Proof.
  induction keys as [|k keys IH]; intros log Hk; [reflexivity|].
  destruct (Hk k) as [c Hc]; [left; reflexivity|].
  rewrite forEach_cons, (insertBody_old _ _ _ _ _ Hc).
  apply IH. intros k' Hk'. apply Hk. right. exact Hk'.
Qed.

Lemma NoDup_map_inv {A B} (f : A -> B) l : NoDup (map f l) -> NoDup l.
Proof. apply NoDup_fmap_1. Qed.


(** X6. [update] on a manifest that is up to date changes nothing.  Let
    the manifest hold what [writeFile] writes for entries whose paths the
    format carries unchanged and which differ pairwise even when
    lower-cased; let the walk meet no error and every file it keeps have an
    entry and, with [--delete], every entry have its file among those
    kept.  Then [update], when its header can be printed, digests nothing,
    exits with status 0 and writes the very bytes the manifest held.  This
    holds whatever [strings.ToLower] computes and however [sort.Sort]
    orders entries that tie. *)
Theorem update_up_to_date ToLower Sort TermWidth w ctx source target rest
  sums data :
  sorts (generic.lessEntry ToLower) Sort ->
  (2 <= TermWidth)%Z ->
  rangeOrderOK w ->
  Args ctx = source :: target :: rest ->
  ReadFile w target = Ok data ->
  generic.serialize ToLower Sort w sums target = Ok data ->
  WriteErr w target = None ->
  NoDup (map (fun c => ToLower (Path c)) sums) ->
  (forall c, In c sums ->
     isHash (Hash c) = true /\ portable (filepath.Dir target) (Path c)) ->
  Forall (fun it => visitError w target false it = None) (Walk w source) ->
  (forall p, In p (keptPaths w target (Walk w source)) ->
             In p (map Path sums)) ->
  (Context_Bool ctx "delete" = true ->
   forall c, In c sums -> In (Path c) (keptPaths w target (Walk w source))) ->
  exists o,
    generic.updateCommand ToLower Sort TermWidth w ctx = Ends o
    /\ hashed o = []
    /\ exitCode o = 0
    /\ ReadFile (world o) target = Ok data.
Proof.
  intros Hsorts Hwide Hw Hargs Hrd Hser Hwr Hnd Hsums Hwalk Hsub Hdel.
  assert (Hndp : NoDup (map Path sums)).
  { apply (NoDup_fmap_1 ToLower).
    rewrite <- list_fmap_compose. exact Hnd. }
  destruct (written_parses_to_map _ _ Hsorts _ _ _ _ Hrd Hser Hndp Hsums)
    as (targetMap & Hm & Htm).
  unfold generic.updateCommand, scanSource. rewrite Hargs.
  destruct (sprintfHeader_prints TermWidth ("Updating: " +:+ target) Hwide)
    as [text ->].
  rewrite (scanSource_ok _ _ _ _ _ Hwalk), Hm.
  set (sourceMap := fold_left _ _ ∅).
  assert (Hsrc : forall k, is_Some (sourceMap !! k)
                           <-> In k (keptPaths w target (Walk w source))).
  { intros k. unfold sourceMap. rewrite insert_all_lookup, lookup_empty.
    rewrite <- list_elem_of_In.
    case_bool_decide; split; intros H'; try done; try (by eexists). }
  assert (Hkeep : (if Context_Bool ctx "delete"
                   then deleteMissing w sourceMap targetMap else targetMap)
                  = targetMap).
  { destruct (Context_Bool ctx "delete") eqn:Hflag; [|reflexivity].
    apply map_eq. intros k. rewrite (deleteMissing_lookup _ _ _ _ Hw).
    destruct (sourceMap !! k) eqn:Hk; [reflexivity|].
    destruct (targetMap !! k) as [c|] eqn:Hc; [|reflexivity].
    apply Htm in Hc as [Hc <-].
    apply (Hdel eq_refl), Hsrc in Hc. rewrite Hk in Hc.
    destruct Hc as [? [=]]. }
  unfold reconcile, insertNew. rewrite Hkeep.
  rewrite insertNew_noop.
  2:{ intros k Hk%list_elem_of_In%(rangeKeys_elem _ _ _ _ Hw)%Hsrc%Hsub.
      apply in_map_iff in Hk as (c & Hp & Hc).
      exists c. apply Htm. auto. }
  set (vals := rangeValues w 2 targetMap).
  assert (Hvals : vals ≡ₚ sums).
  { apply NoDup_Permutation.
    - unfold vals. rewrite (rangeValues_perm _ _ _ Hw).
      apply NoDup_fmap_2_strong; [|apply NoDup_map_to_list].
      intros [k c] [k' c'] Hk Hk' Heq. cbn in Heq. subst c'.
      apply elem_of_map_to_list, Htm in Hk, Hk'.
      destruct Hk as [_ <-], Hk' as [_ <-]. reflexivity.
    - eapply NoDup_map_inv. exact Hndp.
    - intros c. unfold vals. rewrite (rangeValues_perm _ _ _ Hw).
      rewrite list_elem_of_fmap. split.
      + intros ([k c'] & -> & Hk). cbn.
        apply elem_of_map_to_list, Htm in Hk as [Hc _].
        apply list_elem_of_In. exact Hc.
      + intros Hc. exists (Path c, c). split; [reflexivity|].
        apply elem_of_map_to_list, Htm. split; [|reflexivity].
        apply list_elem_of_In. exact Hc. }
  assert (Hsort : Sort (generic.lessEntry ToLower) vals
                  = Sort (generic.lessEntry ToLower) sums).
  { apply (sorted_same _ _ Hsorts); [exact Hvals|].
    assert (Hp : map (fun c => ToLower (Path c)) vals
                 ≡ₚ map (fun c => ToLower (Path c)) sums)
      by apply Permutation_map, Hvals.
    rewrite Hp. exact Hnd. }
  unfold generic.writeFile, generic.serialize in *. rewrite Hsort, Hser.
  unfold WriteFile. rewrite Hwr.
  eexists. split; [reflexivity|]. cbn [hashed exitCode world].
  split; [reflexivity|]. split; [reflexivity|].
  unfold ReadFile. cbn. rewrite String.eqb_refl. reflexivity.
Qed.

Lemma update_up_to_date_witness :
  let w :=
    twoFilesAndManifest
      ("9dd4e461268c8034f5c8564e155c67a6 *a.txt" +:+ nl
       +:+ "415290769594460e2e485922904f345d *b.txt" +:+ nl) in
  let ctx := {| Args := ["src"; "src/sums.md5"]; Flags := ["delete"] |} in
  exists o,
    generic.updateCommand strings.ToLower (@sort.Sort Checksum) 80 w ctx = Ends o
    /\ hashed o = []
    /\ exitCode o = 0
    /\ ReadFile (world o) "src/sums.md5"
       = Ok ("9dd4e461268c8034f5c8564e155c67a6 *a.txt" +:+ nl
             +:+ "415290769594460e2e485922904f345d *b.txt" +:+ nl).
Proof.
  intros w ctx.
  apply (update_up_to_date strings.ToLower (@sort.Sort Checksum) 80 w ctx
           "src" "src/sums.md5" []
           [ {| Hash := "415290769594460e2e485922904f345d"; Path := "src/b.txt" |};
             {| Hash := "9dd4e461268c8034f5c8564e155c67a6"; Path := "src/a.txt" |} ]).
  - apply insertion_sorts, Less_asym.
  - lia.
  - intros loop keys. reflexivity.
  - reflexivity.
  - reflexivity.
  - reflexivity.
  - reflexivity.
  - compute_done.
  - intros c [<-|[<-|[]]]; repeat split; try reflexivity;
      right; split; try reflexivity; vm_compute; lia.
  - repeat constructor.
  - intros p Hp. vm_compute in Hp. vm_compute. tauto.
  - intros _ c [<-|[<-|[]]]; vm_compute; tauto.
Defined.

(** ** The paths [update] writes *)

(** X7. The entries a successful [update] writes.  With [--delete] their
    paths are exactly the paths the scan kept; without it they are those
    paths and the paths the manifest already held. *)
Theorem update_covers w ctx source target rest :
  rangeOrderOK w ->
  Args ctx = source :: target :: rest ->
  exitCode (updateCommand w ctx) = 0 ->
  exists (targetMap : gmap string Checksum) sums,
    readFileToMap w target = Ok targetMap
    /\ writes w (world (updateCommand w ctx)) sums target
    /\ forall p,
         In p (map Path sums) <->
         In p (keptPaths w target (Walk w source))
         \/ (Context_Bool ctx "delete" = false /\ is_Some (targetMap !! p)).
Proof.
  intros Hw Hargs. unfold updateCommand, scanSource. rewrite Hargs.
  destruct (first_error w target false (Walk w source))
    as [Hall|(pre & it & post & e & Hwalk & Hpre & Hit)].
  2:{ rewrite Hwalk, (scanSource_err _ _ _ _ _ _ _ _ Hpre Hit). discriminate. }
  rewrite (scanSource_ok _ _ _ _ _ Hall).
  set (sourceMap := fold_left _ _ ∅).
  assert (Hsrc : forall k, is_Some (sourceMap !! k)
                           <-> In k (keptPaths w target (Walk w source))).
  { intros k. unfold sourceMap. rewrite insert_all_lookup, lookup_empty.
    rewrite <- list_elem_of_In.
    case_bool_decide; split; intros H'; try done; try (by eexists). }
  destruct (readFileToMap w target) as [targetMap|err] eqn:Hm; [|discriminate].
  destruct (reconcile_spec w (Context_Bool ctx "delete") sourceMap targetMap []
              Hw) as (hs & _ & _ & Hfinal).
  destruct (reconcile w _ sourceMap targetMap []) as [[finalMap|err] log];
    [|discriminate].
  destruct (Hfinal finalMap eq_refl) as (_ & Hgen & Hlook).
  destruct (writeFile w _ target) as [w'|err] eqn:Hwrite; [|discriminate].
  intros _. exists targetMap, (rangeValues w 2 finalMap).
  split; [reflexivity|]. split; [exact Hwrite|].
  assert (Hpath : forall k c, finalMap !! k = Some c -> Path c = k).
  { intros k c. rewrite Hlook. unfold reconciled.
    destruct (targetMap !! k) as [c'|] eqn:Ht.
    - destruct (_ && _); [discriminate|]. intros [= <-].
      eapply readFileToMap_key; eassumption.
    - destruct (sourceMap !! k); [|discriminate]. unfold freshEntry.
      destruct (generateMd5 w k); [|discriminate]. intros [= <-]. reflexivity. }
  assert (Hsome : forall k,
             is_Some (finalMap !! k) <->
             In k (keptPaths w target (Walk w source))
             \/ (Context_Bool ctx "delete" = false /\ is_Some (targetMap !! k))).
  { intros k. rewrite <- Hsrc, Hlook. unfold reconciled.
    destruct (targetMap !! k) as [c'|] eqn:Ht.
    - destruct (Context_Bool ctx "delete"); cbn [andb].
      + case_bool_decide as Hs.
        * rewrite Hs. split; [intros [? [=]]|].
          intros [[? [=]]|[[=] _]].
        * split; [intros _; left|by eexists].
          destruct (sourceMap !! k); [by eexists|congruence].
      + split; [intros _; right; split; [reflexivity|by eexists]|by eexists].
    - destruct (sourceMap !! k) eqn:Hs.
      + specialize (Hgen k ltac:(by eexists) Ht). unfold freshEntry.
        destruct (generateMd5 w k); [|discriminate].
        split; [intros _; left; by eexists|by eexists].
      + split; [intros [? [=]]|]. intros [[? [=]]|[_ [? [=]]]]. }
  intros p. rewrite <- Hsome, in_map_iff. split.
  - intros (c & <- & Hc).
    apply list_elem_of_In in Hc.
    rewrite (rangeValues_perm _ _ _ Hw) in Hc.
    apply list_elem_of_fmap in Hc as ([k c'] & -> & Hk). cbn.
    apply elem_of_map_to_list in Hk. rewrite (Hpath _ _ Hk). by eexists.
  - intros [c Hc]. exists c. split; [eapply Hpath; exact Hc|].
    eapply rangeValues_elem; eassumption.
Qed.

Lemma update_covers_witness :
  exists sums,
    writes updateDisk
           (world (updateCommand updateDisk
                     {| Args := ["src"; "src/sums.md5"]; Flags := ["delete"] |}))
           sums "src/sums.md5"
    /\ In "src/d.txt" (map Path sums)
    /\ ~ In "src/b.txt" (map Path sums).
Proof.
  destruct (update_covers updateDisk
              {| Args := ["src"; "src/sums.md5"]; Flags := ["delete"] |}
              "src" "src/sums.md5" [])
    as (targetMap & sums & Hm & Hwr & Hp).
  - intros loop keys. reflexivity.
  - reflexivity.
  - reflexivity.
  - exists sums. split; [exact Hwr|]. split.
    + apply Hp. left. vm_compute. auto.
    + intros [Hk|[Hflag _]]%Hp; [|discriminate Hflag].
      vm_compute in Hk. intuition discriminate.
Defined.
